(** * DeDeezer: the auto-patcher pipeline and the injection wrappers

    A shallow embedding of [autopatch.js] (class [DeezerPatcher]) and of the
    two injection wrappers ([patch_files/ghostery.js] and
    [patch_files/loadextention.js]).

    The patcher is a sequence of synchronous file-system operations and
    external commands.  It is embedded in a small state-and-exception monad
    over a [world] that holds the file system (a finite map from paths to
    nodes), a logical clock, the log of the external commands run, and the
    state of the Deezer process.  [process.exit] is a third kind of outcome
    next to returning and throwing, since no [catch] block intercepts it.

    The wrappers are embedded as transformers of an [app] state that holds the
    Electron emitter's listener table, the captured ready listeners, and a
    trace of what ran. *)

From Stdlib Require Import Ascii String.
From stdpp Require Import gmap strings list pretty.


(* ===================================================================== *)
(** ** Paths and the file system *)
(* ===================================================================== *)

Module Fs.

(** A path is its list of components; [path.join(a, 'b', 'c')] is
    [a ++ ["b"; "c"]]. *)
Definition path := list string.

(** A node is a regular file with its bytes and modification time, or a
    directory. *)
Inductive node :=
  | File (content : string) (mtime : N)
  | Dir.

#[global] Instance node_eq_dec : EqDecision node.
Proof. solve_decision. Defined.

Abbreviation fsys := (gmap path node).

Definition is_file (n : option node) : bool :=
  match n with Some (File _ _) => true | _ => false end.

Definition is_dir (n : option node) : bool :=
  match n with Some Dir => true | _ => false end.

(** [fs.existsSync(p)] *)
Definition existsSync (p : path) (fs : fsys) : bool :=
  bool_decide (is_Some (fs !! p)).

(** The proper ancestors of [p], shortest first: [/a/b/c] has
    [[]; [a]; [a;b]]. *)
Fixpoint ancestors (p : path) : list path :=
  match p with
  | [] => []
  | c :: q => [] :: (cons c <$> ancestors q)
  end.

(** Two paths are related when one is at or below the other. *)
Definition related (d p : path) : Prop := d `prefix_of` p \/ p `prefix_of` d.

#[global] Instance related_dec (d p : path) : Decision (related d p).
Proof. unfold related. apply _. Defined.

(** Errors of the Node.js [fs] calls the patcher makes. *)
Inductive errno := ENOENT | EEXIST | ENOTDIR | EISDIR | ENOTEMPTY | EINVAL.

(** Insert a directory at [p] unless something is there already. *)
Definition ensure_dir (p : path) (fs : fsys) : fsys :=
  match fs !! p with
  | Some _ => fs
  | None => <[p := Dir]> fs
  end.

(** Directories for [p] and every ancestor that is missing. *)
Definition mkdir_p (p : path) (fs : fsys) : fsys :=
  foldr ensure_dir fs (p :: ancestors p).

(** [fs.mkdirSync(p, { recursive: true })]: creates [p] and its missing
    ancestors; an existing directory at [p] is not an error; a regular
    file at [p] or at an ancestor is. *)
Definition mkdirSync (p : path) (fs : fsys) : errno + fsys :=
  if existsb (fun q => is_file (fs !! q)) (ancestors p) then inl ENOTDIR
  else if is_file (fs !! p) then inl EEXIST
  else inr (mkdir_p p fs).

(** [fs.rmSync(p, { recursive: true, force: true })]: removes [p] and
    everything below it; a missing [p] is not an error. *)
Definition rmSync (p : path) (fs : fsys) : fsys :=
  filter (fun kv => ¬ p `prefix_of` kv.1) fs.

(** [fs.readFileSync(p, 'utf8')] *)
Definition readFileSync (p : path) (fs : fsys) : errno + string :=
  match fs !! p with
  | Some (File c _) => inr c
  | Some Dir => inl EISDIR
  | None => inl ENOENT
  end.

Definition parent (p : path) : path := removelast p.

(** [fs.copyFileSync(src, dst)] at time [now]: [src] must be a regular
    file, the directory of [dst] must exist and [dst] must not be a
    directory; [dst] is created or overwritten and stamped [now]. *)
Definition copyFileSync (src dst : path) (now : N) (fs : fsys) : errno + fsys :=
  match fs !! src with
  | None => inl ENOENT
  | Some Dir => inl EISDIR
  | Some (File c _) =>
      if negb (is_dir (fs !! parent dst)) then inl ENOENT
      else if is_dir (fs !! dst) then inl EISDIR
      else inr (<[dst := File c now]> fs)
  end.

(** [q] relative to [p], when [q] is at or below [p]. *)
Fixpoint strip_prefix (p q : path) : option path :=
  match p, q with
  | [], _ => Some q
  | a :: p', b :: q' => if decide (a = b) then strip_prefix p' q' else None
  | _ :: _, [] => None
  end.

(** The nodes at and below [p], keyed by their path relative to [p]. *)
Definition subtree (p : path) (fs : fsys) : list (path * node) :=
  omap (fun kv => (fun rel => (rel, kv.2)) <$> strip_prefix p kv.1) (map_to_list fs).

(** The regular files at and below [p] with their bytes: what an external
    tool that is handed the directory [p] reads. *)
Definition files_under (p : path) (fs : fsys) : gmap path string :=
  list_to_map
    (omap (fun kv => match kv.2 with File c _ => Some (kv.1, c) | Dir => None end)
          (subtree p fs)).

(** Put the nodes [t] (relative paths) below [b]. *)
Definition graft (b : path) (t : list (path * node)) (fs : fsys) : fsys :=
  foldr (fun kv acc => <[b ++ kv.1 := kv.2]> acc) fs t.

(** [fs.renameSync(a, b)]: [a] must exist and the directory of [b] must
    exist.  A regular file replaces a regular file at [b]; a directory moves
    with everything below it, and only onto a free name. *)
Definition renameSync (a b : path) (fs : fsys) : errno + fsys :=
  match fs !! a with
  | None => inl ENOENT
  | Some (File c m) =>
      if negb (is_dir (fs !! parent b)) then inl ENOENT
      else if is_dir (fs !! b) then inl EISDIR
      else inr (<[b := File c m]> (delete a fs))
  | Some Dir =>
      if negb (is_dir (fs !! parent b)) then inl ENOENT
      else if bool_decide (a `prefix_of` b) then inl EINVAL
      else if is_file (fs !! b) then inl ENOTDIR
      else if is_dir (fs !! b) then inl ENOTEMPTY
      else inr (graft b (subtree a fs) (rmSync a fs))
  end.

(** Write one regular file, creating the directories above it. *)
Definition write_file (p : path) (c : string) (now : N) (fs : fsys) : fsys :=
  <[p := File c now]> (foldr ensure_dir fs (ancestors p)).

(** Materialise the files [es] (relative path, bytes) below the directory
    [dst]: the effect of an external tool that writes a tree. *)
Definition write_tree (dst : path) (es : list (path * string)) (now : N) (fs : fsys) : fsys :=
  foldl (fun acc e => write_file (dst ++ e.1) e.2 now acc) (mkdir_p dst fs) es.

End Fs.

(* ===================================================================== *)
(** ** Strings: the JavaScript string methods the sources call *)
(* ===================================================================== *)

Module Js.

(** [hay.includes(needle)] *)
Fixpoint includes (needle hay : string) : bool :=
  String.prefix needle hay ||
  match hay with
  | EmptyString => false
  | String _ rest => includes needle rest
  end.

(** [needle] occurs in [hay]: what [includes] decides. *)
Definition occurs_in (needle hay : string) : Prop :=
  exists pre post, hay = pre +:+ needle +:+ post.

(** Strings are held as the bytes of their UTF-8 encoding.  An ASCII
    needle occurs in a text exactly when its bytes occur in the bytes of
    the text, so [includes] above needs no decoding. *)

Definition is_ascii_char (a : ascii) : bool := nat_of_ascii a <? 128.

(** The string holds ASCII characters only. *)
Fixpoint is_ascii (s : string) : bool :=
  match s with
  | EmptyString => true
  | String a rest => is_ascii_char a && is_ascii rest
  end.

Definition lower_ascii (a : ascii) : ascii :=
  let n := nat_of_ascii a in
  if (65 <=? n) && (n <=? 90) then ascii_of_nat (n + 32) else a.

(** What [s.toLowerCase()] is for a string of ASCII characters: [A-Z]
    become [a-z].  What [toLowerCase] does to the other characters is
    given by the Unicode tables of the runtime; the code that calls
    [toLowerCase] takes it from its environment. *)
Fixpoint ascii_toLowerCase (s : string) : string :=
  match s with
  | EmptyString => EmptyString
  | String a rest => String (lower_ascii a) (ascii_toLowerCase rest)
  end.

(** What every runtime's [toLowerCase] satisfies. *)
Definition lowers_ascii (toLowerCase : string -> string) : Prop :=
  forall s, is_ascii s = true -> toLowerCase s = ascii_toLowerCase s.

(** The characters [trim] strips, each as its UTF-8 bytes: the WhiteSpace
    and LineTerminator productions of ECMA-262, that is TAB, LF, VT, FF,
    CR, SP, U+00A0, U+FEFF, U+2028, U+2029 and the other members of the
    category Zs. *)
Definition white_space : list (list nat) :=
  [ [9]; [10]; [11]; [12]; [13]; [32];
    [194; 160];
    [225; 154; 128];
    [226; 128; 128]; [226; 128; 129]; [226; 128; 130]; [226; 128; 131];
    [226; 128; 132]; [226; 128; 133]; [226; 128; 134]; [226; 128; 135];
    [226; 128; 136]; [226; 128; 137]; [226; 128; 138];
    [226; 128; 168]; [226; 128; 169];
    [226; 128; 175];
    [226; 129; 159];
    [227; 128; 128];
    [239; 187; 191] ].

Fixpoint starts_with (w s : list ascii) : option (list ascii) :=
  match w, s with
  | [], _ => Some s
  | a :: w', b :: s' => if Ascii.eqb a b then starts_with w' s' else None
  | _ :: _, [] => None
  end.

(** [s] less the one character of [ws] it starts with, if any. *)
Fixpoint strip_one (ws : list (list ascii)) (s : list ascii) : option (list ascii) :=
  match ws with
  | [] => None
  | w :: rest =>
      match starts_with w s with
      | Some s' => Some s'
      | None => strip_one rest s
      end
  end.

(** [s] less the characters of [ws] it starts with; [n] bounds their
    number. *)
Fixpoint strip_all (ws : list (list ascii)) (n : nat) (s : list ascii) : list ascii :=
  match n with
  | 0 => s
  | S n' =>
      match strip_one ws s with
      | Some s' => strip_all ws n' s'
      | None => s
      end
  end.

Definition trimStart (s : string) : string :=
  let l := list_ascii_of_string s in
  string_of_list_ascii (strip_all (map (map ascii_of_nat) white_space) (length l) l).

(** The same from the end: the bytes are read backwards. *)
Definition trimEnd (s : string) : string :=
  let l := rev (list_ascii_of_string s) in
  string_of_list_ascii
    (rev (strip_all (map (fun w => rev (map ascii_of_nat w)) white_space) (length l) l)).

(** [s.trim()] *)
Definition trim (s : string) : string := trimEnd (trimStart s).

End Js.

(* ===================================================================== *)
(** ** autopatch.js: class DeezerPatcher *)
(* ===================================================================== *)

Module Patcher.
Import Fs.

Inductive platform := win32 | darwin | linux | other_platform (name : string).

#[global] Instance platform_eq_dec : EqDecision platform.
Proof. solve_decision. Defined.

Inductive package_manager := pnpm | yarn | npm.

(** What the script reads from [os], [process.env], [__dirname] and the
    [PATH] when it starts, and the [String.prototype.toLowerCase] of the
    runtime it runs on (its Unicode case mapping). *)
Record env := {
  os_platform : platform;
  os_homedir : path;
  os_tmpdir : path;
  script_dirname : path;
  npm_execpath : option string;
  pnpm_installed : bool;
  yarn_installed : bool;
  String_toLowerCase : string -> string
}.

Record platform_paths := {
  deezerPath : path;
  asarFile : string;
  executable : string
}.

(** The fields the constructor assigns once.  [this.useExistingBackup],
    which [step0_CheckIfPatched] assigns later, lives in the [state]. *)
Record patcher := {
  this_platform : platform;
  tempDir : path;
  backupDir : path;
  packageManager : package_manager;
  paths : platform_paths
}.

(** ['npm install --save @ghostery/adblocker-electron'] and
    ['npm install --production'] *)
Inductive npm_goal := SaveGhostery | Production.

(** External commands, as [execSync] receives them. *)
Inductive command :=
  | Tasklist
  | Taskkill (force : bool)
  | AsarExtract (pm : package_manager) (src dst : path)
  | AsarPack (pm : package_manager) (src dst : path)
  | NpmInstall (goal : npm_goal) (cwd : path).

(** The external collaborators, known only by their contract: a command
    reads the bytes or the tree it is pointed at and either exits non-zero
    ([None]) or yields the files it writes at its destination. *)
Record tools := {
  asar_extract : package_manager -> string -> option (list (path * string));
  asar_pack : package_manager -> gmap path string -> option string;
  npm_install : npm_goal -> gmap path string -> option (list (path * string))
}.

Record process_state := {
  running : bool;
  graceful_kill_works : bool;
  force_kill_works : bool
}.

(** [answer] is the line the user types at the prompt, as the bytes of
    its UTF-8 encoding. *)
Record state := {
  fs : fsys;
  clock : N;
  cmds : list command;
  deezer : process_state;
  answer : string;
  useExistingBackup : bool
}.

Inductive error :=
  | AsarNotFound (p : path)
  | MainJsNotFound (p : path)
  | PatchedMainNotFound (p : path)
  | RepackedNotFound (p : path)
  | FsError (e : errno) (p : path)
  | CommandFailed (c : command).

(** How a computation ends: it returns, it throws, or it calls
    [process.exit], which no [catch] intercepts. *)
Inductive outcome (A : Type) :=
  | Ret (a : A)
  | Throw (err : error)
  | Exit (code : nat).
Arguments Ret {A} a.
Arguments Throw {A} err.
Arguments Exit {A} code.

Definition M (A : Type) : Type := state -> outcome A * state.

Definition ret {A} (a : A) : M A := fun s => (Ret a, s).
Definition throw {A} (err : error) : M A := fun s => (Throw err, s).
Definition process_exit {A} (code : nat) : M A := fun s => (Exit code, s).

Definition bind {A B} (m : M A) (k : A -> M B) : M B :=
  fun s =>
    match m s with
    | (Ret a, s') => k a s'
    | (Throw err, s') => (Throw err, s')
    | (Exit code, s') => (Exit code, s')
    end.

(** [try { m } catch (error) { handler }] *)
Definition try_catch {A} (m : M A) (handler : error -> M A) : M A :=
  fun s =>
    match m s with
    | (Throw err, s') => handler err s'
    | r => r
    end.

Declare Scope js_scope.
Delimit Scope js_scope with js.
Notation "x <- m ;; k" := (bind m (fun x => k))
  (at level 100, m at next level, right associativity) : js_scope.
Notation "m ;; k" := (bind m (fun _ => k))
  (at level 100, right associativity) : js_scope.
Open Scope js_scope.

Definition gets {A} (f : state -> A) : M A := fun s => (Ret (f s), s).

Definition set_fs (f : fsys) (s : state) : state :=
  {| fs := f; clock := clock s; cmds := cmds s; deezer := deezer s;
     answer := answer s; useExistingBackup := useExistingBackup s |}.

Definition set_useExistingBackup (b : bool) : M unit := fun s =>
  (Ret tt, {| fs := fs s; clock := clock s; cmds := cmds s; deezer := deezer s;
              answer := answer s; useExistingBackup := b |}).

(** Time passes: [d] milliseconds. *)
Definition elapse (d : N) (s : state) : state :=
  {| fs := fs s; clock := (clock s + d)%N; cmds := cmds s; deezer := deezer s;
     answer := answer s; useExistingBackup := useExistingBackup s |}.

Definition set_running (b : bool) (s : state) : state :=
  {| fs := fs s; clock := clock s; cmds := cmds s;
     deezer := {| running := b;
                  graceful_kill_works := graceful_kill_works (deezer s);
                  force_kill_works := force_kill_works (deezer s) |};
     answer := answer s; useExistingBackup := useExistingBackup s |}.

(** Every [execSync] is logged and takes a tick of the clock. *)
Definition log_cmd (c : command) (s : state) : state :=
  {| fs := fs s; clock := (clock s + 1)%N; cmds := cmds s ++ [c]; deezer := deezer s;
     answer := answer s; useExistingBackup := useExistingBackup s |}.

(** [Date.now()] *)
Definition Date_now : M N := gets clock.

(** [await new Promise(resolve => setTimeout(resolve, ms))] *)
Definition sleep (ms : N) : M unit := fun s => (Ret tt, elapse ms s).

(** The [fs] calls, lifted: an [errno] becomes a thrown error. *)
Definition fs_existsSync (p : path) : M bool := gets (fun s => existsSync p (fs s)).

Definition lift_fs (p : path) (op : fsys -> errno + fsys) : M unit := fun s =>
  match op (fs s) with
  | inl e => (Throw (FsError e p), s)
  | inr f => (Ret tt, set_fs f s)
  end.

Definition fs_mkdirSync (p : path) : M unit := lift_fs p (mkdirSync p).
Definition fs_rmSync (p : path) : M unit := lift_fs p (fun f => inr (rmSync p f)).
Definition fs_renameSync (a b : path) : M unit := lift_fs a (renameSync a b).
Definition fs_copyFileSync (src dst : path) : M unit := fun s =>
  lift_fs src (copyFileSync src dst (clock s)) s.

Definition fs_readFileSync (p : path) : M string := fun s =>
  match readFileSync p (fs s) with
  | inl e => (Throw (FsError e p), s)
  | inr c => (Ret c, s)
  end.

(** *** The constructor *)

Definition detectPackageManager (e : env) : package_manager :=
  let fallback :=
    if pnpm_installed e then pnpm
    else if yarn_installed e then yarn
    else npm in
  match npm_execpath e with
  | Some execpath =>
      if bool_decide (execpath = "") then fallback
      else if Js.includes "pnpm" execpath then pnpm
      else if Js.includes "yarn" execpath then yarn
      else npm
  | None => fallback
  end.

(** [None] is the [throw new Error(`Unsupported platform: ...`)]. *)
Definition getPlatformPaths (e : env) : option platform_paths :=
  match os_platform e with
  | win32 =>
      Some {| deezerPath := os_homedir e ++ ["AppData"; "Local"; "Programs"; "deezer-desktop"];
              asarFile := "app.asar";
              executable := "Deezer.exe" |}
  | darwin =>
      Some {| deezerPath := ["Applications"; "Deezer.app"; "Contents"; "Resources"];
              asarFile := "app.asar";
              executable := "Deezer" |}
  | linux =>
      Some {| deezerPath := ["opt"; "deezer-desktop"; "resources"];
              asarFile := "app.asar";
              executable := "deezer-desktop" |}
  | other_platform _ => None
  end.

(** [new DeezerPatcher()] at time [now] *)
Definition DeezerPatcher (e : env) (now : N) : option patcher :=
  match getPlatformPaths e with
  | Some pp =>
      Some {| this_platform := os_platform e;
              tempDir := os_tmpdir e ++ ["deezer-patch-" +:+ pretty now];
              backupDir := script_dirname e ++ ["backups"];
              packageManager := detectPackageManager e;
              paths := pp |}
  | None => None
  end.

Section pipeline.
Context (e : env) (T : tools) (this : patcher).

(** *** External commands *)

Definition execSync (c : command) : M unit := fun s0 =>
  let s := log_cmd c s0 in
  let failed := (Throw (CommandFailed c), s) in
  match c with
  | Tasklist =>
      if running (deezer s) then (Ret tt, s) else failed
  | Taskkill force =>
      if running (deezer s) &&
         (if force then force_kill_works (deezer s) else graceful_kill_works (deezer s))
      then (Ret tt, set_running false s)
      else failed
  | AsarExtract pm src dst =>
      match fs s !! src with
      | Some (File bytes _) =>
          match asar_extract T pm bytes with
          | Some es => (Ret tt, set_fs (write_tree dst es (clock s) (fs s)) s)
          | None => failed
          end
      | _ => failed
      end
  | AsarPack pm src dst =>
      if is_dir (fs s !! src) then
        match asar_pack T pm (files_under src (fs s)) with
        | Some bytes => (Ret tt, set_fs (write_file dst bytes (clock s) (fs s)) s)
        | None => failed
        end
      else failed
  | NpmInstall goal cwd =>
      if is_dir (fs s !! cwd) then
        match npm_install T goal (files_under cwd (fs s)) with
        | Some es => (Ret tt, set_fs (write_tree cwd es (clock s) (rmSync cwd (fs s))) s)
        | None => failed
        end
      else failed
  end.

Definition originalAsar : path := deezerPath (paths this) ++ ["resources"; asarFile (paths this)].
Definition backupFile : path := deezerPath (paths this) ++ ["resources"; "app.bak.asar"].
Definition extractPath : path := tempDir this ++ ["extracted"].
Definition newAsarPath : path := tempDir this ++ ["app.new.asar"].

(** *** The steps *)

Definition step0_KillDeezer : M unit :=
  try_catch
    (if decide (this_platform this = win32) then
       try_catch
         (execSync Tasklist;;
          try_catch (execSync (Taskkill false)) (fun _ => execSync (Taskkill true));;
          sleep 2000%N)
         (fun _ => ret tt)
     else ret tt)
    (fun _ => ret tt).

Definition has_signature (content : string) : bool :=
  Js.includes "DZ_DEVTOOLS" content || Js.includes "[inject]" content.

Definition tempCheck_at (now : N) : path :=
  os_tmpdir e ++ ["deezer-check-" +:+ pretty now].

Definition checkPatchSignature (asarPath : path) : M bool :=
  try_catch
    (now <- Date_now;;
     let tempCheck := tempCheck_at now in
     fs_mkdirSync tempCheck;;
     execSync (AsarExtract npm asarPath tempCheck);;
     let mainJsPath := tempCheck ++ ["build"; "main.js"] in
     found <- fs_existsSync mainJsPath;;
     if found then
       content <- fs_readFileSync mainJsPath;;
       let isPatched := has_signature content in
       fs_rmSync tempCheck;;
       ret isPatched
     else
       fs_rmSync tempCheck;;
       ret false)
    (fun _ => ret false).

Definition askUserConfirmation : M bool :=
  gets (fun s =>
    let a := Js.trim (String_toLowerCase e (answer s)) in
    bool_decide (a = "y") || bool_decide (a = "yes")).

Definition step0_CheckIfPatched : M unit :=
  found <- fs_existsSync originalAsar;;
  if negb found then throw (AsarNotFound originalAsar)
  else
    isPatched <- checkPatchSignature originalAsar;;
    if isPatched then
      hasBackup <- fs_existsSync backupFile;;
      if hasBackup then
        shouldRepatch <- askUserConfirmation;;
        if shouldRepatch then set_useExistingBackup true
        else process_exit 0
      else process_exit 1
    else ret tt.

Definition step1_CreateBackup : M unit :=
  found <- fs_existsSync originalAsar;;
  if negb found then throw (AsarNotFound originalAsar)
  else
    hasBackup <- fs_existsSync backupFile;;
    reuse <- gets useExistingBackup;;
    if hasBackup && negb reuse then ret tt
    else if reuse then ret tt
    else fs_copyFileSync originalAsar backupFile.

Definition step2_CreateTempFolder : M unit :=
  found <- fs_existsSync (tempDir this);;
  (if found then fs_rmSync (tempDir this) else ret tt);;
  fs_mkdirSync (tempDir this).

Definition step3_ExtractAsar : M unit :=
  reuse <- gets useExistingBackup;;
  let sourceAsar := if reuse then backupFile else originalAsar in
  execSync (AsarExtract (packageManager this) sourceAsar extractPath).

Definition step4_RenameMainJs : M unit :=
  let originalMain := extractPath ++ ["build"; "main.js"] in
  let renamedMain := extractPath ++ ["build"; "main.original.js"] in
  found <- fs_existsSync originalMain;;
  if negb found then throw (MainJsNotFound originalMain)
  else fs_renameSync originalMain renamedMain.

Definition step5_CopyNewMainJs : M unit :=
  let sourceMain := script_dirname e ++ ["decomp"; "build"; "main.js"] in
  let targetMain := extractPath ++ ["build"; "main.js"] in
  found <- fs_existsSync sourceMain;;
  if negb found then throw (PatchedMainNotFound sourceMain)
  else fs_copyFileSync sourceMain targetMain.

Definition step6_AddGhosteryDependencies : M unit :=
  let nodeModulesPath := extractPath ++ ["node_modules"] in
  let packageJsonPath := extractPath ++ ["package.json"] in
  hasModules <- fs_existsSync nodeModulesPath;;
  (if hasModules then fs_rmSync nodeModulesPath else ret tt);;
  hasPackageJson <- fs_existsSync packageJsonPath;;
  if negb hasPackageJson then ret tt
  else
    execSync (NpmInstall SaveGhostery extractPath);;
    execSync (NpmInstall Production extractPath).

Definition step7_RepackAsar : M unit :=
  execSync (AsarPack (packageManager this) extractPath newAsarPath).

Definition cleanup : M unit :=
  found <- fs_existsSync (tempDir this);;
  if found then fs_rmSync (tempDir this) else ret tt.

Definition step8_CopyBack : M unit :=
  let targetAsar := originalAsar in
  found <- fs_existsSync newAsarPath;;
  if negb found then throw (RepackedNotFound newAsarPath)
  else
    fs_copyFileSync newAsarPath targetAsar;;
    cleanup.

(** Everything [run] awaits before [step8_CopyBack]. *)
Definition steps_before_CopyBack : M unit :=
  step0_KillDeezer;;
  step0_CheckIfPatched;;
  step1_CreateBackup;;
  step2_CreateTempFolder;;
  step3_ExtractAsar;;
  step4_RenameMainJs;;
  step5_CopyNewMainJs;;
  step6_AddGhosteryDependencies;;
  step7_RepackAsar.

(** The ten steps [run] awaits, in order. *)
Definition pipeline : M unit :=
  steps_before_CopyBack;;
  step8_CopyBack.

Definition run : M unit :=
  try_catch
    (if decide (this_platform this <> win32) then ret tt
     else pipeline)
    (fun _ => cleanup;; process_exit 1).

End pipeline.

End Patcher.


(* ===================================================================== *)
(** ** The injection wrappers *)
(* ===================================================================== *)

(** The part of Electron's [app] the wrappers touch.  Callbacks are opaque:
    a listener is known by a name, and a call of it by whether it throws.
    The trace records what ran, in order. *)
Module Electron.

Inductive listener :=
  | MainListener (id : nat)
  | SessionHook (manual : bool)
  | WebContentsHook (manual : bool).

#[global] Instance listener_eq_dec : EqDecision listener.
Proof. solve_decision. Defined.

(** What [initAdblocker] resolves with: the blocker instance,
    [{ manual: true }], or [null]. *)
Inductive init_result := Blocker | Manual | NoBlocker.

#[global] Instance init_result_eq_dec : EqDecision init_result.
Proof. solve_decision. Defined.

Inductive event :=
  | Invoked (l : listener)
  | Threw (l : listener)
  | InitStarted
  | InitResolved (r : init_result)
  | ExtensionSettled (loaded : bool)
  | AppOnRestored.

#[global] Instance event_eq_dec : EqDecision event.
Proof. solve_decision. Defined.

(** A row of the emitter's listener table. *)
Record registration := {
  reg_event : string;
  reg_once : bool;
  reg_listener : listener
}.

Record app := {
  emitter : list registration;
  on_patched : bool;
  readyListeners : list listener;
  process_env : gmap string string;
  trace : list event
}.

Definition log (ev : event) (a : app) : app :=
  {| emitter := emitter a; on_patched := on_patched a;
     readyListeners := readyListeners a; process_env := process_env a;
     trace := trace a ++ [ev] |}.

Definition register (r : registration) (a : app) : app :=
  {| emitter := emitter a ++ [r]; on_patched := on_patched a;
     readyListeners := readyListeners a; process_env := process_env a;
     trace := trace a |}.

(** [originalAppOn(event, listener)], Electron's own [app.on] *)
Definition originalAppOn (ev : string) (l : listener) (a : app) : app :=
  register {| reg_event := ev; reg_once := false; reg_listener := l |} a.

(** [app.addListener(event, listener)].  On [EventEmitter.prototype],
    [on] is another name of [addListener]; the wrappers put their
    replacement in the property [on] of the object [app], which leaves
    [addListener] as it is. *)
Definition app_addListener (ev : string) (l : listener) (a : app) : app :=
  register {| reg_event := ev; reg_once := false; reg_listener := l |} a.

(** [app.on(event, listener)]: the replacement the wrappers install while
    [on_patched], Electron's own otherwise.
<<
    app.on = (event, listener) => {
      if (event === 'ready') { readyListeners.push(listener); return app; }
      return originalAppOn(event, listener);
    };
>> *)
Definition app_on (ev : string) (l : listener) (a : app) : app :=
  if on_patched a then
    if bool_decide (ev = "ready") then
      {| emitter := emitter a; on_patched := on_patched a;
         readyListeners := readyListeners a ++ [l]; process_env := process_env a;
         trace := trace a |}
    else originalAppOn ev l a
  else originalAppOn ev l a.

(** [app.once(event, listener)].  Node's [EventEmitter.prototype.once] is
<<
    once(type, listener) {
      this.on(type, _onceWrap(this, type, listener));
      return this;
    }
>>
    so it goes through whatever [app.on] is when it is called: while the
    replacement is installed, a [once('ready', _)] is captured like an
    [on('ready', _)].  The function [once] hands to [on] calls [listener]
    the first time it is called and removes itself from the table; it is
    held here as [listener] itself, the row of the table marked
    [reg_once].  A captured one is called by the replay, once, like the
    listener it stands for. *)
Definition app_once (ev : string) (l : listener) (a : app) : app :=
  if on_patched a && bool_decide (ev = "ready") then app_on ev l a
  else register {| reg_event := ev; reg_once := true; reg_listener := l |} a.

(** [const readyListeners = []; app.on = ...] *)
Definition patch_app_on (a : app) : app :=
  {| emitter := emitter a; on_patched := true;
     readyListeners := []; process_env := process_env a;
     trace := trace a |}.

(** [app.on = originalAppOn] *)
Definition restore_app_on (a : app) : app :=
  log AppOnRestored
    {| emitter := emitter a; on_patched := false;
       readyListeners := readyListeners a; process_env := process_env a;
       trace := trace a |}.

(** [if (process.env[k] !== 'yes') process.env[k] = 'yes'] *)
Definition ensure_yes (k : string) (a : app) : app :=
  if bool_decide (process_env a !! k = Some "yes") then a
  else {| emitter := emitter a; on_patched := on_patched a;
          readyListeners := readyListeners a;
          process_env := <[k := "yes"]> (process_env a);
          trace := trace a |}.

Definition set_env_flags (a : app) : app :=
  ensure_yes "DZ_DISABLE_UPDATE" (ensure_yes "DZ_DEVTOOLS" a).

(** What the original main module does with [app] while it is being
    required: it registers listeners, and it may throw part-way. *)
Inductive call :=
  | On (ev : string) (l : listener)
  | Once (ev : string) (l : listener)
  | AddListener (ev : string) (l : listener)
  | Raise.

Record main_module := {
  calls : list call;
  main_exports : string
}.

(** Run the calls up to the first [Raise]; [true] when the module threw. *)
Fixpoint run_calls (cs : list call) (a : app) : bool * app :=
  match cs with
  | [] => (false, a)
  | On ev l :: rest => run_calls rest (app_on ev l a)
  | Once ev l :: rest => run_calls rest (app_once ev l a)
  | AddListener ev l :: rest => run_calls rest (app_addListener ev l a)
  | Raise :: _ => (true, a)
  end.

(** [try { originalExports = require(ORIGINAL_MAIN) } catch (e) { ... }]:
    the exports, or [undefined] when the module threw. *)
Definition require_original (m : main_module) (a : app) : option string * app :=
  match run_calls (calls m) a with
  | (false, a') => (Some (main_exports m), a')
  | (true, a') => (None, a')
  end.

Section replay.
Context (raises : listener -> bool).

(** One iteration of the replay loop:
    [try { readyListeners[i]() } catch (e) { console.error(...) }] *)
Definition call_guarded (l : listener) (a : app) : app :=
  let a1 := log (Invoked l) a in
  if raises l then log (Threw l) a1 else a1.

(** [for (let i = 0; i < readyListeners.length; i++) ...]; [n] bounds the
    iterations that are left. *)
Fixpoint replay_from (n i : nat) (a : app) : app :=
  match n with
  | 0 => a
  | S n' =>
      match readyListeners a !! i with
      | Some l => replay_from n' (S i) (call_guarded l a)
      | None => a
      end
  end.

Definition replay (a : app) : app :=
  replay_from (length (readyListeners a)) 0 a.

(** Electron fires ['ready']: the listeners of the emitter's table for
    that event run in registration order; an exception leaves [emit] and
    the listeners after it do not run.  Rows registered with [once] are
    removed. *)
Fixpoint emit_listeners (ls : list listener) (a : app) : app :=
  match ls with
  | [] => a
  | l :: rest =>
      let a1 := log (Invoked l) a in
      if raises l then log (Threw l) a1 else emit_listeners rest a1
  end.

Definition ready_rows (a : app) : list registration :=
  filter (fun r => reg_event r = "ready") (emitter a).

Definition emit_ready (a : app) : app :=
  let a1 := emit_listeners (reg_listener <$> ready_rows a) a in
  {| emitter := filter (fun r => ~ (reg_event r = "ready" /\ reg_once r = true)) (emitter a1);
     on_patched := on_patched a1; readyListeners := readyListeners a1;
     process_env := process_env a1; trace := trace a1 |}.

End replay.

End Electron.

(** [patch_files/ghostery.js]: the wrapper the patcher installs. *)
Module Ghostery.
Import Electron.

(** How a load of the prebuilt engine under [withTimeout] ends: it yields
    a value (truthy or not), it rejects, or the timer wins. *)
Inductive load_outcome := Loaded (truthy : bool) | Rejected | TimedOut.

(** What [initAdblocker] meets in its environment. *)
Record adblock_oracle := {
  deps_load : bool;
  cache_load : load_outcome;
  nocache_load : load_outcome;
  hook_default_session : bool;
  manual_setup : bool
}.

(** The two [app.on] calls that follow a successful setup. *)
Definition install_hooks (manual : bool) (a : app) : app :=
  app_on "web-contents-created" (WebContentsHook manual)
    (app_on "session-created" (SessionHook manual) a).

(** The outer [try] block; [None] when it throws. *)
Definition ghostery_attempt (O : adblock_oracle) (a : app) : option (init_result * app) :=
  if negb (deps_load O) then None
  else
    let blocker :=
      match cache_load O with
      | Loaded b => Some b
      | _ => match nocache_load O with
             | Loaded b => Some b
             | _ => None
             end
      end in
    match blocker with
    | None => None
    | Some false => None
    | Some true =>
        if hook_default_session O then Some (Blocker, install_hooks false a)
        else if manual_setup O then Some (Manual, install_hooks true a)
        else None
    end.

Definition initAdblocker (O : adblock_oracle) (a : app) : init_result * app :=
  let a0 := log InitStarted a in
  let '(r, a1) :=
    match ghostery_attempt O a0 with
    | Some ra => ra
    | None =>
        if manual_setup O then (Manual, install_hooks true a0)
        else (NoBlocker, a0)
    end in
  (r, log (InitResolved r) a1).

(** The module body up to the first [await] of [bootstrap]: the
    environment flags, the replacement of [app.on], the [require] of the
    original main module; returns [module.exports]. *)
Definition load (m : main_module) (a : app) : option string * app :=
  require_original m (patch_app_on (set_env_flags a)).

(** [bootstrap] after [await app.whenReady()]. *)
Definition bootstrap (raises : listener -> bool) (O : adblock_oracle) (a : app) : app :=
  let '(_, a1) := initAdblocker O a in
  restore_app_on (replay raises a1).

(** The wrapper from the [require] of the patched entry script to the end
    of [bootstrap]. *)
Definition lifecycle (raises : listener -> bool) (O : adblock_oracle)
    (m : main_module) (a : app) : option string * app :=
  let '(exports, a1) := load m a in
  (exports, bootstrap raises O (emit_ready raises a1)).

End Ghostery.

(** [patch_files/loadextention.js]: the wrapper that loads an unpacked
    extension. *)
Module LoadExtension.
Import Electron.

Definition load (m : main_module) (a : app) : option string * app :=
  require_original m (patch_app_on (set_env_flags a)).

(** [loadExtensionSafe] settles in every case; [loaded] tells whether the
    extension was loaded. *)
Definition loadExtensionSafe (loaded : bool) (a : app) : app :=
  log (ExtensionSettled loaded) a.

Definition bootstrap (raises : listener -> bool) (loaded : bool) (a : app) : app :=
  restore_app_on (replay raises (loadExtensionSafe loaded a)).

End LoadExtension.

(** Vocabulary for stating what the wrappers do. *)
Module WrapperSpec.
Import Electron.

(** The listeners that reach [app.on('ready', _)] before the original
    main module returns or throws, in order: those it hands to [app.on]
    itself and those it hands to [app.once]. *)
Fixpoint ready_via_on (cs : list call) : list listener :=
  match cs with
  | [] => []
  | On ev l :: rest | Once ev l :: rest =>
      if bool_decide (ev = "ready") then l :: ready_via_on rest else ready_via_on rest
  | AddListener _ _ :: rest => ready_via_on rest
  | Raise :: _ => []
  end.

(** The rows the same calls add to the emitter's table when [app.on] is
    the wrappers' replacement: every [addListener], and every [on] and
    [once] for another event than ['ready']. *)
Fixpoint direct_rows (cs : list call) : list registration :=
  match cs with
  | [] => []
  | On ev l :: rest =>
      if bool_decide (ev = "ready") then direct_rows rest
      else {| reg_event := ev; reg_once := false; reg_listener := l |} :: direct_rows rest
  | Once ev l :: rest =>
      if bool_decide (ev = "ready") then direct_rows rest
      else {| reg_event := ev; reg_once := true; reg_listener := l |} :: direct_rows rest
  | AddListener ev l :: rest =>
      {| reg_event := ev; reg_once := false; reg_listener := l |} :: direct_rows rest
  | Raise :: _ => []
  end.

(** The listeners a trace shows as called, in order. *)
Definition invocations (t : list event) : list listener :=
  omap (fun ev => match ev with Invoked l => Some l | _ => None end) t.

(** What a replay of [ls] adds to the trace. *)
Definition replay_events (raises : listener -> bool) (ls : list listener) : list event :=
  ls ≫= (fun l => Invoked l :: if raises l then [Threw l] else []).

(** The rows [initAdblocker] adds once a setup went through. *)
Definition hook_rows (r : init_result) : list registration :=
  match r with
  | Blocker =>
      [ {| reg_event := "session-created"; reg_once := false;
           reg_listener := SessionHook false |};
        {| reg_event := "web-contents-created"; reg_once := false;
           reg_listener := WebContentsHook false |} ]
  | Manual =>
      [ {| reg_event := "session-created"; reg_once := false;
           reg_listener := SessionHook true |};
        {| reg_event := "web-contents-created"; reg_once := false;
           reg_listener := WebContentsHook true |} ]
  | NoBlocker => []
  end.

Definition fresh_app : app :=
  {| emitter := []; on_patched := false; readyListeners := [];
     process_env := ∅; trace := [] |}.

Definition quiet_oracle : Ghostery.adblock_oracle :=
  {| Ghostery.deps_load := true; Ghostery.cache_load := Ghostery.Loaded true;
     Ghostery.nocache_load := Ghostery.Rejected;
     Ghostery.hook_default_session := true; Ghostery.manual_setup := true |}.

End WrapperSpec.

(* ===================================================================== *)
(** ** Well-formed file systems *)
(* ===================================================================== *)

Module FsShape.
Import Fs.

(** Every node sits in a directory: the proper ancestors of a path that
    exists are directories. *)
Definition well_formed (fs : fsys) : Prop :=
  map_Forall (fun p _ => Forall (fun q => fs !! q = Some Dir) (ancestors p)) fs.

#[global] Instance well_formed_dec (fs : fsys) : Decision (well_formed fs).
Proof. unfold well_formed. apply _. Defined.

(** No node below [src] lies more than [k] levels down. *)
Definition shallow (k : nat) (src : path) (fs : fsys) : Prop :=
  map_Forall (fun p _ => src `prefix_of` p -> length p <= length src + k) fs.

#[global] Instance shallow_dec (k : nat) (src : path) (fs : fsys) : Decision (shallow k src fs).
Proof. unfold shallow. apply _. Defined.

End FsShape.

(** Names for two paths of the extracted tree. *)
Module PatcherPaths.
Import Fs Patcher.

(** [<tempDir>/extracted/build/main.js], the entry script *)
Definition entry_js (this : patcher) : path :=
  extractPath this ++ ["build"; "main.js"].

(** [<tempDir>/extracted/build/main.original.js], where [step4_RenameMainJs]
    keeps the original entry script *)
Definition kept_js (this : patcher) : path :=
  extractPath this ++ ["build"; "main.original.js"].

End PatcherPaths.

(* ===================================================================== *)
(** ** autopatch.js: the command line *)
(* ===================================================================== *)

Module Cli.
Import Fs Patcher.

(** The script body under [require.main === module]; [args] is
    [process.argv.slice(2)].  An exception that leaves the constructor is
    uncaught and ends the process with status 1, and so does one that
    leaves [run] ([patcher.run().catch(...)]). *)
Definition main (e : env) (T : tools) (args : list string) : M unit := fun s =>
  if bool_decide ("--setup-macos" ∈ args) then (Exit 0, s)
  else if bool_decide ("--setup-linux" ∈ args) then (Exit 0, s)
  else if bool_decide ("--help" ∈ args) || bool_decide ("-h" ∈ args) then (Exit 0, s)
  else
    match DeezerPatcher e (clock s) with
    | None => (Exit 1, s)
    | Some this => try_catch (run e T this) (fun _ => process_exit 1) s
    end.

End Cli.

(* ===================================================================== *)
(** ** ghostery.js: the manual rules *)
(* ===================================================================== *)

Module ManualRules.

(** What a [webRequest.onBeforeRequest] handler passes to its callback:
    [{ cancel: true }] or [{}]. *)
Inductive response := Cancel | Continue.

(** The fragments the second handler of [setupManualAdBlocking] looks
    for, in the order of its [||] chain. *)
Definition fragments : list string :=
  [ "/ads/"; "/advertisement"; "googleads"; "doubleclick"; "adsystem";
    "googlesyndication"; "googleadservices"; "google-analytics";
    "googletagmanager"; "facebook.com/tr"; "connect.facebook.net";
    "outbrain"; "taboola"; "criteo" ].

(** The handler registered for [*://*/*]; [toLowerCase] is the one of the
    runtime.
<<
    const url = details.url.toLowerCase();
    if (url.includes('/ads/') || ... ) { callback({ cancel: true }); return; }
    callback({});
>> *)
Definition pattern_handler (toLowerCase : string -> string) (url : string) : response :=
  let u := toLowerCase url in
  if existsb (fun fragment => Js.includes fragment u) fragments then Cancel
  else Continue.

End ManualRules.

(* ===================================================================== *)
(** ** loadextention.js: extracting the extension *)
(* ===================================================================== *)

Module ExtensionFiles.
Import Fs.

(** The names directly inside the directory [p]. *)
Definition children (p : path) (fs : fsys) : list string :=
  omap (fun kv => match strip_prefix p kv.1 with
                  | Some [c] => Some c
                  | _ => None
                  end)
       (map_to_list fs).

(** [fs.readdirSync(p)] *)
Definition readdirSync (p : path) (fs : fsys) : errno + list string :=
  match fs !! p with
  | Some Dir => inr (children p fs)
  | Some (File _ _) => inl ENOTDIR
  | None => inl ENOENT
  end.

(** How a call that writes as it goes ends: the error it threw, if any,
    and the file system as it is then. *)
Definition ending : Type := option errno * fsys.

(** The file system a call leaves behind ([fs] when it gives none). *)
Definition left_by {A : Type} (fs : fsys) (r : option (A * fsys)) : fsys :=
  match r with
  | Some (_, f) => f
  | None => fs
  end.

(** One turn of the loop of [copyDirRecursive], for the entry [entry];
    [rec] is the recursive call.  Once a call has thrown, the remaining
    entries are not visited.
<<
    const s = join(src, entry), d = join(dest, entry);
    const stat = fs.statSync(s);
    if (stat.isDirectory()) copyDirRecursive(s, d);
    else if (stat.isFile()) { if (!fs.existsSync(d)) fs.copyFileSync(s, d); }
>> *)
Definition copy_entry (rec : path -> path -> N -> fsys -> option ending)
    (src dest : path) (now : N) (acc : option ending) (entry : string)
    : option ending :=
  match acc with
  | Some (None, f) =>
      let s := src ++ [entry] in
      let d := dest ++ [entry] in
      match f !! s with
      | None => Some (Some ENOENT, f)
      | Some Dir => rec s d now f
      | Some (File _ _) =>
          if existsSync d f then Some (None, f)
          else match copyFileSync s d now f with
               | inl e => Some (Some e, f)
               | inr f' => Some (None, f')
               end
      end
  | stopped => stopped
  end.

(** [copyDirRecursive(src, dest)].  The recursion follows the directory
    tree it is reading while it writes another (and does not end when the
    destination lies inside the source), so it is bounded by [fuel];
    [None] is "out of fuel".
<<
    if (!fs.existsSync(dest)) fs.mkdirSync(dest, { recursive: true });
    for (const entry of fs.readdirSync(src)) { ... }
>> *)
Fixpoint copyDirRecursive (fuel : nat) (src dest : path) (now : N) (fs : fsys)
    : option ending :=
  match fuel with
  | 0 => None
  | S fuel' =>
      match (if existsSync dest fs then inr fs else mkdirSync dest fs) with
      | inl e => Some (Some e, fs)
      | inr fs1 =>
          match readdirSync src fs1 with
          | inl e => Some (Some e, fs1)
          | inr entries =>
              foldl (copy_entry (copyDirRecursive fuel') src dest now)
                    (Some (None, fs1)) entries
          end
      end
  end.

Section extract.
(** [JSON.parse(text).version]: [None] when parsing the text or reading
    the property throws, the [version] property (a string, or [None] for
    [undefined]) otherwise. *)
Context (manifest_version : string -> option (option string)).
(** [app.getAppPath()] and [app.getPath('userData')] *)
Context (appPath userData : path).

Definition EXTENSION_SRC_DIR : path := appPath ++ ["extensions"; "ublock"].
Definition EXTENSION_EXTRACT_BASE : path := userData ++ ["injected-extensions"].
Definition EXTENSION_DIR : path := EXTENSION_EXTRACT_BASE ++ ["ublock"].

(** The inner [try] of [ensureExtensionExtracted]: whether the extracted
    copy is missing its manifest or has another version; a read or parse
    error counts as "copy again". *)
Definition needs_copy (fs : fsys) : bool :=
  let manifestSrc := EXTENSION_SRC_DIR ++ ["manifest.json"] in
  let destManifestPath := EXTENSION_DIR ++ ["manifest.json"] in
  match readFileSync manifestSrc fs with
  | inl _ => true
  | inr srcText =>
      match manifest_version srcText with
      | None => true
      | Some srcVersion =>
          if negb (existsSync destManifestPath fs) then true
          else match readFileSync destManifestPath fs with
               | inl _ => true
               | inr destText =>
                   match manifest_version destText with
                   | None => true
                   | Some destVersion => negb (bool_decide (destVersion = srcVersion))
                   end
               end
      end
  end.

(** [ensureExtensionExtracted()]: the value returned and the file system
    afterwards; [None] when the copy runs out of fuel. *)
Definition ensureExtensionExtracted (fuel : nat) (now : N) (fs : fsys)
    : option (bool * fsys) :=
  if negb (existsSync EXTENSION_SRC_DIR fs) then Some (false, fs)
  else if negb (existsSync (EXTENSION_SRC_DIR ++ ["manifest.json"]) fs) then Some (false, fs)
  else
    let needCopy :=
      if negb (existsSync EXTENSION_DIR fs) then true else needs_copy fs in
    if needCopy then
      match copyDirRecursive fuel EXTENSION_SRC_DIR EXTENSION_DIR now fs with
      | None => None
      | Some (None, fs') => Some (true, fs')
      | Some (Some _, fs') => Some (false, fs')
      end
    else Some (true, fs).

End extract.

End ExtensionFiles.

(** More vocabulary for the wrappers. *)
Module WrapperSpecMore.
Import Electron.

#[global] Instance call_eq_dec : EqDecision call.
Proof. solve_decision. Defined.

(** The engine loads: the load with the cache yields a usable blocker, or
    it rejects or times out and the load without the cache yields one. *)
Definition engine_loads (O : Ghostery.adblock_oracle) : bool :=
  match Ghostery.cache_load O with
  | Ghostery.Loaded b => b
  | _ => match Ghostery.nocache_load O with
         | Ghostery.Loaded b => b
         | _ => false
         end
  end.

(** The calls the original main module gets to make: those before its
    first throw. *)
Fixpoint performed (cs : list call) : list call :=
  match cs with
  | [] => []
  | Raise :: _ => []
  | c :: rest => c :: performed rest
  end.

(** The row a call adds to Electron's table when [app.on] is Electron's
    own. *)
Definition row_of (c : call) : option registration :=
  match c with
  | On ev l | AddListener ev l =>
      Some {| reg_event := ev; reg_once := false; reg_listener := l |}
  | Once ev l => Some {| reg_event := ev; reg_once := true; reg_listener := l |}
  | Raise => None
  end.

(** A call that ends in [app.on('ready', _)]: [app.on('ready', _)] itself
    or [app.once('ready', _)]. *)
Definition reaches_on_ready (c : call) : Prop :=
  match c with
  | On ev _ | Once ev _ => ev = "ready"
  | AddListener _ _ | Raise => False
  end.

#[global] Instance reaches_on_ready_dec c : Decision (reaches_on_ready c).
Proof. destruct c; simpl; apply _. Defined.

End WrapperSpecMore.

(* ===================================================================== *)
(** ** A concrete installation, for evaluating the definitions *)
(* ===================================================================== *)

Module Scenario.
Import Fs Patcher.

(** A Windows host.  The replies typed in this scenario are ASCII, on
    which the [toLowerCase] of every runtime is [Js.ascii_toLowerCase]. *)
Definition e0 : env :=
  {| os_platform := win32;
     os_homedir := ["C:"; "Users"; "u"];
     os_tmpdir := ["C:"; "Users"; "u"; "AppData"; "Local"; "Temp"];
     script_dirname := ["C:"; "DeDeezer"];
     npm_execpath := None;
     pnpm_installed := true;
     yarn_installed := false;
     String_toLowerCase := Js.ascii_toLowerCase |}.

(** A toy archive format: the bytes of an archive are the text of its
    entry script; ["corrupt"] does not extract, ["bare"] holds no entry
    script, and every other archive also holds a [package.json]. *)
Definition toy_extract (bytes : string) : option (list (path * string)) :=
  if bool_decide (bytes = "corrupt") then None
  else if bool_decide (bytes = "bare") then Some [(["README"], "nothing here")]
  else Some [(["build"; "main.js"], bytes); (["package.json"], "{}")].

Definition toy_pack (files : gmap path string) : option string :=
  match files !! ["build"; "main.js"], files !! ["build"; "main.original.js"] with
  | Some wrapper, Some original => Some (wrapper +:+ "#" +:+ original)
  | Some entry, None => Some entry
  | None, _ => None
  end.

Definition T0 : tools :=
  {| asar_extract := fun _ => toy_extract;
     asar_pack := fun _ => toy_pack;
     npm_install := fun _ files =>
       Some (map_to_list files ++ [(["node_modules"; "adblocker"], "lib")]) |}.

(** The same tools with a package manager that always exits non-zero. *)
Definition T_npm_fails : tools :=
  {| asar_extract := fun _ => toy_extract;
     asar_pack := fun _ => toy_pack;
     npm_install := fun _ _ => None |}.

Definition now0 : N := 1699999999999.

Definition this0 : patcher :=
  {| this_platform := win32;
     tempDir := ["C:"; "Users"; "u"; "AppData"; "Local"; "Temp"; "deezer-patch-1699999999999"];
     backupDir := ["C:"; "DeDeezer"; "backups"];
     packageManager := pnpm;
     paths := {| deezerPath := ["C:"; "Users"; "u"; "AppData"; "Local"; "Programs"; "deezer-desktop"];
                 asarFile := "app.asar";
                 executable := "Deezer.exe" |} |}.

Definition resources : path :=
  ["C:"; "Users"; "u"; "AppData"; "Local"; "Programs"; "deezer-desktop"; "resources"].

Definition wrapper_js : path := ["C:"; "DeDeezer"; "decomp"; "build"; "main.js"].

Definition dirs : fsys :=
  mkdir_p ["C:"; "DeDeezer"; "decomp"; "build"] (mkdir_p (os_tmpdir e0) (mkdir_p resources ∅)).

(** An installation whose live archive holds [bytes], with or without a
    backup. *)
Definition install (bytes : string) (backup : option string) : fsys :=
  let base :=
    <[resources ++ ["app.asar"] := File bytes 7%N]>
      (<[wrapper_js := File "wrapper [inject]" 3%N]> dirs) in
  match backup with
  | Some b => <[resources ++ ["app.bak.asar"] := File b 5%N]> base
  | None => base
  end.

Definition boot (f : fsys) (reply : string) : state :=
  {| fs := f;
     clock := 1700000000000%N;
     cmds := [];
     deezer := {| running := true; graceful_kill_works := false; force_kill_works := true |};
     answer := reply;
     useExistingBackup := false |}.

Definition s_fresh : state := boot (install "original" None) "".
Definition s_patched_no_backup : state := boot (install "wrapper [inject]#original" None) "".
Definition s_patched_with_backup : state :=
  boot (install "wrapper [inject]#original" (Some "original")) " Yes ".
Definition s_corrupt : state := boot (install "corrupt" None) "".
Definition s_bare : state := boot (install "bare" None) "".

End Scenario.

(** States of the same installation further along the pipeline. *)
Module ScenarioSteps.
Import Fs Patcher Scenario.

(** After the workspace was created and the live archive extracted. *)
Definition s_extracted : state :=
  ((step2_CreateTempFolder this0;; step3_ExtractAsar T0 this0) s_fresh).2.

(** After the entry script was swapped, the dependencies installed and the
    tree repacked. *)
Definition s_repacked : state :=
  ((step4_RenameMainJs this0;; step5_CopyNewMainJs e0 this0;;
    step6_AddGhosteryDependencies T0 this0;; step7_RepackAsar T0 this0) s_extracted).2.

End ScenarioSteps.

(** An unpacked extension inside the application, for evaluating
    [copyDirRecursive] and [ensureExtensionExtracted]. *)
Module ScenarioExtension.
Import Fs ExtensionFiles.

Definition appPath : path := ["opt"; "deezer"; "resources"; "app.asar"].
Definition userData : path := ["home"; "u"; ".config"; "deezer-desktop"].

(** A toy manifest format: the text of a manifest is its version, and
    the empty text does not parse. *)
Definition toy_version (text : string) : option (option string) :=
  if bool_decide (text = "") then None else Some (Some text).

Definition src_dir : path := EXTENSION_SRC_DIR appPath.
Definition dest_dir : path := EXTENSION_DIR userData.

(** The application with version 1.2 of the extension; nothing extracted. *)
Definition packed : fsys :=
  write_tree src_dir
    [(["manifest.json"], "1.2"); (["js"; "background.js"], "block()");
     (["css"; "ui.css"], "body{}")] 4%N
    (mkdir_p userData ∅).

(** The same with an extracted copy of version 1.1. *)
Definition stale : fsys :=
  write_tree dest_dir [(["manifest.json"], "1.1")] 2%N packed.

Definition copied : fsys := left_by stale (copyDirRecursive 3 src_dir dest_dir 9%N stale).
Definition fresh_copy : fsys := left_by packed (copyDirRecursive 3 src_dir dest_dir 9%N packed).
Definition restarted : fsys :=
  left_by stale (ensureExtensionExtracted toy_version appPath userData 3 9%N stale).
Definition first_start : fsys :=
  left_by packed (ensureExtensionExtracted toy_version appPath userData 3 9%N packed).

End ScenarioExtension.

(* ===================================================================== *)
(** ** Facts about the file-system operations *)
(* ===================================================================== *)

Module FsFacts.
Import Fs.

Lemma related_app (d x p : path) : related (d ++ x) p -> related d p.
Proof.
  intros [H|H].
  - left. by eapply prefix_app_l.
  - destruct (prefix_weak_total d p (d ++ x)) as [?|?];
      [by apply prefix_app_r | done | by left | by right].
Qed.

Lemma related_refl_app (d x : path) : related d (d ++ x).
Proof. left. by apply prefix_app_r. Qed.

Lemma unrelated_app (a b x y : path) : ~ related a b -> ~ related (a ++ x) (b ++ y).
Proof.
  intros Hab Hr. apply related_app in Hr.
  destruct Hr as [H|H].
  - destruct (prefix_weak_total a b (b ++ y)) as [?|?];
      [done | by apply prefix_app_r | apply Hab; by left | apply Hab; by right].
  - apply Hab. right. by eapply prefix_app_l.
Qed.

Lemma ancestors_prefix (q p : path) : q ∈ ancestors p -> q `prefix_of` p.
Proof.
  revert q. induction p as [|c p IH]; simpl; intros q H.
  - by apply elem_of_nil in H.
  - apply elem_of_cons in H as [->|H]; [apply prefix_nil|].
    apply list_elem_of_fmap in H as (q' & -> & H).
    by apply prefix_cons, IH.
Qed.

Lemma ancestors_length (q p : path) : q ∈ ancestors p -> length q < length p.
Proof.
  revert q. induction p as [|c p IH]; simpl; intros q H.
  - by apply elem_of_nil in H.
  - apply elem_of_cons in H as [->|H]; [simpl; lia|].
    apply list_elem_of_fmap in H as (q' & -> & H).
    apply IH in H. simpl. lia.
Qed.

Lemma ancestors_ne (p : path) : p ∉ ancestors p.
Proof. intros H%ancestors_length. lia. Qed.

Lemma ensure_dir_ne (q p : path) (fs : fsys) : p <> q -> ensure_dir q fs !! p = fs !! p.
Proof.
  intros Hne. unfold ensure_dir. destruct (fs !! q); [done|].
  by rewrite lookup_insert_ne.
Qed.

Lemma ensure_dir_keeps (q p : path) (fs : fsys) (n : node) :
  fs !! p = Some n -> ensure_dir q fs !! p = Some n.
Proof.
  intros Hp. unfold ensure_dir. destruct (fs !! q) eqn:Hq; [done|].
  rewrite lookup_insert_ne; [done|]. intros ->. congruence.
Qed.

Lemma ensure_dir_self (q : path) (fs : fsys) : is_Some (ensure_dir q fs !! q).
Proof.
  unfold ensure_dir. destruct (fs !! q) eqn:Hq; [by rewrite Hq|].
  rewrite lookup_insert_eq. by eexists.
Qed.

Lemma ensure_all_ne (l : list path) (p : path) (fs : fsys) :
  p ∉ l -> foldr ensure_dir fs l !! p = fs !! p.
Proof.
  induction l as [|q l IH]; simpl; [done|]. intros Hn.
  apply not_elem_of_cons in Hn as [Hne Hn].
  rewrite ensure_dir_ne; auto.
Qed.

Lemma ensure_all_keeps (l : list path) (p : path) (fs : fsys) (n : node) :
  fs !! p = Some n -> foldr ensure_dir fs l !! p = Some n.
Proof.
  induction l as [|q l IH]; simpl; [done|]. intros Hp.
  by apply ensure_dir_keeps, IH.
Qed.

Lemma mkdir_p_frame (d p : path) (fs : fsys) :
  ~ p `prefix_of` d -> mkdir_p d fs !! p = fs !! p.
Proof.
  intros Hn. unfold mkdir_p. apply ensure_all_ne.
  intros [->|H%ancestors_prefix]%elem_of_cons; by apply Hn.
Qed.

Lemma mkdir_p_keeps (d p : path) (fs : fsys) (n : node) :
  fs !! p = Some n -> mkdir_p d fs !! p = Some n.
Proof. apply ensure_all_keeps. Qed.

Lemma mkdir_p_self (d : path) (fs : fsys) : is_Some (mkdir_p d fs !! d).
Proof. unfold mkdir_p. simpl. apply ensure_dir_self. Qed.

Lemma mkdirSync_frame (d p : path) (fs fs' : fsys) :
  mkdirSync d fs = inr fs' -> ~ p `prefix_of` d -> fs' !! p = fs !! p.
Proof.
  unfold mkdirSync. intros H Hn.
  destruct (existsb _ _); [done|]. destruct (is_file _); [done|].
  injection H as <-. by apply mkdir_p_frame.
Qed.

Lemma mkdirSync_self (d : path) (fs fs' : fsys) :
  mkdirSync d fs = inr fs' -> is_Some (fs' !! d).
Proof.
  unfold mkdirSync. intros H.
  destruct (existsb _ _); [done|]. destruct (is_file _); [done|].
  injection H as ?; subst. apply mkdir_p_self.
Qed.

Lemma rmSync_outside (d p : path) (fs : fsys) :
  ~ d `prefix_of` p -> rmSync d fs !! p = fs !! p.
Proof.
  intros Hn. unfold rmSync. apply option_eq. intros n.
  rewrite map_lookup_filter_Some. simpl. split; [by intros [? _]|by intros ?].
Qed.

Lemma rmSync_inside (d p : path) (fs : fsys) :
  d `prefix_of` p -> rmSync d fs !! p = None.
Proof.
  intros Hp. unfold rmSync. apply map_lookup_filter_None. right.
  intros n _. simpl. tauto.
Qed.

Lemma rmSync_gone (d : path) (fs : fsys) : existsSync d (rmSync d fs) = false.
Proof.
  unfold existsSync. rewrite rmSync_inside; [|done].
  apply bool_decide_eq_false. by intros [? ?].
Qed.

Lemma write_file_frame (d p : path) (c : string) (now : N) (fs : fsys) :
  ~ p `prefix_of` d -> write_file d c now fs !! p = fs !! p.
Proof.
  intros Hn. unfold write_file.
  rewrite lookup_insert_ne; [|by intros ->; apply Hn].
  apply ensure_all_ne. intros H%ancestors_prefix. by apply Hn.
Qed.

Lemma write_file_self (d : path) (c : string) (now : N) (fs : fsys) :
  write_file d c now fs !! d = Some (File c now).
Proof. unfold write_file. by rewrite lookup_insert_eq. Qed.

Lemma write_tree_frame (dst : path) (es : list (path * string)) (now : N) (p : path) (fs : fsys) :
  ~ related dst p -> write_tree dst es now fs !! p = fs !! p.
Proof.
  intros Hn. unfold write_tree.
  transitivity (mkdir_p dst fs !! p).
  - generalize (mkdir_p dst fs). induction es as [|[rel c] es IH]; intros f; simpl; [done|].
    rewrite IH. apply write_file_frame.
    intros Hp. apply Hn. apply (related_app dst rel). by right.
  - apply mkdir_p_frame. intros Hp. apply Hn. by right.
Qed.

Lemma copyFileSync_frame (src dst : path) (now : N) (p : path) (fs fs' : fsys) :
  copyFileSync src dst now fs = inr fs' -> p <> dst -> fs' !! p = fs !! p.
Proof.
  unfold copyFileSync. intros H Hne.
  destruct (fs !! src) as [[c m|]|]; try done.
  destruct (negb _); [done|]. destruct (is_dir _); [done|].
  injection H as <-. by rewrite lookup_insert_ne.
Qed.

Lemma copyFileSync_dst (src dst : path) (now : N) (fs fs' : fsys) :
  copyFileSync src dst now fs = inr fs' ->
  exists c m, fs !! src = Some (File c m) /\ fs' !! dst = Some (File c now).
Proof.
  unfold copyFileSync. intros H.
  destruct (fs !! src) as [[c m|]|]; try done.
  destruct (negb _); [done|]. destruct (is_dir _); [done|].
  injection H as <-. exists c, m. by rewrite lookup_insert_eq.
Qed.

Lemma graft_frame (b : path) (t : list (path * node)) (p : path) (fs : fsys) :
  ~ b `prefix_of` p -> graft b t fs !! p = fs !! p.
Proof.
  intros Hn. unfold graft. induction t as [|[rel n] t IH]; simpl; [done|].
  rewrite lookup_insert_ne; [done|].
  intros <-. apply Hn. by apply prefix_app_r.
Qed.

Lemma renameSync_frame (a b p : path) (fs fs' : fsys) :
  renameSync a b fs = inr fs' ->
  ~ a `prefix_of` p -> ~ b `prefix_of` p -> fs' !! p = fs !! p.
Proof.
  unfold renameSync. intros H Ha Hb.
  destruct (fs !! a) as [[c m|]|]; try done.
  - destruct (negb _); [done|]. destruct (is_dir _); [done|].
    injection H as <-.
    rewrite lookup_insert_ne; [|by intros <-; apply Hb].
    rewrite lookup_delete_ne; [done|by intros <-; apply Ha].
  - destruct (negb _); [done|]. destruct (bool_decide _); [done|].
    destruct (is_file _); [done|]. destruct (is_dir _); [done|].
    injection H as <-. rewrite graft_frame; [|done]. by apply rmSync_outside.
Qed.

End FsFacts.

Module JsFacts.
Import Js.

Lemma prefix_spec (needle hay : string) :
  String.prefix needle hay = true <-> exists post, hay = needle +:+ post.
Proof.
  revert hay. induction needle as [|a needle IH]; intros hay.
  - split; [intros _; by exists hay|by destruct hay].
  - destruct hay as [|b hay]; simpl.
    { split; [done|]. by intros [post Hp]. }
    destruct (Ascii.ascii_dec a b) as [->|Hne].
    + rewrite IH. split; intros [post Hp]; exists post.
      * by rewrite Hp.
      * by injection Hp.
    + split; [done|]. intros [post Hp]. by injection Hp.
Qed.

Lemma includes_unfold (needle hay : string) :
  includes needle hay =
  String.prefix needle hay ||
  match hay with EmptyString => false | String _ rest => includes needle rest end.
Proof. by destruct hay. Qed.

Lemma includes_spec (needle hay : string) :
  includes needle hay = true <-> occurs_in needle hay.
Proof.
  unfold occurs_in. induction hay as [|b hay IH]; rewrite includes_unfold.
  - rewrite orb_false_r, prefix_spec. split.
    + intros [post Hp]. by exists "", post.
    + intros ([|? ?] & post & Hp); [by exists post|done].
  - rewrite orb_true_iff, prefix_spec, IH. split.
    + intros [[post Hp]|(pre & post & Hp)].
      * by exists "", post.
      * exists (String b pre), post. simpl. by rewrite Hp.
    + intros ([|c pre] & post & Hp).
      * left. by exists post.
      * right. exists pre, post. by injection Hp.
Qed.

Lemma includes_false (needle hay : string) :
  includes needle hay = false <-> ~ occurs_in needle hay.
Proof. rewrite <- includes_spec. by destruct (includes needle hay). Qed.

End JsFacts.

(* ===================================================================== *)
(** ** Reasoning about the pipeline *)
(* ===================================================================== *)

Module PatcherFacts.
Import Fs Patcher FsFacts.

(** [always R m]: whatever the outcome of [m], its final state is
    [R]-related to its initial state. *)
Definition always {A} (R : relation state) (m : M A) : Prop :=
  forall s, R s (m s).2.

(** [never_exits m]: [m] does not call [process.exit]. *)
Definition never_exits {A} (m : M A) : Prop :=
  forall s code, (m s).1 <> Exit code.

(** The paths satisfying [P] hold the same node before and after. *)
Definition keeps (P : path -> Prop) : relation state :=
  fun s s' => forall p, P p -> fs s' !! p = fs s !! p.

#[local] Instance keeps_preorder P : PreOrder (keeps P).
Proof.
  split.
  - by intros s p _.
  - intros s1 s2 s3 H12 H23 p Hp. rewrite H23, H12; auto.
Qed.

Lemma bind_Ret_inv {A B} (m : M A) (k : A -> M B) s b s' :
  bind m k s = (Ret b, s') -> exists a s1, m s = (Ret a, s1) /\ k a s1 = (Ret b, s').
Proof. unfold bind. destruct (m s) as [[a|err|code] s1]; intros H; try done. eauto. Qed.

Lemma bind_Exit_inv {A B} (m : M A) (k : A -> M B) s code s' :
  bind m k s = (Exit code, s') ->
  m s = (Exit code, s') \/ exists a s1, m s = (Ret a, s1) /\ k a s1 = (Exit code, s').
Proof. unfold bind. destruct (m s) as [[a|err|c] s1]; intros H; try done; eauto. left. congruence. Qed.

Lemma bind_Ret_step {A B} (m : M A) (k : A -> M B) s a s1 :
  m s = (Ret a, s1) -> bind m k s = k a s1.
Proof. unfold bind. by intros ->. Qed.

Section always.
Context (R : relation state) `{!PreOrder R}.

Lemma always_ret {A} (a : A) : always R (ret a).
Proof. intros s. simpl. reflexivity. Qed.

Lemma always_throw {A} err : always R (@throw A err).
Proof. intros s. simpl. reflexivity. Qed.

Lemma always_exit {A} code : always R (@process_exit A code).
Proof. intros s. simpl. reflexivity. Qed.

Lemma always_gets {A} (f : state -> A) : always R (gets f).
Proof. intros s. simpl. reflexivity. Qed.

Lemma always_bind {A B} (m : M A) (k : A -> M B) :
  always R m -> (forall a, always R (k a)) -> always R (bind m k).
Proof.
  intros Hm Hk s. unfold bind. specialize (Hm s).
  destruct (m s) as [[a|err|code] s1]; simpl in *; [|done..].
  etransitivity; [exact Hm|apply Hk].
Qed.

Lemma always_try {A} (m : M A) (h : error -> M A) :
  always R m -> (forall err, always R (h err)) -> always R (try_catch m h).
Proof.
  intros Hm Hh s. unfold try_catch. specialize (Hm s).
  destruct (m s) as [[a|err|code] s1]; simpl in *; [done| |done].
  etransitivity; [exact Hm|apply Hh].
Qed.

End always.

Lemma always_mono {A} (R R' : relation state) (m : M A) :
  (forall s s', R s s' -> R' s s') -> always R m -> always R' m.
Proof. intros HR Hm s. apply HR, Hm. Qed.

Lemma never_exits_ret {A} (a : A) : never_exits (ret a).
Proof. by intros s code. Qed.

Lemma never_exits_throw {A} err : never_exits (@throw A err).
Proof. by intros s code. Qed.

Lemma never_exits_gets {A} (f : state -> A) : never_exits (gets f).
Proof. by intros s code. Qed.

Lemma never_exits_bind {A B} (m : M A) (k : A -> M B) :
  never_exits m -> (forall a, never_exits (k a)) -> never_exits (bind m k).
Proof.
  intros Hm Hk s code. unfold bind. specialize (Hm s).
  destruct (m s) as [[a|err|c] s1]; simpl in *; [apply Hk|done|].
  by destruct (Hm c).
Qed.

Lemma never_exits_try {A} (m : M A) (h : error -> M A) :
  never_exits m -> (forall err, never_exits (h err)) -> never_exits (try_catch m h).
Proof.
  intros Hm Hh s code. unfold try_catch. specialize (Hm s).
  destruct (m s) as [[a|err|c] s1]; simpl in *; [done|apply Hh|].
  by destruct (Hm c).
Qed.

(** *** The primitives *)

Section primitives.
Context (P : path -> Prop).

Lemma keeps_ret {A} (a : A) : always (keeps P) (ret a).
Proof. apply always_ret, _. Qed.

Lemma keeps_throw {A} err : always (keeps P) (@throw A err).
Proof. apply always_throw, _. Qed.

Lemma keeps_exit {A} code : always (keeps P) (@process_exit A code).
Proof. apply always_exit, _. Qed.

Lemma keeps_gets {A} (f : state -> A) : always (keeps P) (gets f).
Proof. apply always_gets, _. Qed.

Lemma keeps_bind {A B} (m : M A) (k : A -> M B) :
  always (keeps P) m -> (forall a, always (keeps P) (k a)) -> always (keeps P) (bind m k).
Proof. apply always_bind, _. Qed.

Lemma keeps_try {A} (m : M A) (h : error -> M A) :
  always (keeps P) m -> (forall err, always (keeps P) (h err)) ->
  always (keeps P) (try_catch m h).
Proof. apply always_try, _. Qed.

Lemma keeps_lift_fs d op :
  (forall f f' p, op f = inr f' -> P p -> f' !! p = f !! p) ->
  always (keeps P) (lift_fs d op).
Proof.
  intros Hop s. unfold lift_fs. destruct (op (fs s)) as [err|f'] eqn:E; simpl.
  - reflexivity.
  - intros p Hp. simpl. eauto.
Qed.

Lemma keeps_mkdirSync d :
  (forall p, P p -> ~ related d p) -> always (keeps P) (fs_mkdirSync d).
Proof.
  intros HP. apply keeps_lift_fs. intros f f' p Hop Hp.
  eapply mkdirSync_frame; [done|]. intros H. apply (HP p Hp). by right.
Qed.

Lemma keeps_rmSync d :
  (forall p, P p -> ~ related d p) -> always (keeps P) (fs_rmSync d).
Proof.
  intros HP. apply keeps_lift_fs. intros f f' p [= <-] Hp.
  apply rmSync_outside. intros H. apply (HP p Hp). by left.
Qed.

Lemma keeps_renameSync a b :
  (forall p, P p -> ~ related a p) -> (forall p, P p -> ~ related b p) ->
  always (keeps P) (fs_renameSync a b).
Proof.
  intros Ha Hb. apply keeps_lift_fs. intros f f' p Hop Hp.
  eapply renameSync_frame; [done| |].
  - intros H. apply (Ha p Hp). by left.
  - intros H. apply (Hb p Hp). by left.
Qed.

Lemma keeps_copyFileSync src dst :
  (forall p, P p -> p <> dst) -> always (keeps P) (fs_copyFileSync src dst).
Proof.
  intros HP s. unfold fs_copyFileSync, lift_fs.
  destruct (copyFileSync _ _ _ _) as [err|f'] eqn:E; simpl; [reflexivity|].
  intros p Hp. simpl. eapply copyFileSync_frame; eauto.
Qed.

Lemma keeps_readFileSync p : always (keeps P) (fs_readFileSync p).
Proof. intros s. unfold fs_readFileSync. destruct (readFileSync _ _); simpl; reflexivity. Qed.

Lemma keeps_sleep ms : always (keeps P) (sleep ms).
Proof. by intros s p Hp. Qed.

Lemma keeps_set_useExistingBackup b : always (keeps P) (set_useExistingBackup b).
Proof. by intros s p Hp. Qed.

(** What an external command may write: nothing for the process commands,
    and only at paths related to its destination otherwise. *)
Definition command_target (c : command) : option path :=
  match c with
  | Tasklist | Taskkill _ => None
  | AsarExtract _ _ dst => Some dst
  | AsarPack _ _ dst => Some dst
  | NpmInstall _ cwd => Some cwd
  end.

Lemma keeps_execSync T c :
  (forall d p, command_target c = Some d -> P p -> ~ related d p) ->
  always (keeps P) (execSync T c).
Proof.
  intros HP s p Hp. unfold execSync.
  destruct c as [|force|pm src dst|pm src dst|goal cwd]; simpl.
  - by destruct (running _).
  - by destruct (_ && _).
  - destruct (fs s !! src) as [[bytes m|]|]; try done.
    destruct (asar_extract _ _ _); [|done]. simpl.
    apply write_tree_frame. by apply (HP dst).
  - destruct (is_dir _); [|done].
    destruct (asar_pack _ _ _); [|done]. simpl.
    apply write_file_frame. intros H. apply (HP dst p); [done..|by right].
  - destruct (is_dir _); [|done].
    destruct (npm_install _ _ _); [|done]. simpl.
    rewrite write_tree_frame; [|by apply (HP cwd)].
    apply rmSync_outside. intros H. apply (HP cwd p); [done..|by left].
Qed.

End primitives.

Lemma never_exits_lift_fs d op : never_exits (lift_fs d op).
Proof. intros s code. unfold lift_fs. by destruct (op _). Qed.

Lemma never_exits_copyFileSync src dst : never_exits (fs_copyFileSync src dst).
Proof. intros s code. unfold fs_copyFileSync. apply never_exits_lift_fs. Qed.

Lemma never_exits_readFileSync p : never_exits (fs_readFileSync p).
Proof. intros s code. unfold fs_readFileSync. by destruct (readFileSync _ _). Qed.

Lemma never_exits_sleep ms : never_exits (sleep ms).
Proof. by intros s code. Qed.

Lemma never_exits_execSync T c : never_exits (execSync T c).
Proof.
  intros s code. unfold execSync.
  destruct c as [|force|pm src dst|pm src dst|goal cwd]; simpl.
  - by destruct (running _).
  - by destruct (_ && _).
  - destruct (fs s !! src) as [[bytes m|]|]; try done.
    by destruct (asar_extract _ _ _).
  - destruct (is_dir _); [|done]. by destruct (asar_pack _ _ _).
  - destruct (is_dir _); [|done]. by destruct (npm_install _ _ _).
Qed.

(** *** The steps *)

Ltac keeps_structure_with tac :=
  repeat first
    [ tac | apply keeps_ret | apply keeps_throw | apply keeps_exit | apply keeps_gets
    | apply keeps_sleep | apply keeps_set_useExistingBackup | apply keeps_readFileSync
    | apply keeps_bind; [|intros ?] | apply keeps_try; [|intros ?]
    | match goal with |- always _ (if ?b then _ else _) => destruct b end ].

Ltac keeps_structure := keeps_structure_with fail.

Ltac never_exits_structure :=
  repeat first
    [ apply never_exits_ret | apply never_exits_throw | apply never_exits_gets
    | apply never_exits_sleep | apply never_exits_readFileSync
    | apply never_exits_lift_fs | apply never_exits_copyFileSync
    | apply never_exits_execSync
    | apply never_exits_bind; [|intros ?] | apply never_exits_try; [|intros ?]
    | match goal with |- never_exits (if ?b then _ else _) => destruct b end ].

Section steps.
Context (e : env) (T : tools) (this : patcher).
Context (name : string) (Htemp : tempDir this = os_tmpdir e ++ [name]).
Context (P : path -> Prop) (HP : forall p, P p -> ~ related (os_tmpdir e) p).

Lemma scratch_unrelated x p : P p -> ~ related (tempDir this ++ x) p.
Proof.
  intros Hp Hr. apply (HP p Hp). rewrite Htemp in Hr.
  by do 2 apply related_app in Hr.
Qed.

Lemma tempDir_unrelated p : P p -> ~ related (tempDir this) p.
Proof. intros Hp Hr. apply (scratch_unrelated [] p Hp). by rewrite app_nil_r. Qed.

Lemma check_unrelated now x p : P p -> ~ related (tempCheck_at e now ++ x) p.
Proof.
  intros Hp Hr. apply (HP p Hp). unfold tempCheck_at in Hr.
  by do 2 apply related_app in Hr.
Qed.

Lemma tempCheck_unrelated now p : P p -> ~ related (tempCheck_at e now) p.
Proof. intros Hp Hr. apply (check_unrelated now [] p Hp). by rewrite app_nil_r. Qed.

Lemma keeps_step0_KillDeezer : always (keeps P) (step0_KillDeezer T this).
Proof.
  unfold step0_KillDeezer. keeps_structure; apply keeps_execSync; by intros d p [=].
Qed.

Lemma keeps_checkPatchSignature asarPath :
  always (keeps P) (checkPatchSignature e T asarPath).
Proof.
  unfold checkPatchSignature. keeps_structure.
  - apply keeps_mkdirSync. intros p. apply tempCheck_unrelated.
  - apply keeps_execSync. intros d p [= <-]. apply tempCheck_unrelated.
  - apply keeps_rmSync. intros p. apply tempCheck_unrelated.
  - apply keeps_rmSync. intros p. apply tempCheck_unrelated.
Qed.

Lemma keeps_step0_CheckIfPatched :
  always (keeps P) (step0_CheckIfPatched e T this).
Proof.
  unfold step0_CheckIfPatched, askUserConfirmation, fs_existsSync.
  keeps_structure_with ltac:(apply keeps_checkPatchSignature).
Qed.

Lemma keeps_step1_CreateBackup :
  (forall p, P p -> p <> backupFile this) ->
  always (keeps P) (step1_CreateBackup this).
Proof.
  intros Hb. unfold step1_CreateBackup, fs_existsSync. keeps_structure.
  by apply keeps_copyFileSync.
Qed.

Lemma keeps_step2_CreateTempFolder : always (keeps P) (step2_CreateTempFolder this).
Proof.
  unfold step2_CreateTempFolder, fs_existsSync. keeps_structure.
  - apply keeps_rmSync. intros p. apply tempDir_unrelated.
  - apply keeps_mkdirSync. intros p. apply tempDir_unrelated.
Qed.

Lemma keeps_step3_ExtractAsar : always (keeps P) (step3_ExtractAsar T this).
Proof.
  unfold step3_ExtractAsar. keeps_structure.
  apply keeps_execSync. intros d p [= <-]. apply scratch_unrelated.
Qed.

Lemma keeps_step4_RenameMainJs : always (keeps P) (step4_RenameMainJs this).
Proof.
  unfold step4_RenameMainJs, fs_existsSync, extractPath. keeps_structure.
  apply keeps_renameSync; intros p; rewrite <- app_assoc; apply scratch_unrelated.
Qed.

Lemma keeps_step5_CopyNewMainJs : always (keeps P) (step5_CopyNewMainJs e this).
Proof.
  unfold step5_CopyNewMainJs, fs_existsSync, extractPath. keeps_structure.
  apply keeps_copyFileSync. intros p Hp ->.
  apply (scratch_unrelated (["extracted"] ++ ["build"; "main.js"]) _ Hp).
  rewrite app_assoc. by left.
Qed.

Lemma keeps_step6_AddGhosteryDependencies :
  always (keeps P) (step6_AddGhosteryDependencies T this).
Proof.
  unfold step6_AddGhosteryDependencies, fs_existsSync, extractPath. keeps_structure.
  - apply keeps_rmSync. intros p. rewrite <- app_assoc. apply scratch_unrelated.
  - apply keeps_execSync. intros d p [= <-]. apply scratch_unrelated.
  - apply keeps_execSync. intros d p [= <-]. apply scratch_unrelated.
Qed.

Lemma keeps_step7_RepackAsar : always (keeps P) (step7_RepackAsar T this).
Proof.
  unfold step7_RepackAsar. keeps_structure.
  apply keeps_execSync. intros d p [= <-]. apply scratch_unrelated.
Qed.

Lemma keeps_cleanup : always (keeps P) (cleanup this).
Proof.
  unfold cleanup, fs_existsSync. keeps_structure.
  apply keeps_rmSync. intros p. apply tempDir_unrelated.
Qed.

Lemma keeps_step8_CopyBack :
  (forall p, P p -> p <> originalAsar this) ->
  always (keeps P) (step8_CopyBack this).
Proof.
  intros Ho. unfold step8_CopyBack, fs_existsSync.
  keeps_structure_with ltac:(apply keeps_cleanup).
  by apply keeps_copyFileSync.
Qed.

Lemma keeps_steps_before_CopyBack :
  (forall p, P p -> p <> backupFile this) ->
  always (keeps P) (steps_before_CopyBack e T this).
Proof.
  intros Hb. unfold steps_before_CopyBack.
  repeat (apply keeps_bind; [|intros _]).
  - apply keeps_step0_KillDeezer.
  - apply keeps_step0_CheckIfPatched.
  - by apply keeps_step1_CreateBackup.
  - apply keeps_step2_CreateTempFolder.
  - apply keeps_step3_ExtractAsar.
  - apply keeps_step4_RenameMainJs.
  - apply keeps_step5_CopyNewMainJs.
  - apply keeps_step6_AddGhosteryDependencies.
  - apply keeps_step7_RepackAsar.
Qed.

End steps.

End PatcherFacts.

(* ===================================================================== *)
(** ** The pipeline: the specification's claims *)
(* ===================================================================== *)

Module PatcherClaims.
Import Fs Patcher FsFacts JsFacts PatcherFacts.

Lemma constructed_tempDir e now this :
  DeezerPatcher e now = Some this ->
  tempDir this = os_tmpdir e ++ ["deezer-patch-" +:+ pretty now].
Proof. unfold DeezerPatcher. destruct (getPlatformPaths e); [|done]. by intros [= <-]. Qed.

Lemma constructed_asarFile e now this :
  DeezerPatcher e now = Some this -> asarFile (paths this) = "app.asar".
Proof.
  unfold DeezerPatcher, getPlatformPaths.
  destruct (os_platform e); intros [= <-]; done.
Qed.

Lemma live_ne_backup e now this :
  DeezerPatcher e now = Some this -> originalAsar this <> backupFile this.
Proof.
  intros Hc. unfold originalAsar, backupFile. rewrite (constructed_asarFile _ _ _ Hc).
  intros H%app_inv_head. discriminate.
Qed.

Lemma live_unrelated e this :
  ~ related (os_tmpdir e) (deezerPath (paths this)) ->
  ~ related (os_tmpdir e) (originalAsar this).
Proof.
  intros H. unfold originalAsar.
  rewrite <- (app_nil_r (os_tmpdir e)). by apply unrelated_app.
Qed.

Lemma backup_unrelated e this :
  ~ related (os_tmpdir e) (deezerPath (paths this)) ->
  ~ related (os_tmpdir e) (backupFile this).
Proof.
  intros H. unfold backupFile.
  rewrite <- (app_nil_r (os_tmpdir e)). by apply unrelated_app.
Qed.

Lemma cleanup_unfold this s :
  cleanup this s =
  (Ret tt, if existsSync (tempDir this) (fs s)
           then set_fs (rmSync (tempDir this) (fs s)) s else s).
Proof.
  unfold cleanup, bind, fs_existsSync, gets, fs_rmSync, lift_fs.
  by destruct (existsSync _ _).
Qed.

Lemma cleanup_removes this s :
  existsSync (tempDir this) (fs (cleanup this s).2) = false.
Proof.
  rewrite cleanup_unfold. simpl.
  destruct (existsSync (tempDir this) (fs s)) eqn:E; [apply rmSync_gone|done].
Qed.

(** [step8_CopyBack] either returns, or throws without having changed
    anything. *)
Lemma step8_CopyBack_cases this s :
  (exists s', step8_CopyBack this s = (Ret tt, s')) \/
  (exists err, step8_CopyBack this s = (Throw err, s)).
Proof.
  unfold step8_CopyBack, bind, fs_existsSync, gets, fs_copyFileSync, lift_fs.
  destruct (existsSync (newAsarPath this) (fs s)); simpl; [|right; by eexists].
  destruct (copyFileSync _ _ _ _) as [err|f']; [right; by eexists|].
  left. rewrite cleanup_unfold. by eexists.
Qed.

(** How [run] ends, from how the steps end. *)
Lemma run_unfold e T this s :
  run e T this s =
  if decide (this_platform this <> win32) then (Ret tt, s)
  else match steps_before_CopyBack e T this s with
       | (Ret _, s1) =>
           match step8_CopyBack this s1 with
           | (Ret _, s2) => (Ret tt, s2)
           | (Throw _, s2) => (Exit 1, (cleanup this s2).2)
           | (Exit code, s2) => (Exit code, s2)
           end
       | (Throw _, s1) => (Exit 1, (cleanup this s1).2)
       | (Exit code, s1) => (Exit code, s1)
       end.
Proof.
  unfold run, try_catch, pipeline. destruct (decide _); [done|].
  unfold bind at 1.
  destruct (steps_before_CopyBack e T this s) as [[[]|err|code] s1].
  - destruct (step8_CopyBack this s1) as [[[]|err|code] s2]; [done| |done].
    unfold bind. by rewrite cleanup_unfold.
  - unfold bind. by rewrite cleanup_unfold.
  - done.
Qed.

(** C1. No partial replace: everything [run] does before [step8_CopyBack]
    leaves the live archive [<deezerPath>/resources/app.asar] as it was,
    bytes and modification time, whatever the outcome; and whenever [run]
    does not complete (a step threw and the [catch] block exited, or the
    process exited earlier) the live archive is as it was.  The copy in
    [step8_CopyBack] is the only write to it.  The installation and the
    temporary directory of the system are assumed not to be nested in one
    another. *)
Theorem C1_live_archive_untouched_unless_replaced
    (e : env) (T : tools) (now : N) (this : patcher) (s : state) :
  DeezerPatcher e now = Some this ->
  ~ related (os_tmpdir e) (deezerPath (paths this)) ->
  fs (steps_before_CopyBack e T this s).2 !! originalAsar this
    = fs s !! originalAsar this
  /\ ((run e T this s).1 <> Ret tt ->
      fs (run e T this s).2 !! originalAsar this = fs s !! originalAsar this).
Proof.
  intros Hc Hsep.
  pose proof (constructed_tempDir _ _ _ Hc) as Htemp.
  pose proof (live_ne_backup _ _ _ Hc) as Hne.
  pose proof (live_unrelated _ _ Hsep) as Hlive.
  set (P := fun p : path => p = originalAsar this).
  assert (HP : forall p, P p -> ~ related (os_tmpdir e) p) by (by intros p ->).
  assert (Hb : forall p, P p -> p <> backupFile this) by (by intros p ->).
  pose proof (keeps_steps_before_CopyBack e T this _ Htemp P HP Hb s _ eq_refl) as Hbefore.
  pose proof (fun s1 => keeps_cleanup e this _ Htemp P HP s1 _ eq_refl) as Hclean.
  split; [done|].
  rewrite run_unfold. destruct (decide _); [done|].
  destruct (steps_before_CopyBack e T this s) as [[[]|err|code] s1]; simpl in Hbefore.
  - destruct (step8_CopyBack_cases this s1) as [[s' ->]|[err ->]]; [done|].
    intros _. cbn [fst snd]. by rewrite Hclean.
  - intros _. cbn [fst snd]. by rewrite Hclean.
  - done.
Qed.

Lemma C1_witness :
  (run Scenario.e0 Scenario.T_npm_fails Scenario.this0 Scenario.s_fresh).1 = Exit 1 /\
  fs (run Scenario.e0 Scenario.T_npm_fails Scenario.this0 Scenario.s_fresh).2
    !! originalAsar Scenario.this0
  = Some (File "original" 7%N).
Proof.
  split; [by vm_compute|].
  transitivity (fs Scenario.s_fresh !! originalAsar Scenario.this0); [|by vm_compute].
  apply (C1_live_archive_untouched_unless_replaced
           Scenario.e0 Scenario.T_npm_fails Scenario.now0 Scenario.this0 Scenario.s_fresh).
  - reflexivity.
  - apply (bool_decide_unpack _). by vm_compute.
  - by vm_compute.
Defined.

(** *** The patch detector *)

Lemma Ret_eta {A} (m : M A) (s : state) (a : A) :
  (m s).1 = Ret a -> m s = (Ret a, (m s).2).
Proof. destruct (m s) as [o s']. simpl. by intros ->. Defined.

(** [checkPatchSignature], path by path. *)
Lemma checkPatchSignature_unfold e T asarPath s :
  checkPatchSignature e T asarPath s =
  let tempCheck := tempCheck_at e (clock s) in
  match mkdirSync tempCheck (fs s) with
  | inl _ => (Ret false, s)
  | inr f1 =>
      match execSync T (AsarExtract npm asarPath tempCheck) (set_fs f1 s) with
      | (Ret _, s2) =>
          match fs s2 !! (tempCheck ++ ["build"; "main.js"]) with
          | Some (File content _) =>
              (Ret (has_signature content), set_fs (rmSync tempCheck (fs s2)) s2)
          | Some Dir => (Ret false, s2)
          | None => (Ret false, set_fs (rmSync tempCheck (fs s2)) s2)
          end
      | (Throw _, s2) => (Ret false, s2)
      | (Exit code, s2) => (Exit code, s2)
      end
  end.
Proof.
  unfold checkPatchSignature, try_catch, Date_now. unfold bind at 1. unfold gets at 1.
  cbv zeta. unfold bind at 1. unfold fs_mkdirSync at 1, lift_fs at 1.
  destruct (mkdirSync _ _) as [err|f1]; [reflexivity|].
  unfold bind at 1.
  destruct (execSync _ _ _) as [[[]|err|code] s2]; [|reflexivity..].
  unfold bind at 1, fs_existsSync at 1, gets at 1, existsSync.
  destruct (fs s2 !! _) as [[content m|]|] eqn:E.
  - rewrite bool_decide_eq_true_2 by eauto.
    unfold bind at 1, fs_readFileSync, readFileSync. rewrite E. reflexivity.
  - rewrite bool_decide_eq_true_2 by eauto.
    unfold bind at 1, fs_readFileSync, readFileSync. rewrite E. reflexivity.
  - rewrite bool_decide_eq_false_2 by (by intros [? ?]). reflexivity.
Qed.

Lemma checkPatchSignature_total e T asarPath s :
  exists verdict, (checkPatchSignature e T asarPath s).1 = Ret verdict.
Proof.
  rewrite checkPatchSignature_unfold. cbv zeta.
  destruct (mkdirSync _ _) as [|f1]; [by eexists|].
  pose proof (never_exits_execSync T
    (AsarExtract npm asarPath (tempCheck_at e (clock s))) (set_fs f1 s)) as Hne.
  destruct (execSync _ _ _) as [[[]|?|code] s2]; [|by eexists|by destruct (Hne code)].
  destruct (fs s2 !! _) as [[? ?|]|]; by eexists.
Qed.

Lemma has_signature_spec content :
  has_signature content = true <->
  Js.occurs_in "DZ_DEVTOOLS" content \/ Js.occurs_in "[inject]" content.
Proof. unfold has_signature. by rewrite orb_true_iff, !includes_spec. Qed.

(** C2. Detection: once the archive has been extracted into the throwaway
    directory, [checkPatchSignature] returns [true] when the extracted
    [build/main.js] contains one of the markers of the injection wrapper
    ([DZ_DEVTOOLS] or [[inject]]), returns [false] when it contains neither,
    and returns [false], without throwing, when there is no [build/main.js]
    in the extracted tree. *)
Theorem C2_detector_verdict
    (e : env) (T : tools) (asarPath : path) (s s1 s2 : state) :
  let tempCheck := tempCheck_at e (clock s) in
  let entry := fs s2 !! (tempCheck ++ ["build"; "main.js"]) in
  let verdict := (checkPatchSignature e T asarPath s).1 in
  fs_mkdirSync tempCheck s = (Ret tt, s1) ->
  execSync T (AsarExtract npm asarPath tempCheck) s1 = (Ret tt, s2) ->
  (forall content mtime, entry = Some (File content mtime) ->
     ((Js.occurs_in "DZ_DEVTOOLS" content \/ Js.occurs_in "[inject]" content) ->
        verdict = Ret true) /\
     (~ (Js.occurs_in "DZ_DEVTOOLS" content \/ Js.occurs_in "[inject]" content) ->
        verdict = Ret false)) /\
  (entry = None -> verdict = Ret false).
Proof.
  intros tempCheck entry verdict Hmk Hex.
  subst verdict. rewrite checkPatchSignature_unfold. cbv zeta. fold tempCheck.
  unfold fs_mkdirSync, lift_fs in Hmk.
  destruct (mkdirSync tempCheck (fs s)) as [err|f1]; [done|].
  injection Hmk as <-. rewrite Hex. fold entry.
  split.
  - intros content mtime ->. cbn [fst]. rewrite <- has_signature_spec.
    destruct (has_signature content); split; intros H; try done.
    all: exfalso; intuition congruence.
  - by intros ->.
Qed.

Lemma C2_witness :
  (checkPatchSignature Scenario.e0 Scenario.T0 (originalAsar Scenario.this0)
     Scenario.s_patched_no_backup).1 = Ret true.
Proof.
  set (s := Scenario.s_patched_no_backup).
  set (tempCheck := tempCheck_at Scenario.e0 (clock s)).
  set (s1 := (fs_mkdirSync tempCheck s).2).
  set (s2 := (execSync Scenario.T0 (AsarExtract npm (originalAsar Scenario.this0) tempCheck) s1).2).
  refine (proj1 (proj1 (C2_detector_verdict Scenario.e0 Scenario.T0
                   (originalAsar Scenario.this0) s s1 s2 _ _)
                   "wrapper [inject]#original" 1700000000001%N _) _).
  - refine (Ret_eta _ _ _ _). vm_compute. reflexivity.
  - refine (Ret_eta _ _ _ _). vm_compute. reflexivity.
  - vm_compute. reflexivity.
  - right. by exists "wrapper ", "#original".
Defined.

(** On the paths where the extraction went through and [build/main.js] is
    a regular file or is missing, the throwaway directory is removed. *)
Lemma checkPatchSignature_cleans_up e T asarPath s s1 s2 :
  let tempCheck := tempCheck_at e (clock s) in
  fs_mkdirSync tempCheck s = (Ret tt, s1) ->
  execSync T (AsarExtract npm asarPath tempCheck) s1 = (Ret tt, s2) ->
  is_dir (fs s2 !! (tempCheck ++ ["build"; "main.js"])) = false ->
  existsSync tempCheck (fs (checkPatchSignature e T asarPath s).2) = false.
Proof.
  intros tempCheck Hmk Hex Hnd.
  rewrite checkPatchSignature_unfold. cbv zeta. fold tempCheck.
  unfold fs_mkdirSync, lift_fs in Hmk.
  destruct (mkdirSync tempCheck (fs s)) as [err|f1]; [done|].
  injection Hmk as <-. rewrite Hex.
  destruct (fs s2 !! _) as [[content m|]|]; [|done|]; apply rmSync_gone.
Qed.

(** On the path through the [catch] block the throwaway directory, once
    created, stays: the block returns [false] and removes nothing. *)
Lemma checkPatchSignature_leaks_on_error e T asarPath s s1 err s2 :
  let tempCheck := tempCheck_at e (clock s) in
  fs_mkdirSync tempCheck s = (Ret tt, s1) ->
  execSync T (AsarExtract npm asarPath tempCheck) s1 = (Throw err, s2) ->
  (checkPatchSignature e T asarPath s).1 = Ret false /\
  existsSync tempCheck (fs (checkPatchSignature e T asarPath s).2) = true.
Proof.
  intros tempCheck Hmk Hex.
  rewrite checkPatchSignature_unfold. cbv zeta. fold tempCheck.
  unfold fs_mkdirSync, lift_fs in Hmk.
  destruct (mkdirSync tempCheck (fs s)) as [e1|f1] eqn:Hm; [done|].
  injection Hmk as <-. rewrite Hex. split; [done|]. cbn [snd].
  apply mkdirSync_self in Hm.
  unfold execSync in Hex. simpl in Hex.
  destruct (f1 !! asarPath) as [[bytes m|]|];
    [destruct (asar_extract T npm bytes); [done|]|..];
    injection Hex as _ <-; by apply bool_decide_eq_true_2.
Qed.

(** C3 (the code departs from the claim).  The live archive of this
    installation does not extract (the command exits non-zero).
    [checkPatchSignature] creates its throwaway directory, the extraction
    throws, the [catch] block returns [false], and the directory, which
    did not exist before the call, exists after it. *)
Theorem C3_check_dir_left_behind_on_extract_error :
  let s := Scenario.s_corrupt in
  let tempCheck := tempCheck_at Scenario.e0 (clock s) in
  let r := checkPatchSignature Scenario.e0 Scenario.T0 (originalAsar Scenario.this0) s in
  existsSync tempCheck (fs s) = false /\
  r.1 = Ret false /\
  existsSync tempCheck (fs r.2) = true.
Proof. by vm_compute. Qed.

(** *** The backup *)

(** Whatever preorder the steps and [cleanup] respect, [run] respects. *)
Lemma always_run (R : relation state) `{!PreOrder R} e T this :
  always R (steps_before_CopyBack e T this) ->
  always R (step8_CopyBack this) ->
  always R (cleanup this) ->
  always R (run e T this).
Proof.
  intros Hb H8 Hc. unfold run, pipeline. apply always_try; [done| |].
  - destruct (decide _); [by apply always_ret|].
    apply always_bind; auto.
  - intros _. apply always_bind; [done..|]. intros _. by apply always_exit.
Qed.

(** An existing backup stays as it is. *)
Definition backup_stays (this : patcher) : relation state :=
  fun s s' =>
    is_Some (fs s !! backupFile this) ->
    fs s' !! backupFile this = fs s !! backupFile this.

#[local] Instance backup_stays_preorder this : PreOrder (backup_stays this).
Proof.
  split.
  - by intros s _.
  - intros s1 s2 s3 H12 H23 Hs. rewrite H23; [by apply H12|].
    rewrite H12; done.
Qed.

Lemma step1_CreateBackup_unfold this s :
  step1_CreateBackup this s =
  if negb (existsSync (originalAsar this) (fs s))
  then (Throw (AsarNotFound (originalAsar this)), s)
  else if existsSync (backupFile this) (fs s) && negb (useExistingBackup s)
  then (Ret tt, s)
  else if useExistingBackup s then (Ret tt, s)
  else fs_copyFileSync (originalAsar this) (backupFile this) s.
Proof.
  unfold step1_CreateBackup, bind, fs_existsSync, gets.
  destruct (existsSync (originalAsar this) (fs s)); [|done]. simpl.
  destruct (existsSync (backupFile this) (fs s)), (useExistingBackup s); done.
Qed.

Lemma step1_keeps_existing_backup this s :
  is_Some (fs s !! backupFile this) -> (step1_CreateBackup this s).2 = s.
Proof.
  intros Hb. rewrite step1_CreateBackup_unfold.
  destruct (negb _); [done|].
  unfold existsSync at 1. rewrite bool_decide_eq_true_2 by done.
  by destruct (useExistingBackup s).
Qed.

(** C4. The backup is made once.  With the reuse flag not set and a
    backup present at [<resources>/app.bak.asar], [step1_CreateBackup]
    changes nothing at all, and a whole later [run] leaves the backup
    with the bytes and the modification time it had.  Running the step a
    second time after it returned is a no-op: the step is idempotent. *)
Theorem C4_backup_created_once
    (e : env) (T : tools) (now : N) (this : patcher) (s : state) :
  DeezerPatcher e now = Some this ->
  ~ related (os_tmpdir e) (deezerPath (paths this)) ->
  useExistingBackup s = false ->
  (is_Some (fs s !! backupFile this) ->
     (step1_CreateBackup this s).2 = s /\
     fs (run e T this s).2 !! backupFile this = fs s !! backupFile this) /\
  (forall s1, step1_CreateBackup this s = (Ret tt, s1) ->
     step1_CreateBackup this s1 = (Ret tt, s1)).
Proof.
  intros Hc Hsep Hflag.
  pose proof (constructed_tempDir _ _ _ Hc) as Htemp.
  pose proof (live_ne_backup _ _ _ Hc) as Hne.
  pose proof (backup_unrelated _ _ Hsep) as Hbk.
  split.
  - intros Hb. split; [by apply step1_keeps_existing_backup|].
    set (P := fun p : path => p = backupFile this).
    assert (HP : forall p, P p -> ~ related (os_tmpdir e) p) by (by intros p ->).
    assert (Hmono : forall s1 s2, keeps P s1 s2 -> backup_stays this s1 s2).
    { intros s1 s2 Hk _. by apply Hk. }
    assert (Hrun : always (backup_stays this) (run e T this)); [|by apply Hrun].
    apply always_run; [apply _| | |].
    + unfold steps_before_CopyBack.
      repeat (apply always_bind; [apply _| |intros _]).
      3: { intros s1 Hs1. by rewrite step1_keeps_existing_backup. }
      all: eapply always_mono; [exact Hmono|].
      * apply keeps_step0_KillDeezer.
      * eapply keeps_step0_CheckIfPatched; eauto.
      * eapply keeps_step2_CreateTempFolder; eauto.
      * eapply keeps_step3_ExtractAsar; eauto.
      * eapply keeps_step4_RenameMainJs; eauto.
      * eapply keeps_step5_CopyNewMainJs; eauto.
      * eapply keeps_step6_AddGhosteryDependencies; eauto.
      * eapply keeps_step7_RepackAsar; eauto.
    + eapply always_mono; [exact Hmono|].
      eapply keeps_step8_CopyBack; eauto. by intros p ->.
    + eapply always_mono; [exact Hmono|].
      eapply keeps_cleanup; eauto.
  - intros s1. rewrite !step1_CreateBackup_unfold, Hflag.
    destruct (existsSync (originalAsar this) (fs s)) eqn:Eo; [|done].
    destruct (existsSync (backupFile this) (fs s)) eqn:Eb; simpl.
    { intros [= <-]. by rewrite Eo, Eb, Hflag. }
    unfold fs_copyFileSync, lift_fs.
    destruct (copyFileSync _ _ _ _) as [err|f'] eqn:Ecp; [done|].
    intros [= <-]. simpl.
    pose proof (copyFileSync_frame _ _ _ (originalAsar this) _ _ Ecp Hne) as Hl.
    destruct (copyFileSync_dst _ _ _ _ _ Ecp) as (c & m & Hsrc & Hdst).
    unfold existsSync. rewrite Hl, Hdst, Hsrc.
    rewrite !bool_decide_eq_true_2 by eauto. by rewrite Hflag.
Qed.

Lemma C4_witness :
  fs (run Scenario.e0 Scenario.T0 Scenario.this0 Scenario.s_patched_with_backup).2
    !! backupFile Scenario.this0
  = Some (File "original" 5%N).
Proof.
  transitivity (fs Scenario.s_patched_with_backup !! backupFile Scenario.this0);
    [|by vm_compute].
  apply (C4_backup_created_once Scenario.e0 Scenario.T0 Scenario.now0 Scenario.this0
           Scenario.s_patched_with_backup).
  - reflexivity.
  - apply (bool_decide_unpack _). by vm_compute.
  - reflexivity.
  - vm_compute. by eexists.
Defined.

(** *** The extraction *)

Lemma step0_CheckIfPatched_unfold e T this s :
  step0_CheckIfPatched e T this s =
  if negb (existsSync (originalAsar this) (fs s))
  then (Throw (AsarNotFound (originalAsar this)), s)
  else match checkPatchSignature e T (originalAsar this) s with
       | (Ret true, s2) =>
           if existsSync (backupFile this) (fs s2) then
             if (askUserConfirmation e s2).1 is Ret true
             then set_useExistingBackup true s2
             else (Exit 0, s2)
           else (Exit 1, s2)
       | (Ret false, s2) => (Ret tt, s2)
       | (Throw err, s2) => (Throw err, s2)
       | (Exit code, s2) => (Exit code, s2)
       end.
Proof.
  unfold step0_CheckIfPatched. unfold bind at 1, fs_existsSync at 1, gets at 1.
  destruct (existsSync (originalAsar this) (fs s)); [|done]. simpl.
  unfold bind at 1.
  destruct (checkPatchSignature e T (originalAsar this) s) as [[[]|err|code] s2]; try done.
  unfold bind at 1, fs_existsSync at 1, gets at 1.
  destruct (existsSync (backupFile this) (fs s2)); [|done].
  unfold bind, askUserConfirmation, gets. simpl.
  by destruct (_ || _).
Qed.

(** A positive detection that lets the pipeline go on has set the reuse
    flag: the run is a re-patch. *)
Lemma repatch_sets_flag e T this s s' :
  (checkPatchSignature e T (originalAsar this) s).1 = Ret true ->
  step0_CheckIfPatched e T this s = (Ret tt, s') ->
  useExistingBackup s' = true.
Proof.
  intros Hd. rewrite step0_CheckIfPatched_unfold.
  destruct (negb _); [done|].
  destruct (checkPatchSignature e T (originalAsar this) s) as [[[]|err|code] s2];
    simpl in Hd; try done.
  destruct (existsSync _ _); [|done].
  destruct (askUserConfirmation e s2).1 as [[]| |]; try done.
  by intros [= <-].
Qed.

(** C5. The source of the extraction.  [step3_ExtractAsar] runs exactly
    one command, the extraction into [<tempDir>/extracted] of the backup
    [<resources>/app.bak.asar] when [useExistingBackup] is set and of the
    live archive [<resources>/app.asar] otherwise; when that file is there
    and extracts, the workspace receives its files, and nothing else is
    read.  With the flag set, the command does not name the live archive. *)
Theorem C5_extraction_source (T : tools) (this : patcher) (s : state) :
  let src := if useExistingBackup s then backupFile this else originalAsar this in
  let cmd := AsarExtract (packageManager this) src (extractPath this) in
  let r := step3_ExtractAsar T this s in
  cmds r.2 = cmds s ++ [cmd] /\
  match fs s !! src with
  | Some (File bytes _) =>
      match asar_extract T (packageManager this) bytes with
      | Some es =>
          r.1 = Ret tt /\
          fs r.2 = write_tree (extractPath this) es (clock s + 1) (fs s)
      | None => r.1 = Throw (CommandFailed cmd) /\ fs r.2 = fs s
      end
  | _ => r.1 = Throw (CommandFailed cmd) /\ fs r.2 = fs s
  end.
Proof.
  intros src cmd r. subst r. unfold step3_ExtractAsar, bind, gets. fold src. fold cmd.
  unfold execSync, cmd. simpl.
  destruct (fs s !! src) as [[bytes m|]|]; [|done..].
  by destruct (asar_extract T (packageManager this) bytes).
Qed.

(** In a re-patch the source is the backup, whatever the live archive
    holds. *)
Corollary repatch_extracts_backup T this s :
  useExistingBackup s = true ->
  cmds (step3_ExtractAsar T this s).2 =
    cmds s ++ [AsarExtract (packageManager this) (backupFile this) (extractPath this)].
Proof. intros H. pose proof (C5_extraction_source T this s) as [Hc _]. by rewrite H in Hc. Qed.

(** *** The dependency step *)

Lemma step6_unfold T this s :
  step6_AddGhosteryDependencies T this s =
  let nodeModulesPath := extractPath this ++ ["node_modules"] in
  let s1 := if existsSync nodeModulesPath (fs s)
            then set_fs (rmSync nodeModulesPath (fs s)) s else s in
  if existsSync (extractPath this ++ ["package.json"]) (fs s1)
  then (execSync T (NpmInstall SaveGhostery (extractPath this));;
        execSync T (NpmInstall Production (extractPath this))) s1
  else (Ret tt, s1).
Proof.
  unfold step6_AddGhosteryDependencies. cbv zeta.
  unfold bind at 1, fs_existsSync at 1, gets at 1.
  destruct (existsSync (extractPath this ++ ["node_modules"]) (fs s)).
  - unfold bind at 1, fs_rmSync at 1, lift_fs at 1.
    unfold bind at 1, fs_existsSync at 1, gets at 1.
    by destruct (existsSync _ _).
  - unfold bind at 1, ret at 1.
    unfold bind at 1, fs_existsSync at 1, gets at 1.
    by destruct (existsSync _ _).
Qed.

Lemma package_json_outside_node_modules this :
  ~ (extractPath this ++ ["node_modules"]) `prefix_of` (extractPath this ++ ["package.json"]).
Proof. intros H%prefix_app_inv. apply prefix_cons_inv_1 in H. discriminate H. Qed.

(** C9. Without a [package.json] in the extracted tree,
    [step6_AddGhosteryDependencies] returns normally, runs no command at
    all (so no package-manager install), has removed [node_modules] and
    what is below it and touched nothing else, and whatever follows it in
    the pipeline runs next; the repack command is then the next command
    of the log. *)
Theorem C9_no_package_json_skips_install
    (T : tools) (this : patcher) (s : state) :
  existsSync (extractPath this ++ ["package.json"]) (fs s) = false ->
  let r := step6_AddGhosteryDependencies T this s in
  r.1 = Ret tt /\
  cmds r.2 = cmds s /\
  existsSync (extractPath this ++ ["node_modules"]) (fs r.2) = false /\
  (forall p, ~ (extractPath this ++ ["node_modules"]) `prefix_of` p ->
     fs r.2 !! p = fs s !! p) /\
  (forall (k : M unit), (step6_AddGhosteryDependencies T this;; k) s = k r.2) /\
  cmds ((step6_AddGhosteryDependencies T this;; step7_RepackAsar T this) s).2 =
    cmds s ++ [AsarPack (packageManager this) (extractPath this) (newAsarPath this)].
Proof.
  intros Hpj r.
  assert (Hr : r = (Ret tt,
            if existsSync (extractPath this ++ ["node_modules"]) (fs s)
            then set_fs (rmSync (extractPath this ++ ["node_modules"]) (fs s)) s
            else s)).
  { subst r. rewrite step6_unfold. cbv zeta.
    destruct (existsSync (extractPath this ++ ["node_modules"]) (fs s)) eqn:Enm.
    - unfold existsSync in *. cbn [fs set_fs].
      rewrite rmSync_outside by apply package_json_outside_node_modules.
      by rewrite Hpj.
    - by rewrite Hpj. }
  assert (Hcmds : cmds r.2 = cmds s).
  { rewrite Hr. cbn [snd].
    destruct (existsSync (extractPath this ++ ["node_modules"]) (fs s)); reflexivity. }
  repeat split.
  - by rewrite Hr.
  - done.
  - rewrite Hr. cbn [snd].
    destruct (existsSync (extractPath this ++ ["node_modules"]) (fs s)) eqn:E;
      [apply rmSync_gone|done].
  - intros p Hp. rewrite Hr. cbn [snd].
    destruct (existsSync (extractPath this ++ ["node_modules"]) (fs s));
      [by apply rmSync_outside|done].
  - intros k. unfold bind. fold r. by rewrite Hr.
  - unfold bind. fold r. rewrite <- Hcmds.
    assert (Hr1 : r.1 = Ret tt) by (by rewrite Hr).
    destruct r as [o s1]. cbn [fst snd] in *. subst o.
    unfold step7_RepackAsar, execSync. cbv zeta.
    destruct (is_dir _); [|reflexivity]. destruct (asar_pack _ _ _); reflexivity.
Qed.

Lemma C9_witness :
  (step6_AddGhosteryDependencies Scenario.T0 Scenario.this0 Scenario.s_fresh).1 = Ret tt.
Proof.
  apply (C9_no_package_json_skips_install Scenario.T0 Scenario.this0 Scenario.s_fresh).
  vm_compute. reflexivity.
Defined.

(** *** Refusing to patch twice *)

Lemma step0_KillDeezer_unfold T this s :
  step0_KillDeezer T this s =
  (Ret tt,
   if decide (this_platform this = win32) then
     let s1 := log_cmd Tasklist s in
     if running (deezer s1) then
       let s2 := log_cmd (Taskkill false) s1 in
       if running (deezer s2) && graceful_kill_works (deezer s2)
       then elapse 2000 (set_running false s2)
       else
         let s3 := log_cmd (Taskkill true) s2 in
         if running (deezer s3) && force_kill_works (deezer s3)
         then elapse 2000 (set_running false s3)
         else s3
     else s1
   else s).
Proof.
  unfold step0_KillDeezer, try_catch. destruct (decide _); [|done].
  unfold bind at 1. unfold execSync at 1. cbv zeta.
  destruct (running (deezer (log_cmd Tasklist s))) eqn:Erun; [|done].
  unfold bind at 1. unfold execSync at 1. cbv zeta.
  destruct (running _ && graceful_kill_works _) eqn:Eg; [done|].
  unfold execSync. cbv zeta.
  by destruct (running _ && force_kill_works _) eqn:Ef.
Qed.

Lemma step0_KillDeezer_fs T this s : fs (step0_KillDeezer T this s).2 = fs s.
Proof.
  rewrite step0_KillDeezer_unfold. cbn [snd]. cbv zeta.
  repeat (match goal with |- context [if ?b then _ else _] => destruct b end); done.
Qed.

Lemma ensure_dir_file_inv (q p : path) (f : fsys) c m :
  ensure_dir q f !! p = Some (File c m) -> f !! p = Some (File c m).
Proof.
  unfold ensure_dir. destruct (f !! q) eqn:Hq; [done|].
  destruct (decide (p = q)) as [->|Hne].
  - by rewrite lookup_insert_eq.
  - by rewrite lookup_insert_ne.
Qed.

Lemma mkdirSync_file_inv (d p : path) (f f' : fsys) c m :
  mkdirSync d f = inr f' -> f' !! p = Some (File c m) -> f !! p = Some (File c m).
Proof.
  unfold mkdirSync. destruct (existsb _ _); [done|]. destruct (is_file _); [done|].
  intros [= <-]. unfold mkdir_p. generalize (d :: ancestors d).
  intros l. induction l as [|q l IH]; simpl; [done|].
  intros H%ensure_dir_file_inv. by apply IH.
Qed.

(** What [checkPatchSignature] may change: only paths related to its
    throwaway directory. *)
Lemma checkPatchSignature_frame e T asarPath s p :
  ~ related (tempCheck_at e (clock s)) p ->
  fs (checkPatchSignature e T asarPath s).2 !! p = fs s !! p.
Proof.
  intros Hp. rewrite checkPatchSignature_unfold. cbv zeta.
  destruct (mkdirSync _ _) as [err|f1] eqn:Hm; [done|].
  assert (Hf1 : f1 !! p = fs s !! p).
  { eapply mkdirSync_frame; [done|]. intros H. apply Hp. by right. }
  assert (Hk : fs (execSync T (AsarExtract npm asarPath (tempCheck_at e (clock s)))
                     (set_fs f1 s)).2 !! p = f1 !! p).
  { apply (keeps_execSync (fun q => q = p) T
             (AsarExtract npm asarPath (tempCheck_at e (clock s)))); [|done].
    intros d q [= <-] ->. done. }
  destruct (execSync _ _ _) as [[[]|err|code] s2]; cbn [snd] in *.
  2,3: congruence.
  assert (Hrm : rmSync (tempCheck_at e (clock s)) (fs s2) !! p = fs s !! p).
  { rewrite rmSync_outside; [congruence|]. intros H. apply Hp. by left. }
  destruct (fs s2 !! (_ ++ _)) as [[c m|]|]; simpl; congruence.
Qed.

Lemma execSync_AsarExtract T pm src dst s :
  execSync T (AsarExtract pm src dst) s =
  let cmd := AsarExtract pm src dst in
  match fs s !! src with
  | Some (File bytes _) =>
      match asar_extract T pm bytes with
      | Some es =>
          (Ret tt, set_fs (write_tree dst es (clock s + 1) (fs s)) (log_cmd cmd s))
      | None => (Throw (CommandFailed cmd), log_cmd cmd s)
      end
  | _ => (Throw (CommandFailed cmd), log_cmd cmd s)
  end.
Proof. reflexivity. Qed.

(** The log after [checkPatchSignature] returned [true]: one command, the
    throwaway extraction. *)
Lemma checkPatchSignature_true e T asarPath s :
  (checkPatchSignature e T asarPath s).1 = Ret true ->
  is_file (fs s !! asarPath) = true /\
  cmds (checkPatchSignature e T asarPath s).2 =
    cmds s ++ [AsarExtract npm asarPath (tempCheck_at e (clock s))].
Proof.
  rewrite checkPatchSignature_unfold. cbv zeta.
  destruct (mkdirSync _ _) as [err|f1] eqn:Hm; [done|].
  rewrite execSync_AsarExtract. cbv zeta.
  change (fs (set_fs f1 s)) with f1.
  destruct (f1 !! asarPath) as [[bytes m|]|] eqn:Ha; [|done..].
  apply (mkdirSync_file_inv _ _ _ _ _ _ Hm) in Ha. rewrite Ha.
  destruct (asar_extract T npm bytes); [|done].
  destruct (fs _ !! (_ ++ _)) as [[c m'|]|]; done.
Qed.

Lemma siblings_unrelated (d : path) (a b : string) (x : path) :
  a <> b -> ~ related (d ++ [a]) ((d ++ [b]) ++ x).
Proof.
  intros Hne [H|H].
  - rewrite <- app_assoc in H. apply prefix_app_inv in H.
    apply prefix_cons_inv_1 in H. done.
  - rewrite <- app_assoc in H. apply prefix_app_inv in H.
    apply prefix_cons_inv_1 in H. done.
Qed.

Lemma check_name_ne_patch_name (t now : N) :
  "deezer-check-" +:+ pretty t <> "deezer-patch-" +:+ pretty now.
Proof. simpl. intros H. discriminate H. Qed.

Lemma step0_KillDeezer_Ret T this s :
  step0_KillDeezer T this s = (Ret tt, (step0_KillDeezer T this s).2).
Proof. apply Ret_eta. by rewrite step0_KillDeezer_unfold. Qed.

(** C6. Already patched and no backup: [run] ends in [process.exit(1)]
    inside [step0_CheckIfPatched].  At that point nothing at or below the
    installation directory has changed, nothing at or below the scratch
    workspace [tempDir] has changed (it has not been created), and the
    only archive command that ran is the detector's own extraction into
    its throwaway directory: the workspace extraction of
    [step3_ExtractAsar] never ran. *)
Theorem C6_patched_without_backup_refuses
    (e : env) (T : tools) (now : N) (this : patcher) (s : state) :
  DeezerPatcher e now = Some this ->
  this_platform this = win32 ->
  ~ related (os_tmpdir e) (deezerPath (paths this)) ->
  let s0 := (step0_KillDeezer T this s).2 in
  (checkPatchSignature e T (originalAsar this) s0).1 = Ret true ->
  existsSync (backupFile this) (fs s) = false ->
  let r := run e T this s in
  r.1 = Exit 1 /\
  (forall p, deezerPath (paths this) `prefix_of` p -> fs r.2 !! p = fs s !! p) /\
  (forall p, tempDir this `prefix_of` p -> fs r.2 !! p = fs s !! p) /\
  cmds r.2 =
    cmds s0 ++ [AsarExtract npm (originalAsar this) (tempCheck_at e (clock s0))].
Proof.
  intros Hc Hwin Hsep s0 Hdet Hnb r.
  pose proof (constructed_tempDir _ _ _ Hc) as Htemp.
  pose proof (backup_unrelated _ _ Hsep) as Hbk.
  destruct (checkPatchSignature_true _ _ _ _ Hdet) as [Hfile Hcmds].
  assert (Hfs0 : fs s0 = fs s) by apply step0_KillDeezer_fs.
  set (s2 := (checkPatchSignature e T (originalAsar this) s0).2) in *.
  assert (Hframe : forall p, ~ related (tempCheck_at e (clock s0)) p ->
                             fs s2 !! p = fs s !! p).
  { intros p Hp. rewrite <- Hfs0. by apply checkPatchSignature_frame. }
  assert (Hr : r = (Exit 1, s2)).
  { subst r. rewrite run_unfold. destruct (decide _) as [Hn|_]; [done|].
    unfold steps_before_CopyBack.
    rewrite (bind_Ret_step _ _ _ _ _ (step0_KillDeezer_Ret T this s)). fold s0.
    unfold bind at 1. rewrite step0_CheckIfPatched_unfold.
    assert (Ho : existsSync (originalAsar this) (fs s0) = true).
    { unfold existsSync. apply bool_decide_eq_true_2.
      destruct (fs s0 !! originalAsar this) as [[? ?|]|]; by eauto. }
    rewrite Ho. cbn [negb].
    assert (Hb2 : existsSync (backupFile this) (fs s2) = false).
    { unfold existsSync in *. rewrite Hframe; [done|].
      intros Hr. apply Hbk. unfold tempCheck_at in Hr. by apply related_app in Hr. }
    subst s2.
    destruct (checkPatchSignature e T (originalAsar this) s0) as [[[]|err|code] s2];
      cbn [fst snd] in *; try done.
    by rewrite Hb2. }
  rewrite Hr. cbn [fst snd]. repeat split; [| |done].
  - intros p [y ->]. apply Hframe. unfold tempCheck_at.
    rewrite <- (app_nil_r (os_tmpdir e ++ _)), <- app_assoc. by apply unrelated_app.
  - intros p [y ->]. apply Hframe. unfold tempCheck_at. rewrite Htemp.
    apply siblings_unrelated, check_name_ne_patch_name.
Qed.

Lemma C6_witness :
  (run Scenario.e0 Scenario.T0 Scenario.this0 Scenario.s_patched_no_backup).1 = Exit 1.
Proof.
  apply (C6_patched_without_backup_refuses
           Scenario.e0 Scenario.T0 Scenario.now0 Scenario.this0
           Scenario.s_patched_no_backup).
  - reflexivity.
  - reflexivity.
  - apply (bool_decide_unpack _). vm_compute. exact I.
  - vm_compute. reflexivity.
  - vm_compute. reflexivity.
Defined.

(** *** Cleaning up *)

Lemma step0_CheckIfPatched_frame e T this s p :
  ~ related (tempCheck_at e (clock s)) p ->
  fs (step0_CheckIfPatched e T this s).2 !! p = fs s !! p.
Proof.
  intros Hp. rewrite step0_CheckIfPatched_unfold.
  destruct (negb _); [done|].
  pose proof (checkPatchSignature_frame e T (originalAsar this) s p Hp) as Hf.
  destruct (checkPatchSignature e T (originalAsar this) s) as [[[]|err|code] s2];
    cbn [snd] in *; try done.
  destruct (existsSync _ _); [|done].
  by destruct (askUserConfirmation e s2).1 as [[]| |].
Qed.

Lemma never_exits_after_check e T this :
  never_exits (step1_CreateBackup this;;
               step2_CreateTempFolder this;;
               step3_ExtractAsar T this;;
               step4_RenameMainJs this;;
               step5_CopyNewMainJs e this;;
               step6_AddGhosteryDependencies T this;;
               step7_RepackAsar T this).
Proof.
  unfold step1_CreateBackup, step2_CreateTempFolder, step3_ExtractAsar,
    step4_RenameMainJs, step5_CopyNewMainJs, step6_AddGhosteryDependencies,
    step7_RepackAsar, fs_existsSync, fs_mkdirSync, fs_rmSync, fs_renameSync.
  never_exits_structure.
Qed.

Lemma never_exits_step8_CopyBack this : never_exits (step8_CopyBack this).
Proof.
  unfold step8_CopyBack, cleanup, fs_existsSync, fs_rmSync. never_exits_structure.
Qed.

Lemma step8_CopyBack_Ret_cleans this s s' :
  step8_CopyBack this s = (Ret tt, s') -> existsSync (tempDir this) (fs s') = false.
Proof.
  unfold step8_CopyBack. intros H.
  apply bind_Ret_inv in H as (found & s1 & _ & H).
  destruct (negb found); [done|].
  apply bind_Ret_inv in H as ([] & s2 & _ & H).
  replace s' with (cleanup this s2).2 by (by rewrite H).
  apply cleanup_removes.
Qed.

(** When the pipeline ends in [process.exit], it ended inside
    [step0_CheckIfPatched]. *)
Lemma pipeline_Exit_inv e T this s code s' :
  pipeline e T this s = (Exit code, s') ->
  step0_CheckIfPatched e T this (step0_KillDeezer T this s).2 = (Exit code, s').
Proof.
  unfold pipeline. intros H.
  apply bind_Exit_inv in H as [H|([] & s1 & _ & H)];
    [|by destruct (never_exits_step8_CopyBack this s1 code); rewrite H].
  unfold steps_before_CopyBack in H.
  rewrite (bind_Ret_step _ _ _ _ _ (step0_KillDeezer_Ret T this s)) in H.
  apply bind_Exit_inv in H as [H|([] & s1 & _ & H)]; [done|].
  by destruct (never_exits_after_check e T this s1 code); rewrite H.
Qed.

Lemma run_pipeline e T this s :
  this_platform this = win32 ->
  run e T this s =
  match pipeline e T this s with
  | (Ret _, s1) => (Ret tt, s1)
  | (Throw _, s1) => (Exit 1, (cleanup this s1).2)
  | (Exit code, s1) => (Exit code, s1)
  end.
Proof.
  intros Hwin. unfold run, try_catch.
  destruct (decide _) as [Hn|_]; [done|].
  destruct (pipeline e T this s) as [[[]|err|code] s1]; [done| |done].
  unfold bind. by rewrite cleanup_unfold.
Qed.

(** C7. Cleanup: on Windows, where the pipeline runs, if the pipeline
    completes or one of its steps throws, the scratch workspace [tempDir]
    does not exist when [run] is over; and on every platform and for every
    way [run] can end, [process.exit] in [step0_CheckIfPatched] included,
    a workspace that did not exist when [run] started does not exist when
    it is over. *)
Theorem C7_workspace_removed
    (e : env) (T : tools) (now : N) (this : patcher) (s : state) :
  DeezerPatcher e now = Some this ->
  (this_platform this = win32 ->
   (forall code, (pipeline e T this s).1 <> Exit code) ->
   existsSync (tempDir this) (fs (run e T this s).2) = false) /\
  (existsSync (tempDir this) (fs s) = false ->
   existsSync (tempDir this) (fs (run e T this s).2) = false).
Proof.
  intros Hc.
  pose proof (constructed_tempDir _ _ _ Hc) as Htemp.
  assert (Hdone : this_platform this = win32 ->
            forall o s1, pipeline e T this s = (o, s1) ->
            (forall code, o <> Exit code) ->
            existsSync (tempDir this) (fs (run e T this s).2) = false).
  { intros Hwin o s1 Hp Hne. rewrite run_pipeline, Hp by done.
    destruct o as [[]|err|code]; cbn [snd].
    - unfold pipeline in Hp. apply bind_Ret_inv in Hp as ([] & s0 & _ & Hp).
      by eapply step8_CopyBack_Ret_cleans.
    - apply cleanup_removes.
    - by destruct (Hne code). }
  split.
  - intros Hwin Hne. destruct (pipeline e T this s) as [o s1] eqn:Hp.
    by eapply Hdone.
  - intros Habsent.
    destruct (decide (this_platform this = win32)) as [Hwin|Hother].
    + destruct (pipeline e T this s) as [o s1] eqn:Hp.
      destruct o as [[]|err|code]; [by eapply Hdone..|].
      rewrite run_pipeline, Hp by done. cbn [snd].
      apply pipeline_Exit_inv in Hp.
      replace s1 with (step0_CheckIfPatched e T this (step0_KillDeezer T this s).2).2
        by (by rewrite Hp).
      unfold existsSync in *. rewrite step0_CheckIfPatched_frame.
      * by rewrite step0_KillDeezer_fs.
      * unfold tempCheck_at. rewrite Htemp, <- (app_nil_r (_ ++ ["deezer-patch-" +:+ _])).
        apply siblings_unrelated, check_name_ne_patch_name.
    + unfold run, try_catch. by destruct (decide _).
Qed.

Lemma C7_witness :
  existsSync (tempDir Scenario.this0)
    (fs (run Scenario.e0 Scenario.T_npm_fails Scenario.this0 Scenario.s_fresh).2) = false.
Proof.
  refine (proj1 (C7_workspace_removed Scenario.e0 Scenario.T_npm_fails Scenario.now0
                   Scenario.this0 Scenario.s_fresh eq_refl) eq_refl _).
  intros code. vm_compute. discriminate.
Defined.

End PatcherClaims.

(* ===================================================================== *)
(** ** The injection wrappers: the specification's claims *)
(* ===================================================================== *)

Module WrapperClaims.
Import Electron WrapperSpec.

Definition with_trace (t : list event) (a : app) : app :=
  {| emitter := emitter a; on_patched := on_patched a;
     readyListeners := readyListeners a; process_env := process_env a;
     trace := trace a ++ t |}.

Lemma with_trace_nil a : with_trace [] a = a.
Proof. destruct a. unfold with_trace. simpl. by rewrite app_nil_r. Qed.

Lemma with_trace_app t1 t2 a : with_trace t2 (with_trace t1 a) = with_trace (t1 ++ t2) a.
Proof. unfold with_trace. simpl. by rewrite app_assoc. Qed.

Lemma call_guarded_trace raises l a :
  call_guarded raises l a = with_trace (replay_events raises [l]) a.
Proof.
  unfold call_guarded, replay_events, with_trace, log. simpl.
  destruct (raises l); simpl; by rewrite ?app_nil_r, <- ?app_assoc.
Qed.

Lemma replay_events_app raises l1 l2 :
  replay_events raises (l1 ++ l2) = replay_events raises l1 ++ replay_events raises l2.
Proof. unfold replay_events. apply bind_app. Qed.

Lemma replay_events_cons raises l ls :
  replay_events raises (l :: ls) = replay_events raises [l] ++ replay_events raises ls.
Proof. apply (replay_events_app raises [l] ls). Qed.

Lemma replay_from_spec raises n i a :
  n = length (readyListeners a) - i ->
  replay_from raises n i a =
  with_trace (replay_events raises (drop i (readyListeners a))) a.
Proof.
  revert i a. induction n as [|n IH]; intros i a Hn; simpl.
  - rewrite drop_ge by lia. by rewrite with_trace_nil.
  - destruct (readyListeners a !! i) as [l|] eqn:Hl.
    + rewrite IH, call_guarded_trace by (rewrite call_guarded_trace; simpl; lia).
      rewrite with_trace_app. simpl.
      rewrite (drop_S _ _ _ Hl). by rewrite replay_events_cons.
    + apply lookup_ge_None in Hl. lia.
Qed.

Lemma replay_spec raises a :
  replay raises a = with_trace (replay_events raises (readyListeners a)) a.
Proof. unfold replay. by rewrite replay_from_spec by lia. Qed.

Lemma invocations_app t1 t2 : invocations (t1 ++ t2) = invocations t1 ++ invocations t2.
Proof. apply omap_app. Qed.

Lemma invocations_replay_events raises ls :
  invocations (replay_events raises ls) = ls.
Proof.
  induction ls as [|l ls IH]; [done|].
  rewrite replay_events_cons, invocations_app, IH.
  unfold replay_events. simpl. by destruct (raises l).
Qed.

(** *** Capture *)

Lemma run_calls_patched cs a :
  on_patched a = true ->
  run_calls cs a =
  ((run_calls cs a).1,
   {| emitter := emitter a ++ direct_rows cs;
      on_patched := true;
      readyListeners := readyListeners a ++ ready_via_on cs;
      process_env := process_env a;
      trace := trace a |}).
Proof.
  revert a. induction cs as [|[ev l|ev l|ev l|] cs IH]; intros a Hp; simpl.
  - destruct a. simpl in *. subst. by rewrite !app_nil_r.
  - rewrite IH; unfold app_on; rewrite Hp.
    + destruct (bool_decide (ev = "ready")); simpl; by rewrite <- ?app_assoc.
    + by destruct (bool_decide (ev = "ready")).
  - rewrite IH; unfold app_once, app_on; rewrite Hp.
    + destruct (bool_decide (ev = "ready")); simpl; by rewrite <- ?app_assoc.
    + by destruct (bool_decide (ev = "ready")).
  - rewrite IH by done. simpl. by rewrite <- app_assoc.
  - destruct a. simpl in *. subst. by rewrite !app_nil_r.
Qed.

Lemma direct_rows_ready cs r :
  r ∈ direct_rows cs -> reg_event r = "ready" ->
  AddListener "ready" (reg_listener r) ∈ cs.
Proof.
  induction cs as [|[ev l|ev l|ev l|] cs IH]; simpl; intros Hr Hev.
  - by apply elem_of_nil in Hr.
  - right. destruct (bool_decide (ev = "ready")) eqn:E; [by apply IH|].
    apply elem_of_cons in Hr as [->|Hr]; [|by apply IH].
    simpl in Hev. apply bool_decide_eq_false in E. done.
  - right. destruct (bool_decide (ev = "ready")) eqn:E; [by apply IH|].
    apply elem_of_cons in Hr as [->|Hr]; [|by apply IH].
    simpl in Hev. apply bool_decide_eq_false in E. done.
  - apply elem_of_cons in Hr as [->|Hr]; [|right; by apply IH].
    simpl in Hev. subst ev. left.
  - by apply elem_of_nil in Hr.
Qed.

Lemma set_env_flags_shape a :
  emitter (set_env_flags a) = emitter a /\ trace (set_env_flags a) = trace a.
Proof.
  unfold set_env_flags, ensure_yes.
  repeat (match goal with |- context [bool_decide ?P] => destruct (bool_decide P) end); done.
Qed.

Lemma load_shape m a :
  let a1 := (Ghostery.load m a).2 in
  readyListeners a1 = ready_via_on (calls m) /\
  emitter a1 = emitter a ++ direct_rows (calls m) /\
  on_patched a1 = true /\
  trace a1 = trace a.
Proof.
  unfold Ghostery.load, require_original.
  rewrite (run_calls_patched (calls m) (patch_app_on (set_env_flags a))) by done.
  destruct (set_env_flags_shape a) as [He Ht].
  destruct (run_calls _ _).1; simpl; by rewrite He, Ht.
Qed.

(** *** [initAdblocker] *)

Lemma install_hooks_shape manual a :
  Ghostery.install_hooks manual a =
  {| emitter := emitter a ++ hook_rows (if manual then Manual else Blocker);
     on_patched := on_patched a; readyListeners := readyListeners a;
     process_env := process_env a; trace := trace a |}.
Proof.
  unfold Ghostery.install_hooks, app_on, originalAppOn, register.
  destruct (on_patched a), manual; simpl; by rewrite <- app_assoc.
Qed.

Lemma initAdblocker_shape O a :
  let r := (Ghostery.initAdblocker O a).1 in
  (Ghostery.initAdblocker O a).2 =
  {| emitter := emitter a ++ hook_rows r;
     on_patched := on_patched a; readyListeners := readyListeners a;
     process_env := process_env a;
     trace := trace a ++ [InitStarted; InitResolved r] |}.
Proof.
  unfold Ghostery.initAdblocker, Ghostery.ghostery_attempt.
  destruct O as [d c n h m].
  destruct d, c as [[]| |], n as [[]| |], h, m; cbn -[Ghostery.install_hooks];
    rewrite ?install_hooks_shape; unfold log; simpl;
    by rewrite ?app_nil_r, <- ?app_assoc.
Qed.

(** *** Electron's own ['ready'] *)

Lemma emit_listeners_shape raises ls a :
  exists evs,
    emit_listeners raises ls a = with_trace evs a /\
    forall l, l ∈ invocations evs -> l ∈ ls.
Proof.
  revert a. induction ls as [|l ls IH]; intros a; simpl.
  - exists []. by rewrite with_trace_nil.
  - destruct (raises l).
    + exists [Invoked l; Threw l]. split.
      * unfold with_trace, log. simpl. by rewrite <- app_assoc.
      * intros l' Hl'. simpl in Hl'. apply list_elem_of_singleton in Hl' as ->. left.
    + destruct (IH (log (Invoked l) a)) as (evs & -> & Hin).
      exists (Invoked l :: evs). split.
      * unfold with_trace, log. simpl. by rewrite <- app_assoc.
      * intros l' Hl'. simpl in Hl'. apply elem_of_cons in Hl' as [->|Hl']; [left|right; auto].
Qed.

Lemma emit_ready_shape raises a :
  exists evs,
    trace (emit_ready raises a) = trace a ++ evs /\
    (forall l, l ∈ invocations evs -> l ∈ reg_listener <$> ready_rows a) /\
    readyListeners (emit_ready raises a) = readyListeners a /\
    on_patched (emit_ready raises a) = on_patched a.
Proof.
  unfold emit_ready.
  destruct (emit_listeners_shape raises (reg_listener <$> ready_rows a) a)
    as (evs & -> & Hin).
  exists evs. by simpl.
Qed.

(** *** The claims *)

Lemma bootstrap_shape raises O a :
  let r := (Ghostery.initAdblocker O a).1 in
  Ghostery.bootstrap raises O a =
  {| emitter := emitter a ++ hook_rows r;
     on_patched := false; readyListeners := readyListeners a;
     process_env := process_env a;
     trace := trace a ++ [InitStarted; InitResolved r]
                ++ replay_events raises (readyListeners a) ++ [AppOnRestored] |}.
Proof.
  intros r. unfold Ghostery.bootstrap.
  pose proof (initAdblocker_shape O a) as Hs. fold r in Hs. cbv zeta in Hs.
  destruct (Ghostery.initAdblocker O a) as [r' a1]. simpl in r, Hs. subst r a1.
  rewrite replay_spec. unfold restore_app_on, with_trace, log. simpl.
  by rewrite <- !app_assoc.
Qed.

(** C8, as the code has it.  The wrapper replaces the property [on] of
    [app].  Every listener the original main module registers for
    ['ready'] through [app.on], or through [app.once], which calls
    [app.on], is captured in [readyListeners], in registration order, and
    no row for it is added to Electron's table; [bootstrap] then calls the
    captured listeners in that order after [initAdblocker] has resolved,
    whether with the blocker, with the manual rules or with [null].  Before
    that point the only listeners that run are those of the ['ready'] rows
    of Electron's table, which hold what was there before the wrapper
    loaded and what the main module registered through
    [app.addListener]. *)
Theorem C8_ready_listeners_through_on_deferred
    (raises : listener -> bool) (O : Ghostery.adblock_oracle)
    (m : main_module) (a0 : app) :
  let a1 := (Ghostery.load m a0).2 in
  let a2 := emit_ready raises a1 in
  let r := (Ghostery.initAdblocker O a2).1 in
  let a3 := Ghostery.bootstrap raises O a2 in
  readyListeners a1 = ready_via_on (calls m) /\
  emitter a1 = emitter a0 ++ direct_rows (calls m) /\
  (forall row, row ∈ direct_rows (calls m) ->
     reg_event row = "ready" -> AddListener "ready" (reg_listener row) ∈ calls m) /\
  (exists before,
     trace a2 = trace a0 ++ before /\
     (forall l, l ∈ invocations before ->
        l ∈ reg_listener <$> ready_rows a1) /\
     trace a3 = trace a0 ++ before ++ [InitStarted; InitResolved r]
                  ++ replay_events raises (ready_via_on (calls m))
                  ++ [AppOnRestored]) /\
  invocations (replay_events raises (ready_via_on (calls m))) = ready_via_on (calls m).
Proof.
  intros a1 a2 r a3.
  destruct (load_shape m a0) as (Hrl & Hem & Hpat & Htr). fold a1 in Hrl, Hem, Hpat, Htr.
  destruct (emit_ready_shape raises a1) as (before & Ht2 & Hin & Hrl2 & _).
  fold a2 in Ht2, Hrl2.
  repeat split; try done.
  - intros row. apply direct_rows_ready.
  - exists before. rewrite Ht2, Htr. repeat split; [done|].
    subst a3. rewrite bootstrap_shape. cbn [trace]. fold r.
    rewrite Hrl2, Hrl, Ht2, Htr. by rewrite <- !app_assoc.
  - apply invocations_replay_events.
Qed.

(** C8 as the specification words it fails: a ['ready'] listener that the
    original main module registers through [app.addListener] does not go
    through [app.on] and is not captured.  Below, listener 1 is registered
    with [app.once] and listener 0 with [app.addListener]: listener 1 is
    captured and runs after [initAdblocker] has resolved, listener 0 is a
    row of Electron's table and runs when Electron fires ['ready'], before
    [initAdblocker] has even started. *)
Lemma C8_addListener_not_captured :
  let m := {| calls := [Once "ready" (MainListener 1);
                        AddListener "ready" (MainListener 0)];
              main_exports := "main" |} in
  let a1 := (Ghostery.load m fresh_app).2 in
  readyListeners a1 = [MainListener 1] /\
  emitter a1 = [ {| reg_event := "ready"; reg_once := false;
                    reg_listener := MainListener 0 |} ] /\
  trace (Ghostery.lifecycle (fun _ => false) quiet_oracle m fresh_app).2 =
    [Invoked (MainListener 0); InitStarted; InitResolved Blocker;
     Invoked (MainListener 1); AppOnRestored].
Proof. by vm_compute. Qed.

Lemma loadextension_bootstrap_shape raises loaded a :
  LoadExtension.bootstrap raises loaded a =
  {| emitter := emitter a;
     on_patched := false; readyListeners := readyListeners a;
     process_env := process_env a;
     trace := trace a ++ [ExtensionSettled loaded]
                ++ replay_events raises (readyListeners a) ++ [AppOnRestored] |}.
Proof.
  unfold LoadExtension.bootstrap, LoadExtension.loadExtensionSafe.
  rewrite replay_spec. unfold restore_app_on, with_trace, log. simpl.
  by rewrite <- !app_assoc.
Qed.

(** C10. Replay with throwing listeners, in both wrappers: whichever
    listeners throw, the trace of [bootstrap] shows every captured
    listener called exactly once, in order, each exception caught where it
    was thrown, and the loop followed by the restoration of the original
    [app.on]; [bootstrap] reaches its end. *)
Theorem C10_replay_survives_throwing_listeners
    (raises : listener -> bool) (O : Ghostery.adblock_oracle) (loaded : bool) (a : app) :
  (let a' := Ghostery.bootstrap raises O a in
   exists t,
     trace a' = trace a ++ [InitStarted; InitResolved (Ghostery.initAdblocker O a).1]
                  ++ t ++ [AppOnRestored] /\
     invocations t = readyListeners a /\
     (forall l, Threw l ∈ t <-> l ∈ readyListeners a /\ raises l = true) /\
     on_patched a' = false) /\
  (let a' := LoadExtension.bootstrap raises loaded a in
   exists t,
     trace a' = trace a ++ [ExtensionSettled loaded] ++ t ++ [AppOnRestored] /\
     invocations t = readyListeners a /\
     (forall l, Threw l ∈ t <-> l ∈ readyListeners a /\ raises l = true) /\
     on_patched a' = false).
Proof.
  assert (Hthrew : forall ls l,
            Threw l ∈ replay_events raises ls <-> l ∈ ls /\ raises l = true).
  { intros ls l. unfold replay_events. rewrite list_elem_of_bind. split.
    - intros (l' & Hin & Hl'). destruct (raises l') eqn:E.
      + apply elem_of_cons in Hin as [?|Hin]; [done|].
        apply list_elem_of_singleton in Hin as [= ->]. done.
      + apply list_elem_of_singleton in Hin. done.
    - intros [Hl Hr]. exists l. split; [|done]. rewrite Hr. right. left. }
  split.
  - exists (replay_events raises (readyListeners a)).
    rewrite bootstrap_shape. simpl.
    split; [done|]. split; [apply invocations_replay_events|]. split; [apply Hthrew|done].
  - exists (replay_events raises (readyListeners a)).
    rewrite loadextension_bootstrap_shape. simpl.
    split; [done|]. split; [apply invocations_replay_events|]. split; [apply Hthrew|done].
Qed.

End WrapperClaims.

(* ===================================================================== *)
(** ** The pipeline: further properties *)
(* ===================================================================== *)

Module PatcherExtras.
Import Fs Patcher PatcherPaths FsFacts JsFacts PatcherFacts PatcherClaims.

(** *** How a run can end *)

Lemma step0_CheckIfPatched_Exit e T this s code s' :
  step0_CheckIfPatched e T this s = (Exit code, s') ->
  let r := checkPatchSignature e T (originalAsar this) s in
  r.1 = Ret true /\ s' = r.2 /\
  ((code = 1 /\ existsSync (backupFile this) (fs r.2) = false) \/
   (code = 0 /\ existsSync (backupFile this) (fs r.2) = true /\
    (askUserConfirmation e r.2).1 = Ret false)).
Proof.
  rewrite step0_CheckIfPatched_unfold. destruct (negb _); [done|].
  pose proof (checkPatchSignature_total e T (originalAsar this) s) as [v Hv].
  destruct (checkPatchSignature e T (originalAsar this) s) as [o s2].
  simpl in Hv. subst o. destruct v; [|done]. simpl.
  destruct (existsSync (backupFile this) (fs s2)) eqn:Eb.
  - unfold askUserConfirmation, gets. simpl.
    destruct (_ || _); [done|]. intros [= <- <-]. repeat split. right. by repeat split.
  - intros [= <- <-]. repeat split. left. by repeat split.
Qed.

Lemma run_status e T this s :
  (run e T this s).1 = Ret tt \/ (run e T this s).1 = Exit 0 \/ (run e T this s).1 = Exit 1.
Proof.
  destruct (decide (this_platform this = win32)) as [Hwin|Hother].
  - rewrite run_pipeline by done.
    destruct (pipeline e T this s) as [[[]|err|code] s1] eqn:Hp; cbn [fst snd]; auto.
    apply pipeline_Exit_inv, step0_CheckIfPatched_Exit in Hp.
    destruct Hp as (_ & _ & [[-> _]|(-> & _)]); auto.
  - unfold run, try_catch. destruct (decide _); [|done]. by left.
Qed.

(** X1.  No error escapes [run]: it returns, or the process exits with status
    0 or 1; and status 0 means exactly that the archive was found
    patched, a backup was there, and the user did not answer yes. *)
Theorem run_ends_with_status_0_or_1
    (e : env) (T : tools) (this : patcher) (s : state) :
  let r := run e T this s in
  let s0 := (step0_KillDeezer T this s).2 in
  let detection := checkPatchSignature e T (originalAsar this) s0 in
  (r.1 = Ret tt \/ r.1 = Exit 0 \/ r.1 = Exit 1) /\
  (r.1 = Exit 0 ->
     detection.1 = Ret true /\
     existsSync (backupFile this) (fs detection.2) = true /\
     (askUserConfirmation e detection.2).1 = Ret false /\
     r.2 = detection.2).
Proof.
  intros r s0 detection. subst r. split; [apply run_status|].
  destruct (decide (this_platform this = win32)) as [Hwin|Hother].
  - rewrite run_pipeline by done.
    destruct (pipeline e T this s) as [[[]|err|code] s1] eqn:Hp; cbn [fst snd]; try done.
    intros [= ->].
    apply pipeline_Exit_inv, step0_CheckIfPatched_Exit in Hp.
    fold s0 in Hp. fold detection in Hp.
    by destruct Hp as (Hd & -> & [[? Hb]|(_ & Hb & Ha)]).
  - unfold run, try_catch. by destruct (decide _).
Qed.

(** *** Closing Deezer *)

(** X2.  [step0_KillDeezer] is best effort: it always returns and never touches
    a file.  On Windows, when Deezer runs and one of the two kills works,
    Deezer no longer runs afterwards and at least the two seconds of the
    settle delay have passed; the forced kill is tried only after the
    graceful one failed; when Deezer does not run, only [tasklist] is
    run.  On the other platforms the step does nothing. *)
Theorem step0_KillDeezer_best_effort (T : tools) (this : patcher) (s : state) :
  let r := step0_KillDeezer T this s in
  r.1 = Ret tt /\
  fs r.2 = fs s /\
  (this_platform this = win32 ->
     (running (deezer s) = false ->
        cmds r.2 = cmds s ++ [Tasklist] /\ deezer r.2 = deezer s) /\
     (running (deezer s) = true ->
        (graceful_kill_works (deezer s) = true ->
           cmds r.2 = cmds s ++ [Tasklist; Taskkill false] /\
           running (deezer r.2) = false /\ (clock s + 2000 <= clock r.2)%N) /\
        (graceful_kill_works (deezer s) = false ->
           cmds r.2 = cmds s ++ [Tasklist; Taskkill false; Taskkill true] /\
           running (deezer r.2) = negb (force_kill_works (deezer s)) /\
           (force_kill_works (deezer s) = true -> (clock s + 2000 <= clock r.2)%N)))) /\
  (this_platform this <> win32 -> r.2 = s).
Proof.
  intros r. subst r. rewrite step0_KillDeezer_unfold. cbn [fst snd]. cbv zeta.
  destruct s as [f c cm [run g fo] an fl]. cbn.
  split; [done|]. split.
  { repeat (match goal with |- context [if ?b then _ else _] => destruct b end); done. }
  split.
  - intros Hwin. destruct (decide _) as [_|Hn]; [|done].
    split.
    + by intros ->.
    + intros ->. split.
      * intros ->. cbn. rewrite <- app_assoc. split; [reflexivity|]. split; [done|lia].
      * intros ->. cbn. destruct fo; cbn.
        -- rewrite <- !app_assoc. split; [reflexivity|]. split; [done|]. intros _. lia.
        -- rewrite <- !app_assoc. split; [reflexivity|]. split; done.
  - intros Hn. by destruct (decide _).
Qed.

Lemma step0_KillDeezer_witness :
  cmds (step0_KillDeezer Scenario.T0 Scenario.this0 Scenario.s_fresh).2
    = [Tasklist; Taskkill false; Taskkill true] /\
  running (deezer (step0_KillDeezer Scenario.T0 Scenario.this0 Scenario.s_fresh).2) = false.
Proof.
  pose proof (step0_KillDeezer_best_effort Scenario.T0 Scenario.this0 Scenario.s_fresh) as H.
  cbv zeta in H. destruct H as (_ & _ & Hwin & _).
  destruct (Hwin eq_refl) as [_ Hrun].
  destruct (Hrun eq_refl) as [_ Hforce].
  destruct (Hforce eq_refl) as (Hc & Hr & _).
  split; [exact Hc|exact Hr].
Defined.

(** *** Stopping in [step0_CheckIfPatched] *)

Lemma run_stops_where_check_stops e T this s o s' :
  this_platform this = win32 ->
  step0_CheckIfPatched e T this (step0_KillDeezer T this s).2 = (o, s') ->
  (forall u, o <> Ret u) ->
  run e T this s =
  match o with
  | Throw _ => (Exit 1, (cleanup this s').2)
  | Exit code => (Exit code, s')
  | Ret _ => (Ret tt, s')
  end.
Proof.
  intros Hwin Hcheck Ho. rewrite run_pipeline by done.
  unfold pipeline, steps_before_CopyBack.
  unfold bind at 1.
  rewrite (bind_Ret_step _ _ _ _ _ (step0_KillDeezer_Ret T this s)).
  unfold bind at 1. rewrite Hcheck.
  destruct o as [u|err|code]; [by destruct (Ho u)|done..].
Qed.

Lemma checkPatchSignature_answer e T asarPath s :
  answer (checkPatchSignature e T asarPath s).2 = answer s.
Proof.
  rewrite checkPatchSignature_unfold. cbv zeta.
  destruct (mkdirSync _ _) as [err|f1]; [done|].
  rewrite execSync_AsarExtract. cbv zeta.
  destruct (fs (set_fs f1 s) !! asarPath) as [[bytes m|]|]; [|done..].
  destruct (asar_extract T npm bytes); [|done].
  by destruct (fs _ !! (_ ++ _)) as [[c m'|]|].
Qed.

Lemma step0_KillDeezer_answer T this s :
  answer (step0_KillDeezer T this s).2 = answer s.
Proof.
  rewrite step0_KillDeezer_unfold. cbn [snd]. cbv zeta.
  repeat (match goal with |- context [if ?b then _ else _] => destruct b end); done.
Qed.

(** X3.  The user declines the re-patch: on Windows, when the live
    archive is found patched, a backup exists and the reply, lower-cased
    and trimmed as JavaScript does it, is neither [y] nor [yes], [run]
    ends in [process.exit(0)]; nothing at or below the installation
    directory or the scratch workspace has changed, and the only archive
    command run is the detector's extraction.  This is for a patcher as
    the constructor builds it and an installation that does not lie in
    the temporary directory of the system, nor the other way round. *)
Theorem declined_repatch_changes_nothing
    (e : env) (T : tools) (now : N) (this : patcher) (s : state) :
  DeezerPatcher e now = Some this ->
  this_platform this = win32 ->
  ~ related (os_tmpdir e) (deezerPath (paths this)) ->
  let s0 := (step0_KillDeezer T this s).2 in
  (checkPatchSignature e T (originalAsar this) s0).1 = Ret true ->
  existsSync (backupFile this) (fs s) = true ->
  (askUserConfirmation e s).1 = Ret false ->
  let r := run e T this s in
  r.1 = Exit 0 /\
  (forall p, deezerPath (paths this) `prefix_of` p -> fs r.2 !! p = fs s !! p) /\
  (forall p, tempDir this `prefix_of` p -> fs r.2 !! p = fs s !! p) /\
  cmds r.2 =
    cmds s0 ++ [AsarExtract npm (originalAsar this) (tempCheck_at e (clock s0))].
Proof.
  intros Hc Hwin Hsep s0 Hdet Hb Hno r.
  pose proof (constructed_tempDir _ _ _ Hc) as Htemp.
  pose proof (backup_unrelated _ _ Hsep) as Hbk.
  destruct (checkPatchSignature_true _ _ _ _ Hdet) as [Hfile Hcmds].
  assert (Hfs0 : fs s0 = fs s) by apply step0_KillDeezer_fs.
  set (s2 := (checkPatchSignature e T (originalAsar this) s0).2) in *.
  assert (Hframe : forall p, ~ related (tempCheck_at e (clock s0)) p ->
                             fs s2 !! p = fs s !! p).
  { intros p Hp. rewrite <- Hfs0. by apply checkPatchSignature_frame. }
  assert (Hcheck : step0_CheckIfPatched e T this s0 = (Exit 0, s2)).
  { rewrite step0_CheckIfPatched_unfold.
    assert (Ho : existsSync (originalAsar this) (fs s0) = true).
    { unfold existsSync. apply bool_decide_eq_true_2.
      destruct (fs s0 !! originalAsar this) as [[? ?|]|]; by eauto. }
    rewrite Ho. cbn [negb].
    assert (Hb2 : existsSync (backupFile this) (fs s2) = true).
    { unfold existsSync in *. rewrite Hframe; [done|].
      intros Hr. apply Hbk. unfold tempCheck_at in Hr. by apply related_app in Hr. }
    assert (Ha : (askUserConfirmation e s2).1 = Ret false).
    { unfold askUserConfirmation, gets. cbn [fst]. subst s2.
      rewrite checkPatchSignature_answer. subst s0.
      rewrite step0_KillDeezer_answer. exact Hno. }
    subst s2.
    destruct (checkPatchSignature e T (originalAsar this) s0) as [[[]|err|code] s2];
      cbn [fst snd] in *; try done.
    by rewrite Hb2, Ha. }
  assert (Hr : r = (Exit 0, s2)).
  { subst r. by rewrite (run_stops_where_check_stops _ _ _ _ _ _ Hwin Hcheck). }
  rewrite Hr. cbn [fst snd]. split; [done|]. split; [|split; [|done]].
  - intros p [y ->]. apply Hframe. unfold tempCheck_at.
    rewrite <- (app_nil_r (os_tmpdir e ++ _)), <- app_assoc. by apply unrelated_app.
  - intros p [y ->]. apply Hframe. unfold tempCheck_at. rewrite Htemp.
    apply siblings_unrelated, check_name_ne_patch_name.
Qed.

Lemma declined_repatch_witness :
  (run Scenario.e0 Scenario.T0 Scenario.this0
     (Scenario.boot (Scenario.install "wrapper [inject]#original" (Some "original")) "n")).1
  = Exit 0.
Proof.
  apply (declined_repatch_changes_nothing
           Scenario.e0 Scenario.T0 Scenario.now0 Scenario.this0
           (Scenario.boot (Scenario.install "wrapper [inject]#original" (Some "original")) "n")).
  - reflexivity.
  - reflexivity.
  - apply (bool_decide_unpack _). vm_compute. exact I.
  - vm_compute. reflexivity.
  - vm_compute. reflexivity.
  - vm_compute. reflexivity.
Defined.

(** X4.  The live archive is missing: on Windows [run] ends with status 1; no
    archive or package-manager command was run, and nothing outside the
    scratch workspace, which the [catch] block removes, has changed. *)
Theorem missing_archive_fails_early
    (e : env) (T : tools) (this : patcher) (s : state) :
  this_platform this = win32 ->
  existsSync (originalAsar this) (fs s) = false ->
  let r := run e T this s in
  r.1 = Exit 1 /\
  cmds r.2 = cmds (step0_KillDeezer T this s).2 /\
  (forall p, ~ tempDir this `prefix_of` p -> fs r.2 !! p = fs s !! p) /\
  existsSync (tempDir this) (fs r.2) = false.
Proof.
  intros Hwin Hmiss r.
  set (s0 := (step0_KillDeezer T this s).2).
  assert (Hfs0 : fs s0 = fs s) by apply step0_KillDeezer_fs.
  assert (Hcheck : step0_CheckIfPatched e T this s0
                   = (Throw (AsarNotFound (originalAsar this)), s0)).
  { rewrite step0_CheckIfPatched_unfold. by rewrite Hfs0, Hmiss. }
  assert (Hr : r = (Exit 1, (cleanup this s0).2)).
  { subst r. by rewrite (run_stops_where_check_stops _ _ _ _ _ _ Hwin Hcheck). }
  rewrite Hr. cbn [fst snd]. split; [done|].
  split; [|split; [|apply cleanup_removes]].
  - rewrite cleanup_unfold. cbn [snd].
    destruct (existsSync (tempDir this) (fs s0)); reflexivity.
  - intros p Hp. rewrite cleanup_unfold. cbn [snd].
    destruct (existsSync (tempDir this) (fs s0)); [|by rewrite Hfs0].
    change (fs (set_fs ?f _)) with f.
    rewrite rmSync_outside by done. by rewrite Hfs0.
Qed.

Lemma missing_archive_witness :
  (run Scenario.e0 Scenario.T0 Scenario.this0 (Scenario.boot Scenario.dirs "")).1 = Exit 1.
Proof.
  apply (missing_archive_fails_early Scenario.e0 Scenario.T0 Scenario.this0
           (Scenario.boot Scenario.dirs "")).
  - reflexivity.
  - vm_compute. reflexivity.
Defined.

(** *** The scratch workspace *)

Lemma ancestors_of_prefix (q p : path) :
  q `prefix_of` p -> q <> p -> q ∈ ancestors p.
Proof.
  revert q. induction p as [|c p IH]; intros q Hpre Hne.
  - apply prefix_nil_inv in Hpre. done.
  - destruct q as [|d q]; simpl; [left|].
    pose proof (prefix_cons_inv_1 _ _ _ _ Hpre) as ->.
    apply prefix_cons_inv_2 in Hpre. right.
    apply list_elem_of_fmap. exists q. split; [done|].
    apply IH; [done|]. congruence.
Qed.

Lemma mkdir_p_self_fresh (d : path) (f : fsys) :
  f !! d = None -> mkdir_p d f !! d = Some Dir.
Proof.
  intros Hd. unfold mkdir_p. simpl. unfold ensure_dir at 1.
  rewrite ensure_all_ne by apply ancestors_ne. rewrite Hd.
  by rewrite lookup_insert_eq.
Qed.

Lemma step2_CreateTempFolder_unfold this s :
  step2_CreateTempFolder this s =
  let s1 := if existsSync (tempDir this) (fs s)
            then set_fs (rmSync (tempDir this) (fs s)) s else s in
  fs_mkdirSync (tempDir this) s1.
Proof.
  unfold step2_CreateTempFolder. unfold bind at 1, fs_existsSync at 1, gets at 1.
  destruct (existsSync (tempDir this) (fs s)); reflexivity.
Qed.

(** X5.  [step2_CreateTempFolder] leaves a fresh workspace: when it returns on
    a well-formed file system, [tempDir] is a directory with nothing in
    it, whatever a crashed earlier run had left there, and every node
    outside [tempDir] is still there, unchanged. *)
Theorem step2_leaves_fresh_workspace (this : patcher) (s s' : state) :
  FsShape.well_formed (fs s) ->
  step2_CreateTempFolder this s = (Ret tt, s') ->
  fs s' !! tempDir this = Some Dir /\
  (forall p, tempDir this `prefix_of` p -> p <> tempDir this -> fs s' !! p = None) /\
  (forall p n, ~ tempDir this `prefix_of` p -> fs s !! p = Some n -> fs s' !! p = Some n).
Proof.
  intros Hwf. rewrite step2_CreateTempFolder_unfold. cbv zeta.
  set (s1 := if existsSync (tempDir this) (fs s) then _ else s).
  assert (Hbelow : forall p, tempDir this `prefix_of` p -> fs s1 !! p = None).
  { intros p Hp. subst s1.
    destruct (existsSync (tempDir this) (fs s)) eqn:E; [by apply rmSync_inside|].
    apply bool_decide_eq_false in E.
    destruct (decide (p = tempDir this)) as [->|Hne];
      [by apply eq_None_not_Some|].
    destruct (fs s !! p) as [n|] eqn:Hn; [|done].
    exfalso. apply E. exists Dir.
    pose proof (map_Forall_lookup_1 _ _ _ _ Hwf Hn) as Hanc. simpl in Hanc.
    rewrite Forall_forall in Hanc. apply Hanc. by apply ancestors_of_prefix. }
  assert (Hout : forall p, ~ tempDir this `prefix_of` p -> fs s1 !! p = fs s !! p).
  { intros p Hp. subst s1.
    destruct (existsSync (tempDir this) (fs s)); [by apply rmSync_outside|done]. }
  unfold fs_mkdirSync, lift_fs.
  destruct (mkdirSync (tempDir this) (fs s1)) as [err|f'] eqn:Hm; [done|].
  intros [= <-]. cbn [fs set_fs].
  unfold mkdirSync in Hm. destruct (existsb _ _); [done|].
  destruct (is_file _); [done|]. injection Hm as <-.
  split; [|split].
  - apply mkdir_p_self_fresh, Hbelow. done.
  - intros p Hp Hne. rewrite mkdir_p_frame; [by apply Hbelow|].
    intros Hq. apply Hne. by apply (anti_symm prefix).
  - intros p n Hp Hn. apply mkdir_p_keeps. by rewrite Hout.
Qed.

Lemma step2_witness :
  fs (step2_CreateTempFolder Scenario.this0 Scenario.s_fresh).2 !! tempDir Scenario.this0
  = Some Dir.
Proof.
  refine (proj1 (step2_leaves_fresh_workspace Scenario.this0 Scenario.s_fresh
                   (step2_CreateTempFolder Scenario.this0 Scenario.s_fresh).2 _ _)).
  - apply (bool_decide_unpack _). vm_compute. exact I.
  - refine (Ret_eta _ _ _ _). vm_compute. reflexivity.
Defined.

(** *** Swapping the entry script *)

Lemma entry_ne_kept this : entry_js this <> kept_js this.
Proof. unfold entry_js, kept_js. intros H%app_inv_head. discriminate H. Qed.

Lemma step4_moves_file this s c m s' :
  fs s !! entry_js this = Some (File c m) ->
  step4_RenameMainJs this s = (Ret tt, s') ->
  fs s' !! kept_js this = Some (File c m) /\
  fs s' !! entry_js this = None /\
  (forall p, p <> entry_js this -> p <> kept_js this -> fs s' !! p = fs s !! p).
Proof.
  unfold step4_RenameMainJs. fold (entry_js this). fold (kept_js this). cbv zeta.
  unfold bind, fs_existsSync, gets.
  intros Hentry. unfold existsSync. rewrite Hentry.
  rewrite bool_decide_eq_true_2 by eauto. cbn [negb].
  unfold fs_renameSync, lift_fs, renameSync. rewrite Hentry.
  destruct (negb _); [done|]. destruct (is_dir _); [done|].
  intros [= <-]. cbn [fs set_fs]. split; [by rewrite lookup_insert_eq|]. split.
  - rewrite lookup_insert_ne by (intros H; by apply (entry_ne_kept this)).
    by rewrite lookup_delete_eq.
  - intros p Hp1 Hp2. rewrite lookup_insert_ne by done.
    by rewrite lookup_delete_ne.
Qed.

(** X6.  [step4_RenameMainJs]: a missing [build/main.js] is a fatal error that
    changes nothing; a regular file moves to [build/main.original.js] with
    its bytes and its modification time, [build/main.js] is then free, and
    no other path changes. *)
Theorem step4_keeps_the_original_entry (this : patcher) (s : state) :
  (existsSync (entry_js this) (fs s) = false ->
     step4_RenameMainJs this s = (Throw (MainJsNotFound (entry_js this)), s)) /\
  (forall c m s',
     fs s !! entry_js this = Some (File c m) ->
     step4_RenameMainJs this s = (Ret tt, s') ->
     fs s' !! kept_js this = Some (File c m) /\
     fs s' !! entry_js this = None /\
     (forall p, p <> entry_js this -> p <> kept_js this -> fs s' !! p = fs s !! p)).
Proof.
  split.
  - unfold step4_RenameMainJs. fold (entry_js this). cbv zeta.
    unfold bind, fs_existsSync, gets. by intros ->.
  - intros c m s'. apply step4_moves_file.
Qed.

Lemma step4_witness :
  fs (step4_RenameMainJs Scenario.this0 ScenarioSteps.s_extracted).2
    !! kept_js Scenario.this0 = Some (File "original" 1700000000001%N) /\
  fs (step4_RenameMainJs Scenario.this0 ScenarioSteps.s_extracted).2
    !! entry_js Scenario.this0 = None.
Proof.
  destruct (proj2 (step4_keeps_the_original_entry Scenario.this0 ScenarioSteps.s_extracted)
              "original" 1700000000001%N
              (step4_RenameMainJs Scenario.this0 ScenarioSteps.s_extracted).2)
    as (Hk & He & _).
  - vm_compute. reflexivity.
  - refine (Ret_eta _ _ _ _). vm_compute. reflexivity.
  - split; [exact Hk|exact He].
Defined.

(** X7.  Steps 4 and 5 together: when both return, the original entry script
    is at [build/main.original.js], bytes and modification time as
    extracted, and [build/main.js] holds the bytes of the injection wrapper
    shipped in [decomp/build/main.js] beside the patcher. *)
Theorem entry_swapped_for_the_wrapper
    (e : env) (this : patcher) (s s' : state) (c w : string) (m mw : N) :
  let sourceMain := script_dirname e ++ ["decomp"; "build"; "main.js"] in
  fs s !! entry_js this = Some (File c m) ->
  fs s !! sourceMain = Some (File w mw) ->
  sourceMain <> entry_js this -> sourceMain <> kept_js this ->
  (step4_RenameMainJs this;; step5_CopyNewMainJs e this) s = (Ret tt, s') ->
  fs s' !! kept_js this = Some (File c m) /\
  fs s' !! entry_js this = Some (File w (clock s)) /\
  (forall p, p <> entry_js this -> p <> kept_js this -> fs s' !! p = fs s !! p).
Proof.
  intros sourceMain Hentry Hsrc Hne1 Hne2 Hrun. subst sourceMain.
  apply bind_Ret_inv in Hrun as ([] & s1 & H4 & H5).
  destruct (step4_moves_file this s c m s1 Hentry H4)
    as (Hkept & Hfree & Hrest).
  assert (Hclock : clock s1 = clock s).
  { unfold step4_RenameMainJs, bind, fs_existsSync, gets, fs_renameSync, lift_fs in H4.
    destruct (negb _); [done|]. destruct (renameSync _ _ _); [done|].
    by injection H4 as <-. }
  unfold step5_CopyNewMainJs in H5. fold (entry_js this) in H5.
  cbv zeta in H5. unfold bind, fs_existsSync, gets in H5.
  destruct (negb _); [done|].
  unfold fs_copyFileSync, lift_fs in H5.
  destruct (copyFileSync _ _ _ _) as [err|f'] eqn:Hcp; [done|].
  injection H5 as <-. cbn [fs set_fs].
  destruct (copyFileSync_dst _ _ _ _ _ Hcp) as (c' & m' & Hs1 & Hdst).
  rewrite Hrest in Hs1 by done.
  injection (eq_trans (eq_sym Hs1) Hsrc) as -> ->.
  split; [|split].
  - rewrite (copyFileSync_frame _ _ _ _ _ _ Hcp); [done|].
    intros H. by apply (entry_ne_kept this).
  - by rewrite Hdst, Hclock.
  - intros p Hp1 Hp2. rewrite (copyFileSync_frame _ _ _ _ _ _ Hcp) by done.
    by apply Hrest.
Qed.

Lemma entry_swapped_witness :
  fs ((step4_RenameMainJs Scenario.this0;; step5_CopyNewMainJs Scenario.e0 Scenario.this0)
        ScenarioSteps.s_extracted).2 !! kept_js Scenario.this0
  = Some (File "original" 1700000000001%N).
Proof.
  refine (proj1 (entry_swapped_for_the_wrapper Scenario.e0 Scenario.this0
                   ScenarioSteps.s_extracted _ "original" "wrapper [inject]"
                   1700000000001%N 3%N _ _ _ _ _)).
  - vm_compute. reflexivity.
  - vm_compute. reflexivity.
  - vm_compute. discriminate.
  - vm_compute. discriminate.
  - refine (Ret_eta _ _ _ _). vm_compute. reflexivity.
Defined.

(** *** Making the backup *)

Lemma step1_copy e now this s s' :
  DeezerPatcher e now = Some this ->
  useExistingBackup s = false ->
  existsSync (backupFile this) (fs s) = false ->
  step1_CreateBackup this s = (Ret tt, s') ->
  exists c m,
    fs s !! originalAsar this = Some (File c m) /\
    fs s' !! backupFile this = Some (File c (clock s)) /\
    (forall p, p <> backupFile this -> fs s' !! p = fs s !! p).
Proof.
  intros Hc Hflag Hnb. rewrite step1_CreateBackup_unfold, Hflag, Hnb.
  destruct (negb _); [done|]. cbn [andb].
  unfold fs_copyFileSync, lift_fs.
  destruct (copyFileSync _ _ _ _) as [err|f'] eqn:Hcp; [done|].
  intros [= <-]. cbn [fs set_fs].
  destruct (copyFileSync_dst _ _ _ _ _ Hcp) as (c & m & Hsrc & Hdst).
  exists c, m. split; [done|]. split; [done|].
  intros p Hp. by apply (copyFileSync_frame _ _ _ _ _ _ Hcp).
Qed.

(** X8.  The first backup is a copy: with the reuse flag unset and no backup
    yet, when [step1_CreateBackup] returns, the backup holds the bytes of
    the live archive, stamped with the time of the copy, and no other path
    has changed; the live archive in particular is as it was. *)
Theorem first_backup_copies_the_live_archive
    (e : env) (now : N) (this : patcher) (s s' : state) :
  DeezerPatcher e now = Some this ->
  useExistingBackup s = false ->
  existsSync (backupFile this) (fs s) = false ->
  step1_CreateBackup this s = (Ret tt, s') ->
  exists c m,
    fs s !! originalAsar this = Some (File c m) /\
    fs s' !! backupFile this = Some (File c (clock s)) /\
    (forall p, p <> backupFile this -> fs s' !! p = fs s !! p).
Proof. apply step1_copy. Qed.

Lemma first_backup_witness :
  exists c m,
    fs Scenario.s_fresh !! originalAsar Scenario.this0 = Some (File c m) /\
    fs (step1_CreateBackup Scenario.this0 Scenario.s_fresh).2 !! backupFile Scenario.this0
      = Some (File c (clock Scenario.s_fresh)) /\
    (forall p, p <> backupFile Scenario.this0 ->
       fs (step1_CreateBackup Scenario.this0 Scenario.s_fresh).2 !! p
       = fs Scenario.s_fresh !! p).
Proof.
  apply (first_backup_copies_the_live_archive Scenario.e0 Scenario.now0 Scenario.this0).
  - reflexivity.
  - reflexivity.
  - vm_compute. reflexivity.
  - refine (Ret_eta _ _ _ _). vm_compute. reflexivity.
Defined.

(** *** Installing the patched archive *)

(** X9.  [step8_CopyBack]: without a repacked archive it throws and changes
    nothing; when it returns, the live archive holds the bytes of the
    repacked archive, stamped with the time of the copy, and the scratch
    workspace is gone. *)
Theorem step8_installs_the_repacked_archive (this : patcher) (s : state) :
  ~ tempDir this `prefix_of` originalAsar this ->
  (existsSync (newAsarPath this) (fs s) = false ->
     step8_CopyBack this s = (Throw (RepackedNotFound (newAsarPath this)), s)) /\
  (forall s', step8_CopyBack this s = (Ret tt, s') ->
     exists c m,
       fs s !! newAsarPath this = Some (File c m) /\
       fs s' !! originalAsar this = Some (File c (clock s)) /\
       existsSync (tempDir this) (fs s') = false /\
       (forall p, ~ tempDir this `prefix_of` p -> p <> originalAsar this ->
          fs s' !! p = fs s !! p)).
Proof.
  intros Hout. unfold step8_CopyBack. cbv zeta.
  unfold bind at 1, fs_existsSync at 1, gets at 1. split.
  - by intros ->.
  - intros s' H. apply bind_Ret_inv in H as (found & s1 & Hf & H).
    injection Hf as <- <-.
    destruct (negb (existsSync (newAsarPath this) (fs s))); [by cbv [throw] in H|].
    apply bind_Ret_inv in H as ([] & s2 & Hcopy & H).
    unfold fs_copyFileSync, lift_fs in Hcopy.
    destruct (copyFileSync _ _ _ _) as [err|f'] eqn:Hcp; [done|].
    injection Hcopy as <-.
    rewrite cleanup_unfold in H. injection H as <-.
    destruct (copyFileSync_dst _ _ _ _ _ Hcp) as (c & m & Hsrc & Hdst).
    exists c, m. split; [done|].
    change (fs (set_fs f' s)) with f'.
    destruct (existsSync (tempDir this) f') eqn:E; cbn [fs set_fs].
    + split; [by rewrite rmSync_outside|]. split; [apply rmSync_gone|].
      intros p Hp Hne. rewrite rmSync_outside by done.
      by apply (copyFileSync_frame _ _ _ _ _ _ Hcp).
    + split; [done|]. split; [done|].
      intros p Hp Hne. by apply (copyFileSync_frame _ _ _ _ _ _ Hcp).
Qed.

Lemma step8_witness :
  exists c m,
    fs ScenarioSteps.s_repacked !! newAsarPath Scenario.this0 = Some (File c m) /\
    fs (step8_CopyBack Scenario.this0 ScenarioSteps.s_repacked).2
      !! originalAsar Scenario.this0
    = Some (File c (clock ScenarioSteps.s_repacked)) /\
    existsSync (tempDir Scenario.this0)
      (fs (step8_CopyBack Scenario.this0 ScenarioSteps.s_repacked).2) = false /\
    (forall p, ~ tempDir Scenario.this0 `prefix_of` p -> p <> originalAsar Scenario.this0 ->
       fs (step8_CopyBack Scenario.this0 ScenarioSteps.s_repacked).2 !! p
       = fs ScenarioSteps.s_repacked !! p).
Proof.
  refine (proj2 (step8_installs_the_repacked_archive Scenario.this0
                   ScenarioSteps.s_repacked _) _ _).
  - apply (bool_decide_unpack _). vm_compute. exact I.
  - refine (Ret_eta _ _ _ _). vm_compute. reflexivity.
Defined.

(** *** The backup after a completed run *)

Lemma checkPatchSignature_flag e T asarPath s :
  useExistingBackup (checkPatchSignature e T asarPath s).2 = useExistingBackup s.
Proof.
  rewrite checkPatchSignature_unfold. cbv zeta.
  destruct (mkdirSync _ _) as [err|f1]; [done|].
  rewrite execSync_AsarExtract. cbv zeta.
  destruct (fs (set_fs f1 s) !! asarPath) as [[bytes m|]|]; [|done..].
  destruct (asar_extract T npm bytes); [|done].
  by destruct (fs _ !! (_ ++ _)) as [[c m'|]|].
Qed.

Lemma step0_KillDeezer_flag T this s :
  useExistingBackup (step0_KillDeezer T this s).2 = useExistingBackup s.
Proof.
  rewrite step0_KillDeezer_unfold. cbn [snd]. cbv zeta.
  repeat (match goal with |- context [if ?b then _ else _] => destruct b end); done.
Qed.

(** When [step0_CheckIfPatched] lets the pipeline go on, either the reuse
    flag is as it was, or it is set and a backup exists. *)
Lemma step0_CheckIfPatched_Ret_flag e T this s s' :
  step0_CheckIfPatched e T this s = (Ret tt, s') ->
  useExistingBackup s' = useExistingBackup s \/
  (useExistingBackup s' = true /\ existsSync (backupFile this) (fs s') = true).
Proof.
  rewrite step0_CheckIfPatched_unfold. destruct (negb _); [done|].
  pose proof (checkPatchSignature_flag e T (originalAsar this) s) as Hflag.
  destruct (checkPatchSignature e T (originalAsar this) s) as [[[]|err|code] s2];
    cbn [snd] in Hflag; try done.
  - destruct (existsSync (backupFile this) (fs s2)) eqn:Eb; [|done].
    destruct (askUserConfirmation e s2).1 as [[]| |]; try done.
    intros [= <-]. right. by split.
  - intros [= <-]. by left.
Qed.

Lemma keeps_after_backup e T this name P :
  tempDir this = os_tmpdir e ++ [name] ->
  (forall p, P p -> ~ related (os_tmpdir e) p) ->
  always (keeps P)
    (step2_CreateTempFolder this;;
     step3_ExtractAsar T this;;
     step4_RenameMainJs this;;
     step5_CopyNewMainJs e this;;
     step6_AddGhosteryDependencies T this;;
     step7_RepackAsar T this).
Proof.
  intros Htemp HP.
  repeat (apply keeps_bind; [|intros _]).
  - eapply keeps_step2_CreateTempFolder; eauto.
  - eapply keeps_step3_ExtractAsar; eauto.
  - eapply keeps_step4_RenameMainJs; eauto.
  - eapply keeps_step5_CopyNewMainJs; eauto.
  - eapply keeps_step6_AddGhosteryDependencies; eauto.
  - eapply keeps_step7_RepackAsar; eauto.
Qed.

Lemma completed_run_backup
    (e : env) (T : tools) (now : N) (this : patcher) (s s' : state) :
  DeezerPatcher e now = Some this ->
  this_platform this = win32 ->
  ~ related (os_tmpdir e) (deezerPath (paths this)) ->
  useExistingBackup s = false ->
  run e T this s = (Ret tt, s') ->
  exists node,
    fs s' !! backupFile this = Some node /\
    (fs s !! backupFile this = Some node \/
     (fs s !! backupFile this = None /\
      exists c m t, fs s !! originalAsar this = Some (File c m) /\ node = File c t)).
Proof.
  intros Hc Hwin Hsep Hflag Hrun.
  pose proof (constructed_tempDir _ _ _ Hc) as Htemp.
  pose proof (live_ne_backup _ _ _ Hc) as Hne.
  pose proof (backup_unrelated _ _ Hsep) as Hbk.
  pose proof (live_unrelated _ _ Hsep) as Hlv.
  rewrite run_pipeline in Hrun by done.
  destruct (pipeline e T this s) as [[[]|err|code] sE] eqn:Hp; try done.
  injection Hrun as ->.
  unfold pipeline in Hp. apply bind_Ret_inv in Hp as ([] & s7 & Hbefore & H8).
  unfold steps_before_CopyBack in Hbefore.
  apply bind_Ret_inv in Hbefore as ([] & s0 & Hkill & Hbefore).
  apply bind_Ret_inv in Hbefore as ([] & s1 & Hcheck & Hbefore).
  apply bind_Ret_inv in Hbefore as ([] & s2 & Hstep1 & Hrest).
  assert (Hs0 : s0 = (step0_KillDeezer T this s).2) by (by rewrite Hkill).
  assert (Hfs0 : fs s0 = fs s) by (rewrite Hs0; apply step0_KillDeezer_fs).
  assert (Hflag0 : useExistingBackup s0 = false).
  { by rewrite Hs0, step0_KillDeezer_flag. }
  (* the detection keeps the live archive and the backup *)
  set (P := fun p : path => p = backupFile this \/ p = originalAsar this).
  assert (HP : forall p, P p -> ~ related (os_tmpdir e) p) by (by intros p [->| ->]).
  assert (H01 : forall p, P p -> fs s1 !! p = fs s !! p).
  { intros p Hp. rewrite <- Hfs0.
    pose proof (keeps_step0_CheckIfPatched e T this P HP s0 p Hp) as Hk.
    by rewrite Hcheck in Hk. }
  (* everything after the backup step keeps the backup *)
  set (Q := fun p : path => p = backupFile this).
  assert (HQ : forall p, Q p -> ~ related (os_tmpdir e) p) by (by intros p ->).
  assert (H27 : fs s7 !! backupFile this = fs s2 !! backupFile this).
  { pose proof (keeps_after_backup e T this _ Q Htemp HQ s2 _ eq_refl) as Hk.
    by rewrite Hrest in Hk. }
  assert (H78 : fs s' !! backupFile this = fs s7 !! backupFile this).
  { assert (Hq8 : forall p, Q p -> p <> originalAsar this) by (by intros p ->).
    pose proof (keeps_step8_CopyBack e this _ Htemp Q HQ Hq8 s7 _ eq_refl) as Hk.
    by rewrite H8 in Hk. }
  rewrite H78, H27.
  destruct (fs s1 !! backupFile this) as [node|] eqn:Hb1.
  - (* a backup was there: the step changes nothing *)
    exists node. rewrite <- (H01 (backupFile this)) by (by left).
    assert (Hs2 : s2 = s1).
    { rewrite <- (step1_keeps_existing_backup this s1) by eauto. by rewrite Hstep1. }
    rewrite Hs2. split; [done|by left].
  - (* no backup: the flag cannot be set, and the step copies *)
    assert (Hnb : existsSync (backupFile this) (fs s1) = false).
    { unfold existsSync. rewrite Hb1. apply bool_decide_eq_false_2. by intros [? ?]. }
    assert (Hflag1 : useExistingBackup s1 = false).
    { destruct (step0_CheckIfPatched_Ret_flag _ _ _ _ _ Hcheck) as [->|[_ Hex]];
        [done|congruence]. }
    destruct (step1_copy e now this s1 s2 Hc Hflag1 Hnb Hstep1)
      as (c & m & Hlive & Hbackup & _).
    exists (File c (clock s1)). split; [done|]. right.
    rewrite <- (H01 (backupFile this)) by (by left).
    rewrite <- (H01 (originalAsar this)) by (by right).
    split; [done|]. by exists c, m, (clock s1).
Qed.

(** X10.  A run that returns has either done nothing at all, on a platform
    other than Windows, where [run] returns at once, or, on Windows, left
    a backup that is pristine: it is the backup that was there when the
    run started, untouched, or, when there was none, a copy of the live
    archive as it was when the run started (before it was replaced).  This
    is for a patcher as the constructor builds it, which starts with the
    reuse flag unset, and an installation that does not lie in the
    temporary directory of the system, nor the other way round. *)
Theorem completed_run_leaves_a_pristine_backup
    (e : env) (T : tools) (now : N) (this : patcher) (s s' : state) :
  DeezerPatcher e now = Some this ->
  ~ related (os_tmpdir e) (deezerPath (paths this)) ->
  useExistingBackup s = false ->
  run e T this s = (Ret tt, s') ->
  (this_platform this <> win32 /\ s' = s) \/
  (this_platform this = win32 /\
   exists node,
     fs s' !! backupFile this = Some node /\
     (fs s !! backupFile this = Some node \/
      (fs s !! backupFile this = None /\
       exists c m t, fs s !! originalAsar this = Some (File c m) /\ node = File c t))).
Proof.
  intros Hc Hsep Hflag Hrun.
  destruct (decide (this_platform this = win32)) as [Hwin|Hother].
  - right. split; [done|]. by eapply completed_run_backup.
  - left. split; [done|]. rewrite run_unfold in Hrun.
    rewrite decide_True in Hrun by done. by injection Hrun as <-.
Qed.

Lemma completed_run_witness :
  exists c m t,
    fs Scenario.s_fresh !! backupFile Scenario.this0 = None /\
    fs Scenario.s_fresh !! originalAsar Scenario.this0 = Some (File c m) /\
    fs (run Scenario.e0 Scenario.T0 Scenario.this0 Scenario.s_fresh).2
      !! backupFile Scenario.this0 = Some (File c t).
Proof.
  destruct (completed_run_leaves_a_pristine_backup
              Scenario.e0 Scenario.T0 Scenario.now0 Scenario.this0 Scenario.s_fresh
              (run Scenario.e0 Scenario.T0 Scenario.this0 Scenario.s_fresh).2)
    as [[Hother _]|(_ & node & Hnode & [Hold|(Hnone & c & m & t & Hlive & ->)])].
  - reflexivity.
  - apply (bool_decide_unpack _). vm_compute. exact I.
  - reflexivity.
  - refine (Ret_eta _ _ _ _). vm_compute. reflexivity.
  - exfalso. by apply Hother.
  - exfalso. assert (Hn : fs Scenario.s_fresh !! backupFile Scenario.this0 = None)
      by (vm_compute; reflexivity).
    rewrite Hn in Hold. discriminate Hold.
  - exists c, m, t. split; [exact Hnone|]. split; [exact Hlive|exact Hnode].
Defined.

(** *** What a run may execute *)

(** The commands a computation adds to the log satisfy [ok], and it
    leaves the reuse flag alone. *)
Definition quiet (ok : command -> Prop) : relation state :=
  fun s s' =>
    useExistingBackup s' = useExistingBackup s /\
    exists new, cmds s' = cmds s ++ new /\ Forall ok new.

#[local] Instance quiet_preorder ok : PreOrder (quiet ok).
Proof.
  split.
  - intros s. split; [done|]. exists []. by rewrite app_nil_r.
  - intros s1 s2 s3 [Hf12 (n12 & Hc12 & Hok12)] [Hf23 (n23 & Hc23 & Hok23)].
    split; [congruence|]. exists (n12 ++ n23).
    rewrite Hc23, Hc12, app_assoc. split; [done|]. by apply Forall_app.
Qed.

Section quiet.
Context (ok : command -> Prop).

Lemma quiet_same s s' :
  useExistingBackup s' = useExistingBackup s -> cmds s' = cmds s -> quiet ok s s'.
Proof. intros Hf Hc. split; [done|]. exists []. by rewrite app_nil_r. Qed.

Lemma quiet_lift_fs d op : always (quiet ok) (lift_fs d op).
Proof. intros s. unfold lift_fs. destruct (op (fs s)); by apply quiet_same. Qed.

Lemma quiet_copyFileSync src dst : always (quiet ok) (fs_copyFileSync src dst).
Proof. intros s. unfold fs_copyFileSync. apply quiet_lift_fs. Qed.

Lemma quiet_readFileSync p : always (quiet ok) (fs_readFileSync p).
Proof.
  intros s. unfold fs_readFileSync. destruct (readFileSync _ _); by apply quiet_same.
Qed.

Lemma quiet_sleep ms : always (quiet ok) (sleep ms).
Proof. intros s. by apply quiet_same. Qed.

Lemma quiet_execSync T c : ok c -> always (quiet ok) (execSync T c).
Proof.
  intros Hok s. split.
  - unfold execSync. destruct c as [|force|pm src dst|pm src dst|goal cwd]; cbv zeta.
    + by destruct (running _).
    + by destruct (_ && _).
    + destruct (fs _ !! src) as [[bytes m|]|]; try done.
      by destruct (asar_extract _ _ _).
    + destruct (is_dir _); [|done]. by destruct (asar_pack _ _ _).
    + destruct (is_dir _); [|done]. by destruct (npm_install _ _ _).
  - exists [c]. split; [|by apply Forall_singleton].
    unfold execSync. destruct c as [|force|pm src dst|pm src dst|goal cwd]; cbv zeta.
    + by destruct (running _).
    + by destruct (_ && _).
    + destruct (fs _ !! src) as [[bytes m|]|]; try done.
      by destruct (asar_extract _ _ _).
    + destruct (is_dir _); [|done]. by destruct (asar_pack _ _ _).
    + destruct (is_dir _); [|done]. by destruct (npm_install _ _ _).
Qed.

End quiet.

Ltac quiet_steps :=
  unfold fs_existsSync, fs_mkdirSync, fs_rmSync, fs_renameSync;
  repeat first
    [ apply quiet_lift_fs | apply quiet_copyFileSync | apply quiet_readFileSync
    | apply quiet_sleep
    | apply always_ret, _ | apply always_throw, _ | apply always_exit, _
    | apply always_gets, _
    | apply always_bind; [apply _| |intros ?]
    | apply always_try; [apply _| |intros ?]
    | match goal with |- always _ (if ?b then _ else _) => destruct b end ].

Lemma step0_KillDeezer_cmds T this s :
  exists new,
    cmds (step0_KillDeezer T this s).2 = cmds s ++ new /\
    Forall (fun c => c = Tasklist \/ exists force, c = Taskkill force) new.
Proof.
  rewrite step0_KillDeezer_unfold. cbn [snd]. cbv zeta.
  destruct s as [f c cm [run g fo] an fl]. cbn.
  destruct (decide _); [|exists []; by rewrite app_nil_r].
  destruct run; cbn;
    [|exists [Tasklist]; split; [done|repeat (apply Forall_cons; split; [eauto|])]; done].
  destruct g; cbn.
  { exists [Tasklist; Taskkill false]. rewrite <- app_assoc.
    split; [reflexivity|]. repeat (apply Forall_cons; split; [eauto|]). done. }
  exists [Tasklist; Taskkill false; Taskkill true].
  destruct fo; cbn; rewrite <- !app_assoc; (split; [reflexivity|]);
    repeat (apply Forall_cons; split; [eauto|]); done.
Qed.

(** X11.  A re-patch never extracts the live archive into the workspace: in a
    run whose detection finds the live archive patched, none of the
    commands the run executes is an extraction of the live archive into
    [<tempDir>/extracted], however the run ends. *)
Theorem repatch_never_extracts_the_live_archive
    (e : env) (T : tools) (now : N) (this : patcher) (s : state) :
  DeezerPatcher e now = Some this ->
  this_platform this = win32 ->
  (checkPatchSignature e T (originalAsar this) (step0_KillDeezer T this s).2).1 = Ret true ->
  exists new,
    cmds (run e T this s).2 = cmds s ++ new /\
    forall pm, AsarExtract pm (originalAsar this) (extractPath this) ∉ new.
Proof.
  intros Hc Hwin Hdet.
  pose proof (constructed_tempDir _ _ _ Hc) as Htemp.
  pose proof (live_ne_backup _ _ _ Hc) as Hne.
  set (ok := fun c : command =>
         forall pm, c <> AsarExtract pm (originalAsar this) (extractPath this)).
  (* from the state after the check on, with the flag set *)
  set (R := fun s1 s2 : state =>
         useExistingBackup s1 = true -> quiet ok s1 s2).
  assert (HR : PreOrder R).
  { split.
    - intros s1 _. reflexivity.
    - intros s1 s2 s3 H12 H23 Hf. specialize (H12 Hf).
      etransitivity; [exact H12|]. apply H23. destruct H12 as [-> _]. done. }
  assert (Hmono : forall A (m : M A), always (quiet ok) m -> always R m).
  { intros A m Hm s1 _. apply Hm. }
  assert (Hrest : always R
            (step1_CreateBackup this;;
             step2_CreateTempFolder this;;
             step3_ExtractAsar T this;;
             step4_RenameMainJs this;;
             step5_CopyNewMainJs e this;;
             step6_AddGhosteryDependencies T this;;
             step7_RepackAsar T this)).
  { repeat (apply always_bind; [done| |intros _]).
    3: { intros s1 Hf. unfold step3_ExtractAsar, bind, gets. rewrite Hf.
         apply quiet_execSync. intros pm [= _ H]. by apply Hne. }
    all: apply Hmono.
    - unfold step1_CreateBackup. quiet_steps.
    - unfold step2_CreateTempFolder. quiet_steps.
    - unfold step4_RenameMainJs. quiet_steps.
    - unfold step5_CopyNewMainJs. quiet_steps.
    - unfold step6_AddGhosteryDependencies. quiet_steps;
        apply quiet_execSync; by intros pm.
    - unfold step7_RepackAsar. apply quiet_execSync. by intros pm. }
  assert (H8 : always R (step8_CopyBack this)).
  { apply Hmono. unfold step8_CopyBack, cleanup. quiet_steps. }
  assert (Hclean : forall s1, quiet ok s1 (cleanup this s1).2).
  { intros s1. rewrite cleanup_unfold. cbn [snd].
    destruct (existsSync _ _); by apply quiet_same. }
  (* the two steps before *)
  set (s0 := (step0_KillDeezer T this s).2) in *.
  assert (Hkill : exists new, cmds s0 = cmds s ++ new /\ Forall ok new).
  { destruct (step0_KillDeezer_cmds T this s) as (new & Hn & Hall).
    exists new. split; [done|]. eapply Forall_impl; [exact Hall|].
    intros c [->|[force ->]] pm; done. }
  destruct (checkPatchSignature_true _ _ _ _ Hdet) as [Hfile Hcmds].
  assert (Ho : negb (existsSync (originalAsar this) (fs s0)) = false).
  { unfold existsSync. rewrite bool_decide_eq_true_2; [done|].
    destruct (fs s0 !! originalAsar this) as [[? ?|]|]; by eauto. }
  set (s2 := (checkPatchSignature e T (originalAsar this) s0).2) in *.
  assert (Hcheck_ok : ok (AsarExtract npm (originalAsar this) (tempCheck_at e (clock s0)))).
  { intros pm [= _ H]. unfold tempCheck_at, extractPath in H. rewrite Htemp in H.
    rewrite <- app_assoc in H. apply app_inv_head in H. discriminate H. }
  assert (Hafter : exists new, cmds (run e T this s).2 = cmds s2 ++ new /\ Forall ok new).
  { destruct (step0_CheckIfPatched e T this s0) as [o s1] eqn:Hcheck.
    destruct o as [[]|err|code].
    - (* the pipeline goes on, as a re-patch *)
      pose proof (repatch_sets_flag _ _ _ _ _ Hdet Hcheck) as Hf1.
      assert (Hc1 : cmds s1 = cmds s2).
      { rewrite step0_CheckIfPatched_unfold, Ho in Hcheck.
        subst s2.
        destruct (checkPatchSignature e T (originalAsar this) s0) as [[[]|?|?] s2'];
          try done; cbn [snd].
        all: try (destruct (existsSync (backupFile this) (fs s2')); [|done]).
        all: try (destruct (askUserConfirmation e s2').1 as [[]| |]; try done).
        all: unfold set_useExistingBackup in Hcheck; by injection Hcheck as <-. }
      rewrite <- Hc1.
      rewrite run_pipeline by done. unfold pipeline, steps_before_CopyBack.
      unfold bind at 1.
      rewrite (bind_Ret_step _ _ _ _ _ (step0_KillDeezer_Ret T this s)). fold s0.
      unfold bind at 1. rewrite Hcheck.
      pose proof (Hrest s1 Hf1) as [Hf7 Hq7].
      destruct ((step1_CreateBackup this;; _) s1) as [[[]|err|code] s7]; cbn [snd] in *.
      + pose proof (H8 s7 (eq_trans Hf7 Hf1)) as [_ Hq8].
        destruct Hq7 as (n7 & Hc7 & Hok7).
        destruct (step8_CopyBack this s7) as [[[]|err|code] s8]; cbn [snd] in *;
          destruct Hq8 as (n8 & Hc8 & Hok8).
        * exists (n7 ++ n8). rewrite Hc8, Hc7, <- app_assoc.
          split; [done|by apply Forall_app].
        * destruct (Hclean s8) as [_ (n9 & Hc9 & Hok9)].
          exists (n7 ++ n8 ++ n9). rewrite Hc9, Hc8, Hc7, <- !app_assoc. split; [done|].
          apply Forall_app. split; [done|]. by apply Forall_app.
        * exists (n7 ++ n8). rewrite Hc8, Hc7, <- app_assoc.
          split; [done|by apply Forall_app].
      + destruct (Hclean s7) as [_ (n9 & Hc9 & Hok9)].
        destruct Hq7 as (n7 & Hc7 & Hok7).
        exists (n7 ++ n9). rewrite Hc9, Hc7, <- app_assoc. split; [done|by apply Forall_app].
      + done.
    - (* the check threw *)
      rewrite (run_stops_where_check_stops _ _ _ _ _ _ Hwin Hcheck) by done.
      rewrite step0_CheckIfPatched_unfold, Ho in Hcheck. subst s2.
      destruct (checkPatchSignature e T (originalAsar this) s0) as [[[]|?|?] s2'];
        try done; cbn [snd] in *.
      destruct (existsSync (backupFile this) (fs s2')); [|done].
      by destruct (askUserConfirmation e s2').1 as [[]| |].
    - (* the check exited *)
      rewrite (run_stops_where_check_stops _ _ _ _ _ _ Hwin Hcheck) by done.
      apply step0_CheckIfPatched_Exit in Hcheck as (_ & -> & _). fold s2.
      exists []. by rewrite app_nil_r. }
  destruct Hkill as (n0 & Hc0 & Hok0), Hafter as (n2 & Hc2 & Hok2).
  exists (n0 ++ [AsarExtract npm (originalAsar this) (tempCheck_at e (clock s0))] ++ n2).
  split.
  - rewrite Hc2, Hcmds, Hc0. by rewrite <- !app_assoc.
  - intros pm Hin. apply elem_of_app in Hin as [Hin|Hin];
      [|apply elem_of_app in Hin as [Hin|Hin]].
    + rewrite Forall_forall in Hok0. by apply (Hok0 _ Hin pm).
    + apply list_elem_of_singleton in Hin. by apply (Hcheck_ok pm).
    + rewrite Forall_forall in Hok2. by apply (Hok2 _ Hin pm).
Qed.

Lemma repatch_witness :
  exists new,
    cmds (run Scenario.e0 Scenario.T0 Scenario.this0 Scenario.s_patched_with_backup).2
      = cmds Scenario.s_patched_with_backup ++ new /\
    forall pm, AsarExtract pm (originalAsar Scenario.this0) (extractPath Scenario.this0) ∉ new.
Proof.
  apply (repatch_never_extracts_the_live_archive
           Scenario.e0 Scenario.T0 Scenario.now0 Scenario.this0
           Scenario.s_patched_with_backup).
  - reflexivity.
  - reflexivity.
  - vm_compute. reflexivity.
Defined.

(** *** The detector *)

(** X12.  The detector is read-only and cannot fail: [checkPatchSignature]
    always returns a verdict, never throws and never exits; it leaves every
    path alone that is not related to its throwaway directory, the archive
    it inspects included; it keeps the reuse flag; and it runs at most one
    command, the extraction into the throwaway directory. *)
Theorem detector_is_read_only
    (e : env) (T : tools) (asarPath : path) (s : state) :
  let tempCheck := tempCheck_at e (clock s) in
  let r := checkPatchSignature e T asarPath s in
  (exists verdict, r.1 = Ret verdict) /\
  (forall p, ~ related tempCheck p -> fs r.2 !! p = fs s !! p) /\
  useExistingBackup r.2 = useExistingBackup s /\
  (cmds r.2 = cmds s \/ cmds r.2 = cmds s ++ [AsarExtract npm asarPath tempCheck]).
Proof.
  intros tempCheck r. subst r.
  split; [apply checkPatchSignature_total|].
  split; [intros p; apply checkPatchSignature_frame|].
  split; [apply checkPatchSignature_flag|].
  rewrite checkPatchSignature_unfold. cbv zeta. fold tempCheck.
  destruct (mkdirSync _ _) as [err|f1]; [by left|].
  rewrite execSync_AsarExtract. cbv zeta.
  destruct (fs (set_fs f1 s) !! asarPath) as [[bytes m|]|]; [|by right..].
  destruct (asar_extract T npm bytes); [|by right].
  destruct (fs _ !! (_ ++ _)) as [[c m'|]|]; by right.
Qed.

(** *** The command line *)

(** X13.  With [--setup-macos], [--setup-linux], [--help] or [-h] among the
    arguments the script exits with status 0 and patches nothing: the
    state is as it was.  In every case the script ends by returning or
    with status 0 or 1; no error escapes it. *)
Theorem cli_flags_print_and_patch_nothing
    (e : env) (T : tools) (args : list string) (s : state) :
  (("--setup-macos" ∈ args \/ "--setup-linux" ∈ args \/ "--help" ∈ args \/ "-h" ∈ args) ->
     Cli.main e T args s = (Exit 0, s)) /\
  ((Cli.main e T args s).1 = Ret tt \/
   (Cli.main e T args s).1 = Exit 0 \/
   (Cli.main e T args s).1 = Exit 1).
Proof.
  unfold Cli.main. split.
  - intros H.
    destruct (bool_decide ("--setup-macos" ∈ args)) eqn:E1; [done|].
    destruct (bool_decide ("--setup-linux" ∈ args)) eqn:E2; [done|].
    destruct (bool_decide ("--help" ∈ args)) eqn:E3; [done|].
    destruct (bool_decide ("-h" ∈ args)) eqn:E4; [done|].
    apply bool_decide_eq_false in E1, E2, E3, E4. tauto.
  - destruct (bool_decide _); [auto|].
    destruct (bool_decide _); [auto|].
    destruct (_ || _); [auto|].
    destruct (DeezerPatcher e (clock s)) as [this|]; [|auto].
    unfold try_catch.
    pose proof (run_status e T this s) as Hst.
    destruct (run e T this s) as [[[]|err|code] s1]; cbn [fst] in *; auto.
Qed.

Lemma cli_help_witness :
  Cli.main Scenario.e0 Scenario.T0 ["--verbose"; "--help"] Scenario.s_fresh
    = (Exit 0, Scenario.s_fresh).
Proof.
  apply (proj1 (cli_flags_print_and_patch_nothing Scenario.e0 Scenario.T0
                  ["--verbose"; "--help"] Scenario.s_fresh)).
  right. right. left. apply (bool_decide_unpack _). vm_compute. exact I.
Defined.

End PatcherExtras.

(* ===================================================================== *)
(** ** The injection wrappers: further properties *)
(* ===================================================================== *)

Module WrapperExtras.
Import Electron WrapperSpec WrapperSpecMore WrapperClaims JsFacts.

(** *** The environment flags *)

Lemma ensure_yes_env k a :
  process_env (ensure_yes k a) = <[k := "yes"]> (process_env a).
Proof.
  unfold ensure_yes. destruct (bool_decide _) eqn:E; [|done].
  apply bool_decide_eq_true in E. by rewrite insert_id.
Qed.

Lemma run_calls_env cs a : process_env (run_calls cs a).2 = process_env a.
Proof.
  revert a. induction cs as [|[ev l|ev l|ev l|] cs IH]; intros a; simpl; try done.
  - rewrite IH. unfold app_on. destruct (on_patched a); [|done].
    by destruct (bool_decide _).
  - rewrite IH. unfold app_once, app_on. destruct (on_patched a); [|done].
    by destruct (bool_decide _).
  - by rewrite IH.
Qed.

(** X14.  Loading the wrapper leaves [DZ_DEVTOOLS] and [DZ_DISABLE_UPDATE] at
    ["yes"] and every other variable as it was; a variable that is
    already ["yes"] is not written, so setting the flags again changes
    nothing. *)
Theorem wrapper_sets_the_two_flags (m : main_module) (a : app) :
  let env' := process_env (Ghostery.load m a).2 in
  env' !! "DZ_DEVTOOLS" = Some "yes" /\
  env' !! "DZ_DISABLE_UPDATE" = Some "yes" /\
  (forall k, k <> "DZ_DEVTOOLS" -> k <> "DZ_DISABLE_UPDATE" ->
     env' !! k = process_env a !! k) /\
  set_env_flags (set_env_flags a) = set_env_flags a /\
  (process_env a !! "DZ_DEVTOOLS" = Some "yes" ->
   process_env a !! "DZ_DISABLE_UPDATE" = Some "yes" ->
   set_env_flags a = a).
Proof.
  intros env'.
  assert (Henv : env' = <["DZ_DISABLE_UPDATE" := "yes"]>
                          (<["DZ_DEVTOOLS" := "yes"]> (process_env a))).
  { subst env'. unfold Ghostery.load, require_original.
    pose proof (run_calls_env (calls m) (patch_app_on (set_env_flags a))) as He.
    destruct (run_calls _ _) as [[] a']; cbn [snd] in *; rewrite He;
      unfold set_env_flags; simpl; by rewrite !ensure_yes_env. }
  assert (Hidem : forall b,
            process_env b !! "DZ_DEVTOOLS" = Some "yes" ->
            process_env b !! "DZ_DISABLE_UPDATE" = Some "yes" ->
            set_env_flags b = b).
  { intros b H1 H2. unfold set_env_flags, ensure_yes.
    rewrite (bool_decide_eq_true_2 _ H1). by rewrite (bool_decide_eq_true_2 _ H2). }
  rewrite Henv. split; [|split; [|split; [|split]]].
  - rewrite lookup_insert_ne by done. by rewrite lookup_insert_eq.
  - by rewrite lookup_insert_eq.
  - intros k H1 H2. by rewrite !lookup_insert_ne.
  - apply Hidem; unfold set_env_flags; rewrite !ensure_yes_env.
    + rewrite lookup_insert_ne by done. by rewrite lookup_insert_eq.
    + by rewrite lookup_insert_eq.
  - apply Hidem.
Qed.

(** *** The exports *)

Lemma run_calls_threw cs a : (run_calls cs a).1 = bool_decide (Raise ∈ cs).
Proof.
  revert a. induction cs as [|[ev l|ev l|ev l|] cs IH]; intros a; cbn [run_calls fst].
  - symmetry. apply bool_decide_eq_false_2. by intros H%elem_of_nil.
  - rewrite IH. apply bool_decide_ext. rewrite elem_of_cons.
    split; [by right|by intros [?|?]].
  - rewrite IH. apply bool_decide_ext. rewrite elem_of_cons.
    split; [by right|by intros [?|?]].
  - rewrite IH. apply bool_decide_ext. rewrite elem_of_cons.
    split; [by right|by intros [?|?]].
  - symmetry. apply bool_decide_eq_true_2. left.
Qed.

(** X15.  The wrapper re-exports what the original main module exports, and
    exports [undefined] exactly when that module throws while it is
    required; in both cases [bootstrap] runs to its end. *)
Theorem wrapper_reexports_the_original_exports
    (raises : listener -> bool) (O : Ghostery.adblock_oracle)
    (m : main_module) (a : app) :
  let r := Ghostery.lifecycle raises O m a in
  r.1 = (if bool_decide (Raise ∈ calls m) then None else Some (main_exports m)) /\
  last (trace r.2) = Some AppOnRestored /\
  on_patched r.2 = false.
Proof.
  intros r. subst r. unfold Ghostery.lifecycle, Ghostery.load, require_original.
  pose proof (run_calls_threw (calls m) (patch_app_on (set_env_flags a))) as Ht.
  destruct (run_calls _ _) as [threw a1]. cbn [fst] in Ht. subst threw.
  destruct (bool_decide (Raise ∈ calls m)); cbn [fst snd];
    rewrite bootstrap_shape; cbn [trace on_patched];
    (split; [done|]); (split; [|done]);
    by rewrite !app_assoc, last_snoc.
Qed.

(** *** [initAdblocker] *)

(** X16.  [initAdblocker] always resolves, and with what it resolves follows
    from what it meets: the blocker when the modules load, the engine
    loads and the hook on the default session goes through; otherwise the
    manual rules when their setup works, and [null] when it does not.  It
    adds its two hooks for new sessions and new web contents to Electron's
    table exactly when it does not resolve with [null], through the
    replaced [app.on] or not, and it captures nothing. *)
Theorem initAdblocker_settles (O : Ghostery.adblock_oracle) (a : app) :
  let r := (Ghostery.initAdblocker O a).1 in
  let a' := (Ghostery.initAdblocker O a).2 in
  let ghostery_works :=
    Ghostery.deps_load O && engine_loads O && Ghostery.hook_default_session O in
  r = (if ghostery_works then Blocker
       else if Ghostery.manual_setup O then Manual else NoBlocker) /\
  emitter a' = emitter a ++ hook_rows r /\
  readyListeners a' = readyListeners a /\
  on_patched a' = on_patched a /\
  trace a' = trace a ++ [InitStarted; InitResolved r].
Proof.
  intros r a' works. subst a'. rewrite initAdblocker_shape. fold r. cbn.
  split; [|done]. subst r works.
  unfold Ghostery.initAdblocker, Ghostery.ghostery_attempt, engine_loads.
  destruct O as [d c n h m].
  by destruct d, c as [[]| |], n as [[]| |], h, m.
Qed.

(** *** What the wrapper withholds from Electron *)

Lemma run_calls_plain cs a :
  on_patched a = false ->
  emitter (run_calls cs a).2 = emitter a ++ omap row_of (performed cs).
Proof.
  revert a. induction cs as [|[ev l|ev l|ev l|] cs IH]; intros a Hp;
    cbn [run_calls snd performed omap row_of].
  - by rewrite app_nil_r.
  - rewrite IH by (unfold app_on; by rewrite Hp).
    unfold app_on. rewrite Hp. cbn. by rewrite <- app_assoc.
  - rewrite IH by (unfold app_once; by rewrite Hp).
    unfold app_once. rewrite Hp. cbn. by rewrite <- app_assoc.
  - rewrite IH by done. cbn. by rewrite <- app_assoc.
  - by rewrite app_nil_r.
Qed.

Lemma direct_rows_performed cs :
  direct_rows cs = omap row_of (filter (fun c => ~ reaches_on_ready c) (performed cs)) /\
  ready_via_on cs = reg_listener <$> omap row_of (filter reaches_on_ready (performed cs)).
Proof.
  induction cs as [|[ev l|ev l|ev l|] cs [IHd IHr]];
    cbn [direct_rows ready_via_on performed]; [done| | | |done];
    rewrite !filter_cons; cbn [reaches_on_ready].
  - destruct (bool_decide (ev = "ready")) eqn:E.
    + apply bool_decide_eq_true in E.
      rewrite decide_False by (intros H; by apply H).
      rewrite decide_True by done. cbn. by rewrite IHd, IHr.
    + apply bool_decide_eq_false in E.
      rewrite decide_True by done. rewrite decide_False by done. cbn. by rewrite IHd, IHr.
  - destruct (bool_decide (ev = "ready")) eqn:E.
    + apply bool_decide_eq_true in E.
      rewrite decide_False by (intros H; by apply H).
      rewrite decide_True by done. cbn. by rewrite IHd, IHr.
    + apply bool_decide_eq_false in E.
      rewrite decide_True by done. rewrite decide_False by done. cbn. by rewrite IHd, IHr.
  - rewrite decide_True by (by intros []). rewrite decide_False by (by intros []).
    cbn. by rewrite IHd, IHr.
Qed.

(** X17.  The wrapper is transparent but for what ends in
    [app.on('ready', _)]: compared with requiring the original main
    module directly, requiring it through the wrapper gives Electron's
    table the rows of the same calls in the same order, less those of the
    calls [app.on('ready', _)] and [app.once('ready', _)]; the listeners of
    exactly those calls, in that order, are the captured ones.  A
    listener registered with [app.addListener] reaches the table in both
    cases. *)
Theorem wrapper_withholds_only_on_ready (m : main_module) (a : app) :
  on_patched a = false ->
  let made := performed (calls m) in
  emitter (run_calls (calls m) a).2 = emitter a ++ omap row_of made /\
  emitter (Ghostery.load m a).2
    = emitter a ++ omap row_of (filter (fun c => ~ reaches_on_ready c) made) /\
  readyListeners (Ghostery.load m a).2
    = reg_listener <$> omap row_of (filter reaches_on_ready made).
Proof.
  intros Hp made.
  destruct (direct_rows_performed (calls m)) as [Hd Hr].
  destruct (load_shape m a) as (Hrl & Hem & _).
  split; [by apply run_calls_plain|]. subst made. by rewrite Hem, Hrl, Hd, Hr.
Qed.

Lemma withholds_witness :
  let m := {| calls := [On "ready" (MainListener 1); On "window-all-closed" (MainListener 2);
                        Once "ready" (MainListener 3); AddListener "ready" (MainListener 4);
                        Once "activate" (MainListener 5)];
              main_exports := "main" |} in
  emitter (Ghostery.load m fresh_app).2
    = [ {| reg_event := "window-all-closed"; reg_once := false;
           reg_listener := MainListener 2 |};
        {| reg_event := "ready"; reg_once := false; reg_listener := MainListener 4 |};
        {| reg_event := "activate"; reg_once := true; reg_listener := MainListener 5 |} ] /\
  readyListeners (Ghostery.load m fresh_app).2 = [MainListener 1; MainListener 3].
Proof.
  intros m.
  destruct (wrapper_withholds_only_on_ready m fresh_app eq_refl) as (_ & He & Hr).
  split; [exact He|exact Hr].
Defined.

(** *** The manual rules *)

Lemma lower_ascii_idemp a : Js.lower_ascii (Js.lower_ascii a) = Js.lower_ascii a.
Proof. by destruct a as [[] [] [] [] [] [] [] []]. Qed.

Lemma lower_ascii_is_ascii a :
  Js.is_ascii_char a = true -> Js.is_ascii_char (Js.lower_ascii a) = true.
Proof. by destruct a as [[] [] [] [] [] [] [] []]. Qed.

Lemma ascii_toLowerCase_idemp s :
  Js.ascii_toLowerCase (Js.ascii_toLowerCase s) = Js.ascii_toLowerCase s.
Proof. induction s as [|a s IH]; simpl; [done|]. by rewrite lower_ascii_idemp, IH. Qed.

Lemma ascii_toLowerCase_is_ascii s :
  Js.is_ascii s = true -> Js.is_ascii (Js.ascii_toLowerCase s) = true.
Proof.
  induction s as [|a s IH]; simpl; [done|].
  intros [Ha Hs]%andb_prop. by rewrite lower_ascii_is_ascii, IH.
Qed.

Lemma ascii_toLowerCase_app s1 s2 :
  Js.ascii_toLowerCase (s1 +:+ s2) = Js.ascii_toLowerCase s1 +:+ Js.ascii_toLowerCase s2.
Proof. induction s1 as [|a s1 IH]; simpl; [done|]. by rewrite IH. Qed.

Lemma occurs_in_lower u v :
  Js.occurs_in u v -> Js.occurs_in (Js.ascii_toLowerCase u) (Js.ascii_toLowerCase v).
Proof.
  intros (pre & post & ->). exists (Js.ascii_toLowerCase pre), (Js.ascii_toLowerCase post).
  by rewrite !ascii_toLowerCase_app.
Qed.

Lemma string_app_assoc (s1 s2 s3 : string) : (s1 +:+ s2) +:+ s3 = s1 +:+ (s2 +:+ s3).
Proof.
  induction s1 as [|a s1 IH]; [reflexivity|].
  change (String a ((s1 +:+ s2) +:+ s3) = String a (s1 +:+ s2 +:+ s3)). by f_equal.
Qed.

Lemma occurs_in_trans f u v : Js.occurs_in f u -> Js.occurs_in u v -> Js.occurs_in f v.
Proof.
  intros (p1 & q1 & ->) (p2 & q2 & ->).
  exists (p2 +:+ p1), (q1 +:+ q2). by rewrite !string_app_assoc.
Qed.

Lemma pattern_handler_spec (toLowerCase : string -> string) (url : string) :
  ManualRules.pattern_handler toLowerCase url = ManualRules.Cancel <->
  exists fragment,
    fragment ∈ ManualRules.fragments /\ Js.occurs_in fragment (toLowerCase url).
Proof.
  unfold ManualRules.pattern_handler. cbv zeta.
  destruct (existsb _ _) eqn:E.
  - split; [intros _|done]. apply existsb_exists in E as (f & Hin & Hf).
    exists f. split; [by apply list_elem_of_In|by apply includes_spec].
  - split; [done|]. intros (f & Hin & Hf). exfalso.
    assert (existsb (fun fragment => Js.includes fragment (toLowerCase url))
              ManualRules.fragments = true); [|congruence].
    apply existsb_exists. exists f. split; [by apply list_elem_of_In|by apply includes_spec].
Qed.

(** X18.  The pattern handler of the manual rules cancels a request
    exactly when its URL, lower-cased by the runtime, contains one of the
    fragments.  For URLs of ASCII characters, as serialized URLs are, on
    which [toLowerCase] turns [A-Z] into [a-z] and nothing else, the
    verdict does not depend on the letter case of the URL, and a URL that
    embeds a cancelled URL is cancelled as well. *)
Theorem manual_rules_match_any_case_anywhere
    (toLowerCase : string -> string) (url : string) :
  (ManualRules.pattern_handler toLowerCase url = ManualRules.Cancel <->
   exists fragment,
     fragment ∈ ManualRules.fragments /\ Js.occurs_in fragment (toLowerCase url)) /\
  (Js.lowers_ascii toLowerCase -> Js.is_ascii url = true ->
   ManualRules.pattern_handler toLowerCase (toLowerCase url)
     = ManualRules.pattern_handler toLowerCase url /\
   (forall longer,
      Js.is_ascii longer = true ->
      Js.occurs_in url longer ->
      ManualRules.pattern_handler toLowerCase url = ManualRules.Cancel ->
      ManualRules.pattern_handler toLowerCase longer = ManualRules.Cancel)).
Proof.
  split; [apply pattern_handler_spec|]. intros Hlow Hurl. split.
  - unfold ManualRules.pattern_handler. cbv zeta.
    rewrite (Hlow url Hurl).
    rewrite (Hlow _ (ascii_toLowerCase_is_ascii _ Hurl)).
    by rewrite ascii_toLowerCase_idemp.
  - intros longer Hlong Hin. rewrite !pattern_handler_spec.
    intros (f & Hf & Hocc). exists f. split; [done|].
    rewrite (Hlow longer Hlong). rewrite (Hlow url Hurl) in Hocc.
    eapply occurs_in_trans; [exact Hocc|]. by apply occurs_in_lower.
Qed.

Lemma manual_rules_witness :
  ManualRules.pattern_handler Js.ascii_toLowerCase "https://cdn.example/Ads/banner.js"
    = ManualRules.Cancel /\
  ManualRules.pattern_handler Js.ascii_toLowerCase
      "https://proxy.example/?u=https://cdn.example/Ads/banner.js&x=1"
    = ManualRules.Cancel.
Proof.
  assert (H : ManualRules.pattern_handler Js.ascii_toLowerCase
                "https://cdn.example/Ads/banner.js" = ManualRules.Cancel)
    by (vm_compute; reflexivity).
  split; [exact H|].
  refine (proj2 (proj2 (manual_rules_match_any_case_anywhere Js.ascii_toLowerCase
                          "https://cdn.example/Ads/banner.js")
                   (fun s _ => eq_refl) eq_refl)
            "https://proxy.example/?u=https://cdn.example/Ads/banner.js&x=1" eq_refl _ H).
  exists "https://proxy.example/?u=", "&x=1". reflexivity.
Defined.

End WrapperExtras.

(* ===================================================================== *)
(** ** loadextention.js: extracting the extension *)
(* ===================================================================== *)

Module ExtensionExtras.
Import Fs FsFacts ExtensionFiles.

Lemma ensure_dir_grows (q : path) (f : fsys) : f ⊆ ensure_dir q f.
Proof.
  unfold ensure_dir. destruct (f !! q) eqn:Hq; [done|]. by apply insert_subseteq.
Qed.

Lemma mkdir_p_grows (d : path) (f : fsys) : f ⊆ mkdir_p d f.
Proof.
  unfold mkdir_p. generalize (d :: ancestors d). intros l.
  induction l as [|q l IH]; simpl; [done|].
  etransitivity; [exact IH|apply ensure_dir_grows].
Qed.

Lemma mkdirSync_grows (d : path) (f f' : fsys) : mkdirSync d f = inr f' -> f ⊆ f'.
Proof.
  unfold mkdirSync. destruct (existsb _ _); [done|]. destruct (is_file _); [done|].
  intros [= <-]. apply mkdir_p_grows.
Qed.

Lemma copyFileSync_fresh_grows (src dst : path) (now : N) (f f' : fsys) :
  existsSync dst f = false -> copyFileSync src dst now f = inr f' -> f ⊆ f'.
Proof.
  intros Hd. unfold copyFileSync.
  destruct (f !! src) as [[c m|]|]; try done.
  destruct (negb _); [done|]. destruct (is_dir _); [done|].
  intros [= <-]. apply insert_subseteq.
  apply bool_decide_eq_false in Hd. by apply eq_None_not_Some.
Qed.

Lemma copyDirRecursive_unfold (fuel' : nat) (src dest : path) (now : N) (f : fsys) :
  copyDirRecursive (S fuel') src dest now f =
  match (if existsSync dest f then inr f else mkdirSync dest f) with
  | inl e => Some (Some e, f)
  | inr f1 =>
      match readdirSync src f1 with
      | inl e => Some (Some e, f1)
      | inr entries =>
          foldl (copy_entry (copyDirRecursive fuel') src dest now) (Some (None, f1)) entries
      end
  end.
Proof. reflexivity. Qed.

Lemma copy_loop_grows (rec : path -> path -> N -> fsys -> option ending)
    (src dest : path) (now : N) (f : fsys) e f' :
  (forall s d f0 e0 f1, rec s d now f0 = Some (e0, f1) -> f0 ⊆ f1) ->
  forall entries acc,
    (forall e0 f0, acc = Some (e0, f0) -> f ⊆ f0) ->
    foldl (copy_entry rec src dest now) acc entries = Some (e, f') -> f ⊆ f'.
Proof.
  intros Hrec entries. induction entries as [|x xs IHxs]; intros acc Hacc; simpl.
  - apply Hacc.
  - apply IHxs. intros e0 f0. unfold copy_entry.
    destruct acc as [[[err|] f2]|]; [by apply Hacc| |done].
    specialize (Hacc None f2 eq_refl). cbv zeta.
    destruct (f2 !! (src ++ [x])) as [[c m|]|].
    + destruct (existsSync (dest ++ [x]) f2) eqn:Ex; [by intros [= _ <-]|].
      destruct (copyFileSync _ _ _ _) as [err|f3] eqn:Hcp; [by intros [= _ <-]|].
      intros [= _ <-]. etransitivity; [exact Hacc|].
      by eapply copyFileSync_fresh_grows.
    + intros Hr. etransitivity; [exact Hacc|]. by eapply Hrec.
    + by intros [= _ <-].
Qed.

Lemma copyDirRecursive_grows (fuel : nat) (src dest : path) (now : N) (f : fsys) e f' :
  copyDirRecursive fuel src dest now f = Some (e, f') -> f ⊆ f'.
Proof.
  revert src dest f e f'. induction fuel as [|fuel IH]; intros src dest f e f'; [done|].
  rewrite copyDirRecursive_unfold.
  destruct (if existsSync dest f then inr f else mkdirSync dest f) as [err|f1] eqn:Hmk.
  { by intros [= _ <-]. }
  assert (H1 : f ⊆ f1).
  { destruct (existsSync dest f); [by injection Hmk as <-|by apply mkdirSync_grows in Hmk]. }
  destruct (readdirSync src f1) as [err|entries]; [by intros [= _ <-]|].
  apply copy_loop_grows; [intros; by eapply IH|]. by intros e0 f0 [= _ <-].
Qed.

Lemma strip_prefix_app (p r : path) : strip_prefix p (p ++ r) = Some r.
Proof. induction p as [|a p IH]; simpl; [done|]. by rewrite decide_True. Qed.

Lemma children_elem (p : path) (x : string) (f : fsys) :
  is_Some (f !! (p ++ [x])) -> x ∈ children p f.
Proof.
  intros [n Hn]. unfold children. apply list_elem_of_omap.
  exists (p ++ [x], n). split; [by apply elem_of_map_to_list|].
  simpl. by rewrite strip_prefix_app.
Qed.

Lemma copy_loop_stopped (rec : path -> path -> N -> fsys -> option ending)
    (src dest : path) (now : N) (entries : list string) (acc : option ending) :
  (forall f, acc <> Some (None, f)) ->
  foldl (copy_entry rec src dest now) acc entries = acc.
Proof.
  revert acc. induction entries as [|x xs IH]; intros acc Hacc; simpl; [done|].
  assert (Hx : copy_entry rec src dest now acc x = acc).
  { destruct acc as [[[err|] f]|]; try done. by destruct (Hacc f). }
  rewrite Hx. by apply IH.
Qed.

(** In a loop that ends without an error, every entry had its turn, and
    what its turn wrote is still there at the end. *)
Lemma copy_loop_visits (rec : path -> path -> N -> fsys -> option ending)
    (src dest : path) (now : N) (x : string) (f' : fsys) :
  (forall s d f0 e0 f1, rec s d now f0 = Some (e0, f1) -> f0 ⊆ f1) ->
  forall entries f0,
    foldl (copy_entry rec src dest now) (Some (None, f0)) entries = Some (None, f') ->
    x ∈ entries ->
    exists fa fb, f0 ⊆ fa /\
      copy_entry rec src dest now (Some (None, fa)) x = Some (None, fb) /\ fb ⊆ f'.
Proof.
  intros Hrec entries. induction entries as [|y ys IH]; intros f0 Hend Hx.
  { by apply elem_of_nil in Hx. }
  cbn [foldl] in Hend.
  destruct (copy_entry rec src dest now (Some (None, f0)) y) as [[[err|] f2]|] eqn:Hy.
  - rewrite copy_loop_stopped in Hend; [done|]. by intros f.
  - assert (H02 : f0 ⊆ f2).
    { apply (copy_loop_grows rec src dest now f0 None f2 Hrec [y] (Some (None, f0)));
        [by intros e0 f1 [= _ <-]|exact Hy]. }
    apply elem_of_cons in Hx as [->|Hx].
    + exists f0, f2. split; [done|]. split; [done|].
      by apply (copy_loop_grows rec src dest now f2 None f' Hrec ys (Some (None, f2)));
        [intros e0 f1 [= _ <-]|].
    + destruct (IH f2 Hend Hx) as (fa & fb & Ha & Hstep & Hb).
      exists fa, fb. split; [by etransitivity|]. done.
  - rewrite copy_loop_stopped in Hend; [done|]. by intros f.
Qed.

Lemma copyDirRecursive_dest (fuel : nat) (src dest : path) (now : N) (f f' : fsys) e :
  copyDirRecursive fuel src dest now f = Some (e, f') ->
  e = None -> is_Some (f' !! dest).
Proof.
  intros Hc ->. destruct fuel as [|fuel]; [done|].
  rewrite copyDirRecursive_unfold in Hc.
  destruct (if existsSync dest f then inr f else mkdirSync dest f) as [err|f1] eqn:Hmk; [done|].
  assert (H1 : is_Some (f1 !! dest)).
  { destruct (existsSync dest f) eqn:Ex.
    - injection Hmk as <-. by apply bool_decide_eq_true in Ex.
    - by eapply mkdirSync_self. }
  destruct (readdirSync src f1) as [err|entries]; [done|].
  destruct H1 as [n Hn]. exists n.
  eapply lookup_weaken; [exact Hn|].
  eapply (copy_loop_grows _ src dest now f1 None f');
    [intros; by eapply copyDirRecursive_grows| |exact Hc].
  by intros e0 f0 [= _ <-].
Qed.

Lemma well_formed_parent (f : fsys) (p r : path) :
  FsShape.well_formed f -> is_Some (f !! (p ++ r)) -> r <> [] -> f !! p = Some Dir.
Proof.
  intros Hwf [n Hn] Hr. specialize (Hwf _ _ Hn). simpl in Hwf.
  rewrite Forall_forall in Hwf. apply Hwf.
  apply PatcherExtras.ancestors_of_prefix; [by exists r|].
  intros Heq. apply Hr. apply (app_inv_head p). by rewrite app_nil_r.
Qed.

Lemma copyDirRecursive_covers (f : fsys) (now : N) :
  FsShape.well_formed f ->
  forall (fuel : nat) (src dest : path) (f0 f' : fsys) (rel : path),
    f ⊆ f0 ->
    copyDirRecursive fuel src dest now f0 = Some (None, f') ->
    rel <> [] -> is_Some (f !! (src ++ rel)) ->
    is_Some (f' !! (dest ++ rel)).
Proof.
  intros Hwf fuel. induction fuel as [|fuel IH]; intros src dest f0 f' rel H0 Hc Hrel Hn; [done|].
  rewrite copyDirRecursive_unfold in Hc.
  destruct (if existsSync dest f0 then inr f0 else mkdirSync dest f0) as [err|f1] eqn:Hmk; [done|].
  assert (H1 : f0 ⊆ f1).
  { destruct (existsSync dest f0); [by injection Hmk as <-|by apply mkdirSync_grows in Hmk]. }
  unfold readdirSync in Hc.
  destruct (f1 !! src) as [[c m|]|]; try done.
  destruct rel as [|x rel]; [done|]. clear Hrel.
  assert (Hx : exists n, f !! (src ++ [x]) = Some n /\ (rel <> [] -> n = Dir)).
  { destruct rel as [|y rel].
    - destruct Hn as [n Hn]. by exists n.
    - exists Dir. split; [|done].
      apply (well_formed_parent f (src ++ [x]) (y :: rel)); [done| |done].
      by rewrite <- app_assoc. }
  destruct Hx as (n & Hnx & Hdir).
  assert (Hin : x ∈ children src f1).
  { apply children_elem. exists n.
    eapply lookup_weaken; [exact Hnx|]. by etransitivity. }
  destruct (copy_loop_visits _ src dest now x f'
              (fun s d fa e0 fb => copyDirRecursive_grows fuel s d now fa e0 fb)
              _ _ Hc Hin) as (fa & fb & Ha & Hstep & Hb).
  assert (Hfa : f ⊆ fa) by (etransitivity; [exact H0|]; by etransitivity).
  unfold copy_entry in Hstep. cbv zeta in Hstep.
  rewrite (lookup_weaken _ _ _ _ Hnx Hfa) in Hstep.
  assert (Hlift : forall q, is_Some (fb !! q) -> is_Some (f' !! q)).
  { intros q [k Hk]. exists k. by eapply lookup_weaken. }
  apply Hlift.
  destruct n as [c m|].
  - destruct rel as [|y rel]; [|by specialize (Hdir ltac:(done))].
    destruct (existsSync (dest ++ [x]) fa) eqn:Ex.
    + injection Hstep as <-. by apply bool_decide_eq_true in Ex.
    + destruct (copyFileSync _ _ _ _) as [err|f3] eqn:Hcp; [done|].
      injection Hstep as <-.
      destruct (copyFileSync_dst _ _ _ _ _ Hcp) as (c' & m' & _ & Hd). by eexists.
  - destruct rel as [|y rel].
    + by eapply copyDirRecursive_dest.
    + replace (dest ++ x :: y :: rel) with ((dest ++ [x]) ++ y :: rel)
        by by rewrite <- app_assoc.
      eapply (IH (src ++ [x]) (dest ++ [x]) fa fb); [done|done|done|].
      by rewrite <- app_assoc.
Qed.

(** What the copy writes lies at the destination, below it, or on the
    way to it. *)
Lemma copy_loop_frame (rec : path -> path -> N -> fsys -> option ending)
    (src dest : path) (now : N) (f : fsys) (p : path) e f' :
  ~ related dest p ->
  (forall x f0 e0 f1, rec (src ++ [x]) (dest ++ [x]) now f0 = Some (e0, f1) ->
                         f1 !! p = f0 !! p) ->
  forall entries acc,
    (forall e0 f0, acc = Some (e0, f0) -> f0 !! p = f !! p) ->
    foldl (copy_entry rec src dest now) acc entries = Some (e, f') -> f' !! p = f !! p.
Proof.
  intros Hp Hrec entries. induction entries as [|x xs IHxs]; intros acc Hacc; simpl.
  - apply Hacc.
  - apply IHxs. intros e0 f0. unfold copy_entry.
    destruct acc as [[[err|] f2]|]; [by apply Hacc| |done].
    specialize (Hacc None f2 eq_refl). cbv zeta.
    destruct (f2 !! (src ++ [x])) as [[c m|]|].
    + destruct (existsSync (dest ++ [x]) f2) eqn:Ex; [by intros [= _ <-]|].
      destruct (copyFileSync _ _ _ _) as [err|f3] eqn:Hcp; [by intros [= _ <-]|].
      intros [= _ <-]. rewrite <- Hacc.
      eapply copyFileSync_frame; [exact Hcp|].
      intros ->. apply Hp. left. by apply prefix_app_r.
    + intros Hr. rewrite <- Hacc. by eapply (Hrec x).
    + by intros [= _ <-].
Qed.

Lemma copyDirRecursive_frame (fuel : nat) (src dest : path) (now : N) (f : fsys)
    (p : path) e f' :
  copyDirRecursive fuel src dest now f = Some (e, f') ->
  ~ related dest p -> f' !! p = f !! p.
Proof.
  revert src dest f e f'. induction fuel as [|fuel IH]; intros src dest f e f'; [done|].
  rewrite copyDirRecursive_unfold. intros Hc Hp.
  destruct (if existsSync dest f then inr f else mkdirSync dest f) as [err|f1] eqn:Hmk.
  { by injection Hc as _ <-. }
  assert (H1 : f1 !! p = f !! p).
  { destruct (existsSync dest f); [by injection Hmk as <-|].
    eapply mkdirSync_frame; [exact Hmk|]. intros H. apply Hp. by right. }
  destruct (readdirSync src f1) as [err|entries]; [by injection Hc as _ <-|].
  rewrite <- H1.
  eapply (copy_loop_frame _ src dest now f1 p e f' Hp); [| |exact Hc].
  - intros x f0 e0 f2 Hr. eapply IH; [exact Hr|].
    intros Hrel. by apply related_app in Hrel.
  - by intros e0 f0 [= _ <-].
Qed.

Lemma shallow_frame (k : nat) (src dest : path) (f f' : fsys) :
  ~ related src dest ->
  (forall p, ~ related dest p -> f' !! p = f !! p) ->
  FsShape.shallow k src f -> FsShape.shallow k src f'.
Proof.
  intros Hsd Hfr Hsh p n Hp Hpre. apply (Hsh p n); [|done].
  rewrite <- Hfr; [done|].
  intros [H|H].
  - destruct (prefix_weak_total src dest p) as [?|?]; [done|done| |];
      apply Hsd; [by left|by right].
  - apply Hsd. left. by etransitivity.
Qed.

Lemma copy_loop_returns (rec : path -> path -> N -> fsys -> option ending)
    (k : nat) (src dest : path) (now : N) :
  ~ related src dest ->
  (forall x f0 e0 f1 p, rec (src ++ [x]) (dest ++ [x]) now f0 = Some (e0, f1) ->
                        ~ related (dest ++ [x]) p -> f1 !! p = f0 !! p) ->
  (forall x f0, f0 !! (src ++ [x]) = Some Dir -> FsShape.shallow k src f0 ->
                is_Some (rec (src ++ [x]) (dest ++ [x]) now f0)) ->
  forall entries acc,
    is_Some acc ->
    (forall e0 f0, acc = Some (e0, f0) -> FsShape.shallow k src f0) ->
    is_Some (foldl (copy_entry rec src dest now) acc entries).
Proof.
  intros Hsd Hfr Hrec entries. induction entries as [|x xs IH]; intros acc Hsome Hacc; [done|].
  cbn [foldl]. destruct acc as [[[err|] f0]|]; [| |by destruct Hsome].
  { rewrite copy_loop_stopped; [done|]. by intros f. }
  specialize (Hacc None f0 eq_refl).
  destruct (copy_entry rec src dest now (Some (None, f0)) x) as [[e1 f1]|] eqn:Hstep.
  - apply IH; [done|]. intros e0 f2 [= _ <-].
    apply (shallow_frame k src dest f0 f1 Hsd); [|done].
    intros p Hp.
    unfold copy_entry in Hstep. cbv zeta in Hstep.
    destruct (f0 !! (src ++ [x])) as [[c m|]|].
    + destruct (existsSync (dest ++ [x]) f0); [by injection Hstep as _ <-|].
      destruct (copyFileSync _ _ _ _) as [err|f3] eqn:Hcp; [by injection Hstep as _ <-|].
      injection Hstep as _ <-. eapply copyFileSync_frame; [exact Hcp|].
      intros ->. apply Hp. left. by apply prefix_app_r.
    + eapply Hfr; [exact Hstep|].
      intros Hrel. by apply related_app in Hrel.
    + by injection Hstep as _ <-.
  - exfalso. unfold copy_entry in Hstep. cbv zeta in Hstep.
    destruct (f0 !! (src ++ [x])) as [[c m|]|] eqn:Hx; [| |done].
    + destruct (existsSync (dest ++ [x]) f0); [done|].
      by destruct (copyFileSync _ _ _ _).
    + destruct (Hrec x f0 Hx Hacc) as [r Hr]. by rewrite Hr in Hstep.
Qed.

Lemma copyDirRecursive_enough_fuel (now : N) (k : nat) :
  forall (src dest : path) (f : fsys),
    ~ related src dest -> FsShape.shallow k src f ->
    is_Some (copyDirRecursive (S k) src dest now f).
Proof.
  induction k as [|k IH]; intros src dest f Hsd Hsh.
  - rewrite copyDirRecursive_unfold.
    destruct (if existsSync dest f then inr f else mkdirSync dest f) as [err|f1] eqn:Hmk; [done|].
    destruct (readdirSync src f1) as [err|entries]; [done|].
    assert (Hsh1 : FsShape.shallow 0 src f1).
    { destruct (existsSync dest f); [by injection Hmk as <-|].
      apply (shallow_frame 0 src dest f f1 Hsd); [|done].
      intros p Hp. eapply mkdirSync_frame; [exact Hmk|]. intros H. apply Hp. by right. }
    apply (copy_loop_returns _ 0 src dest now Hsd); [done| |done|by intros e0 f0 [= _ <-]].
    intros x f0 Hx Hsh0. exfalso.
    assert (length (src ++ [x]) <= length src + 0)
      by (apply (Hsh0 _ _ Hx); by apply prefix_app_r).
    rewrite length_app in H. simpl in H. lia.
  - rewrite copyDirRecursive_unfold.
    destruct (if existsSync dest f then inr f else mkdirSync dest f) as [err|f1] eqn:Hmk; [done|].
    destruct (readdirSync src f1) as [err|entries]; [done|].
    assert (Hsh1 : FsShape.shallow (S k) src f1).
    { destruct (existsSync dest f); [by injection Hmk as <-|].
      apply (shallow_frame (S k) src dest f f1 Hsd); [|done].
      intros p Hp. eapply mkdirSync_frame; [exact Hmk|]. intros H. apply Hp. by right. }
    apply (copy_loop_returns _ (S k) src dest now Hsd);
      [|  |done|by intros e0 f0 [= _ <-]].
    + intros x f0 e0 f2 p Hr Hp. by eapply copyDirRecursive_frame.
    + intros x f0 Hx Hsh0. apply IH; [by apply unrelated_app|].
      intros p n Hp Hpre. rewrite length_app. simpl.
      assert (length p <= length src + S k); [|lia].
      apply (Hsh0 p n); [done|]. etransitivity; [|exact Hpre]. by apply prefix_app_r.
Qed.

Lemma copyDirRecursive_top (fuel : nat) (src dest : path) (now : N) (f0 f' : fsys)
    (x : string) :
  copyDirRecursive fuel src dest now f0 = Some (None, f') ->
  is_Some (f0 !! (src ++ [x])) -> is_Some (f' !! (dest ++ [x])).
Proof.
  intros Hc [n Hn]. destruct fuel as [|fuel]; [done|].
  rewrite copyDirRecursive_unfold in Hc.
  destruct (if existsSync dest f0 then inr f0 else mkdirSync dest f0) as [err|f1] eqn:Hmk; [done|].
  assert (H1 : f0 ⊆ f1).
  { destruct (existsSync dest f0); [by injection Hmk as <-|by apply mkdirSync_grows in Hmk]. }
  unfold readdirSync in Hc.
  destruct (f1 !! src) as [[c m|]|]; try done.
  assert (Hin : x ∈ children src f1).
  { apply children_elem. exists n. by eapply lookup_weaken. }
  destruct (copy_loop_visits _ src dest now x f'
              (fun s d fa e0 fb => copyDirRecursive_grows fuel s d now fa e0 fb)
              _ _ Hc Hin) as (fa & fb & Ha & Hstep & Hb).
  assert (Hfa : f0 ⊆ fa) by by etransitivity.
  unfold copy_entry in Hstep. cbv zeta in Hstep.
  rewrite (lookup_weaken _ _ _ _ Hn Hfa) in Hstep.
  assert (Hlift : forall q, is_Some (fb !! q) -> is_Some (f' !! q)).
  { intros q [k Hk]. exists k. by eapply lookup_weaken. }
  apply Hlift.
  destruct n as [c m|].
  - destruct (existsSync (dest ++ [x]) fa) eqn:Ex.
    + injection Hstep as <-. by apply bool_decide_eq_true in Ex.
    + destruct (copyFileSync _ _ _ _) as [err|f3] eqn:Hcp; [done|].
      injection Hstep as <-.
      destruct (copyFileSync_dst _ _ _ _ _ Hcp) as (c' & m' & _ & Hd). by eexists.
  - by eapply copyDirRecursive_dest.
Qed.

Lemma pair_eta {A : Type} (r : option (A * fsys)) (a : A) (fs : fsys) :
  fst <$> r = Some a -> r = Some (a, left_by fs r).
Proof. destruct r as [[a' f]|]; simpl; [|done]. by intros [= ->]. Defined.

Lemma reads_stable (p : path) (fs fs' : fsys) :
  fs ⊆ fs' -> is_Some (fs !! p) ->
  readFileSync p fs' = readFileSync p fs /\ existsSync p fs' = existsSync p fs.
Proof.
  intros Hsub [n Hn]. pose proof (lookup_weaken _ _ _ _ Hn Hsub) as En.
  unfold readFileSync, existsSync. by rewrite En, Hn.
Qed.

Lemma needs_copy_stable (mv : string -> option (option string)) (appPath userData : path)
    (fs fs' : fsys) :
  fs ⊆ fs' ->
  is_Some (fs !! (EXTENSION_SRC_DIR appPath ++ ["manifest.json"])) ->
  is_Some (fs !! (EXTENSION_DIR userData ++ ["manifest.json"])) ->
  needs_copy mv appPath userData fs' = needs_copy mv appPath userData fs.
Proof.
  intros Hsub Hn Hk.
  destruct (reads_stable _ _ _ Hsub Hn) as [E1 _].
  destruct (reads_stable _ _ _ Hsub Hk) as [E2 E3].
  unfold needs_copy. cbv zeta. by rewrite E1, E2, E3.
Qed.

(** How [ensureExtensionExtracted] ends, case by case. *)
Lemma ensureExtensionExtracted_cases (mv : string -> option (option string)) (appPath userData : path) (fuel : nat) (now : N)
    (fs fs' : fsys) (b : bool) :
  ensureExtensionExtracted mv appPath userData fuel now fs = Some (b, fs') ->
  (b = false /\ fs' = fs /\
     (fs !! EXTENSION_SRC_DIR appPath = None \/
      fs !! (EXTENSION_SRC_DIR appPath ++ ["manifest.json"]) = None)) \/
  (is_Some (fs !! (EXTENSION_SRC_DIR appPath ++ ["manifest.json"])) /\
   ((b = true /\ fs' = fs /\ is_Some (fs !! EXTENSION_DIR userData) /\
       needs_copy mv appPath userData fs = false) \/
    (exists e, copyDirRecursive fuel (EXTENSION_SRC_DIR appPath) (EXTENSION_DIR userData)
                 now fs = Some (e, fs') /\
               b = bool_decide (e = None)))).
Proof.
  unfold ensureExtensionExtracted, existsSync.
  destruct (decide (is_Some (fs !! EXTENSION_SRC_DIR appPath))) as [Hs|Hs].
  2:{ rewrite (bool_decide_eq_false_2 _ Hs). simpl. intros [= <- <-].
      left. split; [done|]. split; [done|]. left. by apply eq_None_not_Some. }
  rewrite (bool_decide_eq_true_2 _ Hs). simpl.
  destruct (decide (is_Some (fs !! (EXTENSION_SRC_DIR appPath ++ ["manifest.json"]))))
    as [Hm|Hm].
  2:{ rewrite (bool_decide_eq_false_2 _ Hm). simpl. intros [= <- <-].
      left. split; [done|]. split; [done|]. right. by apply eq_None_not_Some. }
  rewrite (bool_decide_eq_true_2 _ Hm). simpl. cbv zeta.
  intros H. right. split; [done|].
  destruct (decide (is_Some (fs !! EXTENSION_DIR userData))) as [Hd|Hd].
  - rewrite (bool_decide_eq_true_2 _ Hd) in H. simpl in H.
    destruct (needs_copy mv appPath userData fs) eqn:Hneed.
    + right. destruct (copyDirRecursive _ _ _ _ _) as [[[err|] f1]|]; [| |done];
        injection H as <- <-; by eexists.
    + left. by injection H as <- <-.
  - rewrite (bool_decide_eq_false_2 _ Hd) in H. simpl in H.
    right. destruct (copyDirRecursive _ _ _ _ _) as [[[err|] f1]|]; [| |done];
      injection H as <- <-; by eexists.
Qed.

(** *** The copy *)

(** X19.  [copyDirRecursive] only adds: whether it returns or throws half
    way, every node that was there is still there unchanged, and what is
    new lies at the destination, below it or on the way to it. *)
Theorem copyDirRecursive_only_adds (fuel : nat) (src dest : path) (now : N)
    (f f' : fsys) (e : option errno) :
  copyDirRecursive fuel src dest now f = Some (e, f') ->
  (forall p n, f !! p = Some n -> f' !! p = Some n) /\
  (forall p, ~ related dest p -> f' !! p = f !! p).
Proof.
  intros Hc. split.
  - intros p n Hn. eapply lookup_weaken; [exact Hn|]. by eapply copyDirRecursive_grows.
  - intros p Hp. by eapply copyDirRecursive_frame.
Qed.

Lemma copyDirRecursive_only_adds_witness :
  ScenarioExtension.stale !! (ScenarioExtension.dest_dir ++ ["manifest.json"])
    = Some (File "1.1" 2%N) /\
  ScenarioExtension.copied !! (ScenarioExtension.dest_dir ++ ["manifest.json"])
    = Some (File "1.1" 2%N) /\
  ScenarioExtension.copied !! (ScenarioExtension.dest_dir ++ ["js"; "background.js"])
    = Some (File "block()" 9%N).
Proof.
  split; [by vm_compute|]. split; [|by vm_compute].
  refine (proj1 (copyDirRecursive_only_adds 3 ScenarioExtension.src_dir
                   ScenarioExtension.dest_dir 9%N ScenarioExtension.stale
                   ScenarioExtension.copied None _) _ _ _).
  - refine (pair_eta _ _ _ _). vm_compute. reflexivity.
  - vm_compute. reflexivity.
Defined.

(** X20.  When [copyDirRecursive] returns without throwing, every file
    and directory below the source has a counterpart below the
    destination. *)
Theorem copyDirRecursive_copies_every_entry (fuel : nat) (src dest : path) (now : N)
    (f f' : fsys) (rel : path) :
  FsShape.well_formed f ->
  copyDirRecursive fuel src dest now f = Some (None, f') ->
  rel <> [] -> is_Some (f !! (src ++ rel)) ->
  is_Some (f' !! (dest ++ rel)).
Proof. intros Hwf Hc Hrel Hn. by eapply (copyDirRecursive_covers f now Hwf fuel src dest f). Qed.

Lemma copyDirRecursive_copies_every_entry_witness :
  is_Some (ScenarioExtension.fresh_copy !! (ScenarioExtension.dest_dir ++ ["css"; "ui.css"])).
Proof.
  refine (copyDirRecursive_copies_every_entry 3 ScenarioExtension.src_dir
            ScenarioExtension.dest_dir 9%N ScenarioExtension.packed
            ScenarioExtension.fresh_copy ["css"; "ui.css"] _ _ _ _).
  - apply (bool_decide_unpack _). vm_compute. exact I.
  - refine (pair_eta _ _ _ _). vm_compute. reflexivity.
  - discriminate.
  - apply (bool_decide_unpack _). vm_compute. exact I.
Defined.

(** X21.  When neither of source and destination lies inside the other,
    the copy ends: it needs one level of recursion more than the source
    tree is deep. *)
Theorem copyDirRecursive_ends (k : nat) (src dest : path) (now : N) (f : fsys) :
  ~ related src dest -> FsShape.shallow k src f ->
  exists e f', copyDirRecursive (S k) src dest now f = Some (e, f').
Proof.
  intros Hsd Hsh.
  destruct (copyDirRecursive_enough_fuel now k src dest f Hsd Hsh) as [[e f'] H].
  by exists e, f'.
Qed.

Lemma copyDirRecursive_ends_witness :
  exists e f', copyDirRecursive 3 ScenarioExtension.src_dir ScenarioExtension.dest_dir 9%N
                 ScenarioExtension.stale = Some (e, f').
Proof.
  refine (copyDirRecursive_ends 2 ScenarioExtension.src_dir ScenarioExtension.dest_dir 9%N
            ScenarioExtension.stale _ _).
  - apply (bool_decide_unpack _). vm_compute. exact I.
  - apply (bool_decide_unpack _). vm_compute. exact I.
Defined.

(** *** Extracting the extension *)

(** X22.  An extracted copy is never brought up to date: when the
    extracted [manifest.json] exists, [ensureExtensionExtracted] leaves it
    as it is, whatever it returns, so a copy found outdated is found
    outdated again at the next start. *)
Theorem stale_copy_is_not_refreshed (mv : string -> option (option string)) (appPath userData : path) (fuel : nat) (now : N)
    (fs fs' : fsys) (b : bool) :
  ensureExtensionExtracted mv appPath userData fuel now fs = Some (b, fs') ->
  is_Some (fs !! (EXTENSION_DIR userData ++ ["manifest.json"])) ->
  fs' !! (EXTENSION_DIR userData ++ ["manifest.json"])
    = fs !! (EXTENSION_DIR userData ++ ["manifest.json"]) /\
  needs_copy mv appPath userData fs' = needs_copy mv appPath userData fs.
Proof.
  intros H Hd.
  destruct (ensureExtensionExtracted_cases _ _ _ _ _ _ _ _ H)
    as [(_ & -> & _)|(Hm & [(_ & -> & _)|(e & Hc & _)])]; [done|done|].
  pose proof (copyDirRecursive_grows _ _ _ _ _ _ _ Hc) as Hsub.
  split; [|by apply needs_copy_stable].
  destruct Hd as [n Hn]. rewrite Hn. by eapply lookup_weaken.
Qed.

Lemma stale_copy_witness :
  needs_copy ScenarioExtension.toy_version ScenarioExtension.appPath
    ScenarioExtension.userData ScenarioExtension.stale = true /\
  ScenarioExtension.restarted !! (ScenarioExtension.dest_dir ++ ["manifest.json"])
    = Some (File "1.1" 2%N) /\
  needs_copy ScenarioExtension.toy_version ScenarioExtension.appPath
    ScenarioExtension.userData ScenarioExtension.restarted = true.
Proof.
  split; [by vm_compute|].
  destruct (stale_copy_is_not_refreshed ScenarioExtension.toy_version
              ScenarioExtension.appPath ScenarioExtension.userData 3 9%N
              ScenarioExtension.stale ScenarioExtension.restarted true) as [H1 H2].
  - refine (pair_eta _ _ _ _). vm_compute. reflexivity.
  - apply (bool_decide_unpack _). vm_compute. exact I.
  - split.
    + etransitivity; [exact H1|]. vm_compute. reflexivity.
    + etransitivity; [exact H2|]. vm_compute. reflexivity.
Defined.

(** X23.  [ensureExtensionExtracted] returns [true] only when the
    directory handed to the extension loader exists and holds a
    [manifest.json]; and when it returns [false] because the source or its
    manifest is missing, it has written nothing. *)
Theorem extracted_when_true (mv : string -> option (option string)) (appPath userData : path) (fuel : nat) (now : N)
    (fs fs' : fsys) (b : bool) :
  ensureExtensionExtracted mv appPath userData fuel now fs = Some (b, fs') ->
  (b = true ->
     is_Some (fs' !! EXTENSION_DIR userData) /\
     is_Some (fs' !! (EXTENSION_DIR userData ++ ["manifest.json"]))) /\
  (fs !! (EXTENSION_SRC_DIR appPath ++ ["manifest.json"]) = None -> b = false /\ fs' = fs).
Proof.
  intros H.
  destruct (ensureExtensionExtracted_cases _ _ _ _ _ _ _ _ H)
    as [(-> & -> & Hmiss)|(Hm & [(-> & -> & Hd & Hneed)|(e & Hc & ->)])].
  - split; [done|]. by intros _.
  - split; [|intros Hnone; rewrite Hnone in Hm; by destruct Hm].
    intros _. split; [done|].
    unfold needs_copy, existsSync in Hneed. cbv zeta in Hneed.
    destruct (readFileSync _ fs) as [?|srcText]; [done|].
    destruct (mv srcText); [|done].
    destruct (decide (is_Some (fs !! (EXTENSION_DIR userData ++ ["manifest.json"]))))
      as [Hyes|Hno]; [done|].
    by rewrite (bool_decide_eq_false_2 _ Hno) in Hneed.
  - split; [|intros Hnone; rewrite Hnone in Hm; by destruct Hm].
    intros He%bool_decide_eq_true. subst e. split.
    + by eapply copyDirRecursive_dest.
    + by eapply copyDirRecursive_top.
Qed.

Lemma extracted_when_true_witness :
  is_Some (ScenarioExtension.first_start !! ScenarioExtension.dest_dir) /\
  is_Some (ScenarioExtension.first_start !! (ScenarioExtension.dest_dir ++ ["manifest.json"])).
Proof.
  refine (proj1 (extracted_when_true ScenarioExtension.toy_version
                   ScenarioExtension.appPath ScenarioExtension.userData 3 9%N
                   ScenarioExtension.packed ScenarioExtension.first_start true _) eq_refl).
  refine (pair_eta _ _ _ _). vm_compute. reflexivity.
Defined.

End ExtensionExtras.
